(** * License API: the commission ledger of the licence service

    A shallow embedding of the Express/PostgreSQL service of the repository
    (the successive versions of [index.js] together with [schema.sql]) and the
    properties of its commission ledger.

    - JavaScript numbers are IEEE-754 binary64 values: the kernel's primitive
      [float].  Arithmetic and comparisons of the handlers are the primitive
      operations, so that rounding is the one of the running program.
    - PostgreSQL [NUMERIC] values are exact: rationals [Q].  The driver sends
      every parameter as text ([Number::toString] for numbers) and returns
      [NUMERIC] columns as text, so the two worlds meet through
      [JS.toString] / [PG.numeric_in] and [PG.numeric_out_number].
    - A handler is a function from the request, the time of the request and
      the store to a response and a store, written in a small state and
      exception monad that follows the statements issued on the connection. *)

From Stdlib Require Import ZArith QArith Qround Floats List String Ascii Bool Lia Lqa.
From Stdlib Require Import Permutation Sorted.
From Stdlib Require DecimalString.
Import ListNotations.

Set Warnings "-inexact-float".

(* ================================================================== *)
(** * The JavaScript fragment used by the handlers *)
(* ================================================================== *)

Module JS.

Local Open Scope string_scope.
Local Open Scope Z_scope.

(** ** Strings

    Header values and text fields are sequences of Latin-1 code units. *)

(** White space of [String.prototype.trim] within Latin-1: TAB, LF, VT, FF,
    CR, SPACE and NO-BREAK SPACE. *)
Definition is_space (c : ascii) : bool :=
  let n := Z.of_nat (nat_of_ascii c) in
  ((9 <=? n) && (n <=? 13)) || (n =? 32) || (n =? 160).

Fixpoint trimStart (s : string) : string :=
  match s with
  | EmptyString => EmptyString
  | String c r => if is_space c then trimStart r else s
  end.

Fixpoint trimEnd (s : string) : string :=
  match s with
  | EmptyString => EmptyString
  | String c r =>
      match trimEnd r with
      | EmptyString => if is_space c then EmptyString else String c EmptyString
      | r' => String c r'
      end
  end.

(** [s.trim()] *)
Definition trim (s : string) : string := trimEnd (trimStart s).

(** [s.startsWith(p)] *)
Definition startsWith (s p : string) : bool := String.prefix p s.

Fixpoint drop (n : nat) (s : string) : string :=
  match n, s with
  | O, _ => s
  | S n', String _ r => drop n' r
  | S _, EmptyString => EmptyString
  end.

(** [s.substring(n)] *)
Definition substring_from (n : nat) (s : string) : string := drop n s.

(** [s.replace(pat, "")] with a string pattern: the first occurrence only. *)
Definition replace_first (s pat : string) : string :=
  match String.index 0 pat s with
  | Some i => (String.substring 0 i s ++ drop (i + String.length pat) s)%string
  | None => s
  end.

(** ** Numbers *)

(** The double nearest to a rational (round to nearest, ties to even):
    what reading a decimal numeral yields. *)
Definition SF_of_Q (q : Q) : spec_float :=
  let n := Qnum q in
  let d := Zpos (Qden q) in
  match n with
  | Z0 => S754_zero false
  | _ =>
      let a := Z.abs n in
      let k := Z.max 0 (66 + Z.log2 d - Z.log2 a) in
      let (qt, r) := Z.div_eucl (a * 2 ^ k) d in
      let loc := if r =? 0 then loc_Exact else loc_Inexact (Z.compare (2 * r) d) in
      binary_round_aux prec emax (n <? 0) qt (- k) loc
  end.

Definition float_of_Q (q : Q) : float := SF2Prim (SF_of_Q q).

(** The exact value of a finite double. *)
Definition Q_of_float (x : float) : option Q :=
  match Prim2SF x with
  | S754_zero _ => Some (0 # 1)
  | S754_finite s m e =>
      let v := if 0 <=? e then Qmake (Zpos m * 2 ^ e) 1
               else Qmake (Zpos m) (Z.to_pos (2 ^ (- e))) in
      Some (if s then Qopp v else v)
  | _ => None
  end.

(** [Number.isFinite(x)] for a value that is already a number. *)
Definition isFinite (x : float) : bool := is_finite x.

Definition pow10 (n : Z) : Q :=
  if 0 <=? n then Qmake (10 ^ n) 1 else Qmake 1 (Z.to_pos (10 ^ (- n))).

Definition nb_digits (n : Z) : Z :=
  Z.of_nat (Decimal.nb_digits (Pos.to_uint (Z.to_pos n))).

Fixpoint ilog10_down (fuel : nat) (v : Q) (e : Z) : Z :=
  match fuel with
  | O => e
  | S f => if Qle_bool (pow10 e) v then e else ilog10_down f v (e - 1)
  end.

Fixpoint ilog10_up (fuel : nat) (v : Q) (e : Z) : Z :=
  match fuel with
  | O => e
  | S f => if Qle_bool (pow10 (e + 1)) v then ilog10_up f v (e + 1) else e
  end.

(** [ilog10 v] is the integer [e] with [10^e <= v < 10^(e+1)], for [v > 0]. *)
Definition ilog10 (v : Q) : Z :=
  let est := nb_digits (Qnum v) - nb_digits (Zpos (Qden v)) in
  ilog10_up 3 v (ilog10_down 3 v est).

(** The decimal [s * 10^p] with [k] significant digits that reads back as
    [x], if there is one: the candidates are the two neighbours of the exact
    value [v], and the closer one wins (the even one on a tie). *)
Definition shortest_at (x : float) (v : Q) (e k : Z) : option (Z * Z) :=
  let p := e + 1 - k in
  let t := Qmult v (pow10 (- p)) in
  let lo := Qfloor t in
  let hi := lo + 1 in
  let ok s := (0 <? s) && PrimFloat.eqb (float_of_Q (Qmult (inject_Z s) (pow10 p))) x in
  match ok lo, ok hi with
  | true, true =>
      match Qcompare (Qminus t (inject_Z lo)) (Qminus (inject_Z hi) t) with
      | Lt => Some (lo, p)
      | Gt => Some (hi, p)
      | Eq => Some (if Z.even lo then lo else hi, p)
      end
  | true, false => Some (lo, p)
  | false, true => Some (hi, p)
  | false, false => None
  end.

Fixpoint shortest_from (fuel : nat) (x : float) (v : Q) (e k : Z) : option (Z * Z) :=
  match fuel with
  | O => None
  | S f =>
      match shortest_at x v e k with
      | Some r => Some r
      | None => shortest_from f x v e (k + 1)
      end
  end.

Fixpoint strip_zeros (fuel : nat) (s p : Z) : Z * Z :=
  match fuel with
  | O => (s, p)
  | S f => if (s mod 10 =? 0) && negb (s =? 0) then strip_zeros f (s / 10) (p + 1) else (s, p)
  end.

(** The digits of [Number::toString] for a finite [x > 0]: [(s, n, k)] with
    [k] as small as possible, [10^(k-1) <= s < 10^k] and [s * 10^(n-k)]
    reading back as [x]. *)
Definition shortest_digits (x : float) : option (Z * Z * Z) :=
  match Q_of_float x with
  | Some v =>
      match shortest_from 17 x v (ilog10 v) 1 with
      | Some (s, p) =>
          let '(s', p') := strip_zeros 20 s p in
          let k := nb_digits s' in
          Some (s', p' + k, k)
      | None => None
      end
  | None => None
  end.

Definition string_of_Z (n : Z) : string :=
  match n with
  | Z0 => "0"
  | Zpos p => DecimalString.NilEmpty.string_of_uint (Pos.to_uint p)
  | Zneg p => String "-" (DecimalString.NilEmpty.string_of_uint (Pos.to_uint p))
  end.

Fixpoint zeros (n : nat) : string :=
  match n with
  | O => EmptyString
  | S m => String "0" (zeros m)
  end.

(** [Number::toString(x)] in radix 10. *)
Definition toString_pos (x : float) : string :=
  match shortest_digits x with
  | None => "NaN"
  | Some (s, n, k) =>
      let ds := string_of_Z s in
      if (k <=? n) && (n <=? 21) then
        (ds ++ zeros (Z.to_nat (n - k)))%string
      else if (0 <? n) && (n <=? 21) then
        (String.substring 0 (Z.to_nat n) ds ++ "." ++ drop (Z.to_nat n) ds)%string
      else if (-6 <? n) && (n <=? 0) then
        ("0." ++ zeros (Z.to_nat (- n)) ++ ds)%string
      else
        let ex := n - 1 in
        let sg : string := if ex <? 0 then "-" else "+" in
        let es := (sg ++ string_of_Z (Z.abs ex))%string in
        if k =? 1 then (ds ++ "e" ++ es)%string
        else (String.substring 0 1 ds ++ "." ++ drop 1 ds ++ "e" ++ es)%string
  end.

Definition toString (x : float) : string :=
  if is_nan x then "NaN"
  else if is_zero x then "0"
  else if PrimFloat.ltb x PrimFloat.zero then
    if is_infinity x then "-Infinity" else String "-" (toString_pos (PrimFloat.opp x))
  else if is_infinity x then "Infinity" else toString_pos x.

(** ** Reading a numeral *)

Definition digit_val (c : ascii) : option Z :=
  let n := Z.of_nat (nat_of_ascii c) in
  if (48 <=? n) && (n <=? 57) then Some (n - 48) else None.

Definition hex_val (c : ascii) : option Z :=
  let n := Z.of_nat (nat_of_ascii c) in
  if (48 <=? n) && (n <=? 57) then Some (n - 48)
  else if (97 <=? n) && (n <=? 102) then Some (n - 87)
  else if (65 <=? n) && (n <=? 70) then Some (n - 55)
  else None.

Definition octal_val (c : ascii) : option Z :=
  let n := Z.of_nat (nat_of_ascii c) in
  if (48 <=? n) && (n <=? 55) then Some (n - 48) else None.

Definition binary_val (c : ascii) : option Z :=
  let n := Z.of_nat (nat_of_ascii c) in
  if (48 <=? n) && (n <=? 49) then Some (n - 48) else None.

(** The longest run of digits at the head of [s]: its value in base [b],
    its length and what follows. *)
Fixpoint scan_digits (dv : ascii -> option Z) (b : Z) (s : string) (acc cnt : Z)
  : Z * Z * string :=
  match s with
  | EmptyString => (acc, cnt, s)
  | String c r =>
      match dv c with
      | Some d => scan_digits dv b r (acc * b + d) (cnt + 1)
      | None => (acc, cnt, s)
      end
  end.

Definition scan_sign (s : string) : bool * string :=
  match s with
  | String "-" r => (true, r)
  | String "+" r => (false, r)
  | _ => (false, s)
  end.

(** [digits [. digits] [e [sign] digits]] or [. digits [e [sign] digits]],
    covering the whole of [s]. *)
Definition unsigned_decimal (s : string) : option Q :=
  let '(i, ni, r1) := scan_digits digit_val 10 s 0 0 in
  let '(f, nf, r2) :=
    match r1 with
    | String "." r => scan_digits digit_val 10 r 0 0
    | _ => (0, 0, r1)
    end in
  if ni + nf =? 0 then None
  else
    let mant := inject_Z (i * 10 ^ nf + f) in
    match r2 with
    | EmptyString => Some (Qmult mant (pow10 (- nf)))
    | String c r3 =>
        if (Ascii.eqb c "e" || Ascii.eqb c "E")%bool then
          let '(neg, r4) := scan_sign r3 in
          let '(e, ne, r5) := scan_digits digit_val 10 r4 0 0 in
          match r5 with
          | EmptyString =>
              if 0 <? ne then Some (Qmult mant (pow10 ((if neg then - e else e) - nf)))
              else None
          | _ => None
          end
        else None
    end.

Definition radix_literal (dv : ascii -> option Z) (b : Z) (s : string) : float :=
  let '(v, n, r) := scan_digits dv b s 0 0 in
  match r with
  | EmptyString => if 0 <? n then float_of_Q (inject_Z v) else nan
  | _ => nan
  end.

(** [StringToNumber]: the numeric value of a string ([Number(s)]). *)
Definition StringToNumber (s : string) : float :=
  let t := trim s in
  match t with
  | EmptyString => PrimFloat.zero
  | String "0" (String "x" r) | String "0" (String "X" r) => radix_literal hex_val 16 r
  | String "0" (String "o" r) | String "0" (String "O" r) => radix_literal octal_val 8 r
  | String "0" (String "b" r) | String "0" (String "B" r) => radix_literal binary_val 2 r
  | _ =>
      let '(neg, r) := scan_sign t in
      let x := if String.eqb r "Infinity" then infinity
               else match unsigned_decimal r with
                    | Some q => float_of_Q q
                    | None => nan
                    end in
      if neg then PrimFloat.opp x else x
  end.

(** ** Values

    The values a JSON request body, a route parameter or a header can hold.
    [Obj json] is a plain object or an array, given by its JSON text; arrays
    convert to numbers and strings through their elements, which this
    fragment does not follow: the handlers are exercised with primitives. *)
Inductive value :=
| Undefined
| Null
| Boolean (b : bool)
| Num (x : float)
| Str (s : string)
| Obj (json : string).

(** [ToBoolean]: the test of [if (v)], [!v], [v || w]. *)
Definition truthy (v : value) : bool :=
  match v with
  | Undefined | Null => false
  | Boolean b => b
  | Num x => negb (is_zero x || is_nan x)
  | Str s => negb (String.eqb s "")
  | Obj _ => true
  end.

(** [v == null] *)
Definition nullish (v : value) : bool :=
  match v with
  | Undefined | Null => true
  | _ => false
  end.

(** [v || w] *)
Definition or (v w : value) : value := if truthy v then v else w.

(** [v ?? w] *)
Definition coalesce (v w : value) : value := if nullish v then w else v.

(** [Number(v)] *)
Definition Number (v : value) : float :=
  match v with
  | Undefined => nan
  | Null => PrimFloat.zero
  | Boolean b => if b then PrimFloat.one else PrimFloat.zero
  | Num x => x
  | Str s => StringToNumber s
  | Obj _ => nan
  end.

(** [String(v)] *)
Definition String_ (v : value) : string :=
  match v with
  | Undefined => "undefined"
  | Null => "null"
  | Boolean b => if b then "true" else "false"
  | Num x => toString x
  | Str s => s
  | Obj _ => "[object Object]"
  end.

(** [Number.isFinite(v)]: no conversion, only a finite number passes. *)
Definition Number_isFinite (v : value) : bool :=
  match v with
  | Num x => is_finite x
  | _ => false
  end.

(** [x || 0] on a number. *)
Definition or_zero (x : float) : float :=
  if is_zero x || is_nan x then PrimFloat.zero else x.

End JS.

(* ================================================================== *)
(** * The text protocol between the driver and PostgreSQL *)
(* ================================================================== *)

Module PG.

Local Open Scope string_scope.
Local Open Scope Z_scope.

(** A query parameter as the driver sends it: [null] and [undefined] become
    NULL, a number its [toString], a string itself, an object its JSON. *)
Definition param (v : JS.value) : option string :=
  match v with
  | JS.Undefined | JS.Null => None
  | JS.Boolean b => Some (if b then "true" else "false")
  | JS.Num x => Some (JS.toString x)
  | JS.Str s => Some s
  | JS.Obj json => Some json
  end.

Definition is_space (c : ascii) : bool :=
  let n := Z.of_nat (nat_of_ascii c) in
  ((9 <=? n) && (n <=? 13)) || (n =? 32).

Fixpoint skip_spaces (s : string) : string :=
  match s with
  | EmptyString => EmptyString
  | String c r => if is_space c then skip_spaces r else s
  end.

Fixpoint drop_trailing_spaces (s : string) : string :=
  match s with
  | EmptyString => EmptyString
  | String c r =>
      match drop_trailing_spaces r with
      | EmptyString => if is_space c then EmptyString else String c EmptyString
      | r' => String c r'
      end
  end.

(** Input of a [NUMERIC]: an optionally signed decimal numeral with an
    optional exponent, surrounded by optional white space.  The values are
    the finite ones; the texts [NaN] and [Infinity] are not read, as in
    PostgreSQL up to version 13 for [Infinity] (later versions store it,
    which a column of rationals cannot). *)
Definition numeric_in (s : string) : option Q :=
  let '(neg, r) := JS.scan_sign (drop_trailing_spaces (skip_spaces s)) in
  match JS.unsigned_decimal r with
  | Some q => Some (if neg then Qopp q else q)
  | None => None
  end.

(** Input of an [INT] (and of a [SERIAL] key): an optionally signed run of
    digits within the 32-bit range. *)
Definition int4_in (s : string) : option Z :=
  let '(neg, r) := JS.scan_sign (drop_trailing_spaces (skip_spaces s)) in
  let '(v, n, rest) := JS.scan_digits JS.digit_val 10 r 0 0 in
  match rest with
  | EmptyString =>
      let z := if neg then - v else v in
      if (0 <? n) && (- 2147483648 <=? z) && (z <=? 2147483647) then Some z else None
  | _ => None
  end.

(** [Number(row.col)] for a [NUMERIC] column: the driver delivers the column
    as its decimal text, which [Number] reads to the nearest double. *)
Definition number_of_numeric (q : Q) : float := JS.float_of_Q q.

(** An [INT] column is delivered as a number. *)
Definition number_of_int4 (z : Z) : float := JS.float_of_Q (inject_Z z).

Inductive error :=
| invalid_text_representation
| not_null_violation
| foreign_key_violation
| unique_violation.

Inductive result (R : Type) : Type :=
| Ok (r : R)
| Err (e : error).
Arguments Ok {R} r.
Arguments Err {R} e.

(** ** Handlers as programs over the statements of a schema

    [Do q k] awaits the statement [q] and continues with its outcome; a
    rejected query throws at the [await], which is [Throw]. *)
Section Program.
Variable stmt : Type -> Type.

Inductive prog (A : Type) : Type :=
| Ret (a : A)
| Throw (e : error)
| Do (R : Type) (q : stmt R) (k : result R -> prog A).

Arguments Ret {A} a.
Arguments Throw {A} e.
Arguments Do {A R} q k.

(** [const x = await query(q); k] *)
Definition await {A R : Type} (q : stmt R) (k : R -> prog A) : prog A :=
  Do q (fun r => match r with Ok x => k x | Err e => Throw e end).

(** [try { await query(q) } catch (_) {}; k] *)
Definition await_ignoring {A R : Type} (q : stmt R) (k : prog A) : prog A :=
  Do q (fun _ => k).

(** [const x = await f(..); k] for an [async function f] of the file. *)
Fixpoint bind {A B : Type} (p : prog A) (f : A -> prog B) : prog B :=
  match p with
  | Ret a => f a
  | Throw e => Throw e
  | Do q k => Do q (fun r => bind (k r) f)
  end.

(** [try { p } catch (err) { h err }] *)
Fixpoint try_catch {A : Type} (p : prog A) (h : error -> prog A) : prog A :=
  match p with
  | Ret a => Ret a
  | Throw e => h e
  | Do q k => Do q (fun r => try_catch (k r) h)
  end.

Section Run.
Variable conn : Type.
Variable exec : forall R : Type, stmt R -> conn -> result R * conn.

(** One handler running alone on its connection. *)
Fixpoint run {A : Type} (p : prog A) (c : conn) : result A * conn :=
  match p with
  | Ret a => (Ok a, c)
  | Throw e => (Err e, c)
  | Do q k => let '(r, c') := exec _ q c in run (k r) c'
  end.
End Run.
End Program.

Arguments Ret {stmt A} a.
Arguments Throw {stmt A} e.
Arguments Do {stmt A R} q k.
Arguments await {stmt A R} q k.
Arguments await_ignoring {stmt A R} q k.
Arguments bind {stmt A B} p f.
Arguments try_catch {stmt A} p h.
Arguments run {stmt conn} exec {A} p c.

End PG.

(* ================================================================== *)
(** * Requests and responses *)
(* ================================================================== *)

Module Http.

(** A JavaScript object read by key: [req.body.agentId] is [body "agentId"],
    and a missing key reads [undefined]. *)
Definition object := string -> JS.value.

Fixpoint obj (l : list (string * JS.value)) : object :=
  fun key =>
    match l with
    | [] => JS.Undefined
    | (k, v) :: r => if String.eqb k key then v else obj r key
    end.

Record request := {
  headers : object;
  params : object;
  body : object
}.

(** The JSON documents the handlers answer with. *)
Inductive json :=
| error_json (error : string)                          (* { error } *)
| ok_json                                              (* { ok: true } *)
| id_json (id : Z)                                     (* { ok: true, id } *)
| sale_json (id : Z) (commissionPercent commissionAmount : float).
                              (* { ok: true, id, commissionPercent, commissionAmount } *)

Record response := {
  status : Z;
  payload : json
}.

(** [res.status(n).json({ error: msg })] *)
Definition fail (n : Z) (msg : string) : response :=
  {| status := n; payload := error_json msg |}.

(** [res.json(doc)] *)
Definition reply (doc : json) : response :=
  {| status := 200; payload := doc |}.

End Http.

(* ================================================================== *)
(** * The store of [schema.sql]: agents, customers, sales, payouts *)
(* ================================================================== *)

Module Schema.

Local Open Scope Z_scope.

(** ** Rows

    A nullable column is an [option]; timestamps are instants of a clock. *)

Module Agents.
Record row := {
  id : Z;                          (* SERIAL PRIMARY KEY *)
  name : string;                   (* TEXT NOT NULL *)
  phone : option string;           (* TEXT *)
  commission_percent : option Q;   (* NUMERIC DEFAULT 0 *)
  balance : option Q;              (* NUMERIC DEFAULT 0 *)
  created_at : Z                   (* TIMESTAMP DEFAULT NOW() *)
}.
End Agents.

Module Customers.
Record row := {
  id : Z;                          (* SERIAL PRIMARY KEY *)
  customer_name : string;          (* TEXT NOT NULL *)
  phone : option string;
  product_id : string;             (* TEXT NOT NULL *)
  license_key : string;            (* TEXT NOT NULL *)
  machine_id : option string;
  expire_at : option string;       (* DATE *)
  issued_at : Z;                   (* TIMESTAMP DEFAULT NOW() *)
  popup_message : option string;
  agent_id : option Z              (* INT REFERENCES agents(id) *)
}.
End Customers.

Module Sales.
Record row := {
  id : Z;                          (* SERIAL PRIMARY KEY *)
  agent_id : Z;                    (* INT NOT NULL REFERENCES agents(id) *)
  customer_id : option Z;          (* INT REFERENCES customers(id) *)
  sale_price : Q;                  (* NUMERIC NOT NULL *)
  commission_percent : Q;          (* NUMERIC NOT NULL *)
  commission_amount : Q;           (* NUMERIC NOT NULL *)
  note : option string;            (* TEXT *)
  created_at : Z
}.
End Sales.

Module Payouts.
Record row := {
  id : Z;                          (* SERIAL PRIMARY KEY *)
  agent_id : Z;                    (* INT NOT NULL REFERENCES agents(id) *)
  amount : Q;                      (* NUMERIC NOT NULL *)
  note : option string;            (* TEXT *)
  created_at : Z
}.
End Payouts.

(** The tables and the sequences behind the [SERIAL] keys (their last value). *)
Record store := {
  agents : list Agents.row;
  customers : list Customers.row;
  sales : list Sales.row;
  payouts : list Payouts.row;
  agents_id_seq : Z;
  sales_id_seq : Z;
  payouts_id_seq : Z
}.

(** ** Row changes *)

Inductive write :=
| insert_agents (r : Agents.row)
| insert_sales (r : Sales.row)
| insert_payouts (r : Payouts.row)
| add_balance (delta : option Q) (id : Z).   (* SET balance = balance + delta WHERE id = .. *)

Definition plus_null (b d : option Q) : option Q :=
  match b, d with
  | Some x, Some y => Some (Qplus x y)
  | _, _ => None
  end.

Definition bump (delta : option Q) (n : Z) (a : Agents.row) : Agents.row :=
  if Agents.id a =? n then
    {| Agents.id := Agents.id a;
       Agents.name := Agents.name a;
       Agents.phone := Agents.phone a;
       Agents.commission_percent := Agents.commission_percent a;
       Agents.balance := plus_null (Agents.balance a) delta;
       Agents.created_at := Agents.created_at a |}
  else a.

Definition with_tables (s : store) (a : list Agents.row) (sa : list Sales.row)
  (p : list Payouts.row) : store :=
  {| agents := a; customers := customers s; sales := sa; payouts := p;
     agents_id_seq := agents_id_seq s; sales_id_seq := sales_id_seq s;
     payouts_id_seq := payouts_id_seq s |}.

Definition apply (s : store) (w : write) : store :=
  match w with
  | insert_agents r => with_tables s (agents s ++ [r]) (sales s) (payouts s)
  | insert_sales r => with_tables s (agents s) (sales s ++ [r]) (payouts s)
  | insert_payouts r => with_tables s (agents s) (sales s) (payouts s ++ [r])
  | add_balance d n => with_tables s (map (bump d n) (agents s)) (sales s) (payouts s)
  end.

(** ** A connection

    Outside a transaction a statement takes effect at once.  Between [BEGIN]
    and [COMMIT] the row changes are pending: [COMMIT] applies them and
    [ROLLBACK] drops them.  A value drawn from a sequence is never given back. *)
Record conn := {
  shared : store;
  pending : option (list write);
  now : Z
}.

Definition connect (s : store) (t : Z) : conn :=
  {| shared := s; pending := None; now := t |}.

(** What the statements of the connection see. *)
Definition view (c : conn) : store :=
  match pending c with
  | Some ws => fold_left apply ws (shared c)
  | None => shared c
  end.

Definition put (c : conn) (w : write) : conn :=
  match pending c with
  | Some ws => {| shared := shared c; pending := Some (ws ++ [w]); now := now c |}
  | None => {| shared := apply (shared c) w; pending := None; now := now c |}
  end.

Definition with_shared (c : conn) (s : store) : conn :=
  {| shared := s; pending := pending c; now := now c |}.

Definition next_agents_id (c : conn) : Z * conn :=
  let s := shared c in
  let n := agents_id_seq s + 1 in
  (n, with_shared c
        {| agents := agents s; customers := customers s; sales := sales s;
           payouts := payouts s; agents_id_seq := n;
           sales_id_seq := sales_id_seq s; payouts_id_seq := payouts_id_seq s |}).

Definition next_sales_id (c : conn) : Z * conn :=
  let s := shared c in
  let n := sales_id_seq s + 1 in
  (n, with_shared c
        {| agents := agents s; customers := customers s; sales := sales s;
           payouts := payouts s; agents_id_seq := agents_id_seq s;
           sales_id_seq := n; payouts_id_seq := payouts_id_seq s |}).

Definition next_payouts_id (c : conn) : Z * conn :=
  let s := shared c in
  let n := payouts_id_seq s + 1 in
  (n, with_shared c
        {| agents := agents s; customers := customers s; sales := sales s;
           payouts := payouts s; agents_id_seq := agents_id_seq s;
           sales_id_seq := sales_id_seq s; payouts_id_seq := n |}).

(** ** Reading parameters *)

(** A parameter bound to a column: NULL stays NULL, a text is read by the
    input function of the column type. *)
Definition bind {T : Type} (input : string -> option T) (p : option string)
  : PG.result (option T) :=
  match p with
  | None => PG.Ok None
  | Some t =>
      match input t with
      | Some v => PG.Ok (Some v)
      | None => PG.Err PG.invalid_text_representation
      end
  end.

Definition text_in (s : string) : option string := Some s.

Definition has_agent (s : store) (n : Z) : bool :=
  existsb (fun a => Agents.id a =? n) (agents s).

Definition has_customer (s : store) (n : Z) : bool :=
  existsb (fun c => Customers.id c =? n) (customers s).

Definition agents_by_id (s : store) (n : Z) : list Agents.row :=
  filter (fun a => Agents.id a =? n) (agents s).

Definition sales_of (s : store) (n : Z) : list Sales.row :=
  filter (fun r => Sales.agent_id r =? n) (sales s).

Definition payouts_of (s : store) (n : Z) : list Payouts.row :=
  filter (fun r => Payouts.agent_id r =? n) (payouts s).

Definition Qsum (l : list Q) : Q := fold_right Qplus (0 # 1) l.

(** [ORDER BY created_at DESC]: rows of equal [created_at] keep the order of
    the table, one of the orders the server may answer with. *)
Fixpoint insert_desc {A : Type} (key : A -> Z) (x : A) (l : list A) : list A :=
  match l with
  | [] => [x]
  | y :: r => if key y <? key x then x :: l else y :: insert_desc key x r
  end.

Definition order_desc {A : Type} (key : A -> Z) (l : list A) : list A :=
  fold_right (insert_desc key) [] (rev l).

Definition customer_name_of (s : store) (cid : option Z) : option string :=
  match cid with
  | None => None
  | Some n =>
      match filter (fun c => Customers.id c =? n) (customers s) with
      | c :: _ => Some (Customers.customer_name c)
      | [] => None
      end
  end.

(** ** The statements the handlers issue *)

Inductive stmt : Type -> Type :=
| BEGIN : stmt unit
| COMMIT : stmt unit
| ROLLBACK : stmt unit
(* SELECT .. FROM agents WHERE id = $1 FOR UPDATE *)
| select_agent_for_update (id : option string) : stmt (list Agents.row)
(* SELECT .. FROM agents WHERE id = $1 *)
| select_agent (id : option string) : stmt (list Agents.row)
(* INSERT INTO agents(name, phone, commission_percent)
   VALUES($1,$2,COALESCE($3,0)) RETURNING id *)
| insert_agent (name phone commission_percent : option string) : stmt Z
(* INSERT INTO sales(agent_id, customer_id, sale_price, commission_percent,
   commission_amount, note) VALUES($1,$2,$3,$4,$5,$6) RETURNING id *)
| insert_sale (agent_id customer_id sale_price commission_percent
               commission_amount note : option string) : stmt Z
(* INSERT INTO payouts(agent_id, amount, note) VALUES($1,$2,$3) RETURNING id *)
| insert_payout (agent_id amount note : option string) : stmt Z
(* UPDATE agents SET balance = balance + $1 WHERE id = $2 *)
| update_balance_plus (amount id : option string) : stmt unit
(* UPDATE agents SET balance = balance - $1 WHERE id = $2 *)
| update_balance_minus (amount id : option string) : stmt unit
(* SELECT COALESCE(SUM(sale_price),0), COALESCE(SUM(commission_amount),0)
   FROM sales WHERE agent_id = $1 *)
| select_sales_totals (agent_id : option string) : stmt (Q * Q)
(* SELECT COALESCE(SUM(amount),0) FROM payouts WHERE agent_id = $1 *)
| select_payouts_total (agent_id : option string) : stmt Q
(* SELECT s.*, c.customer_name FROM sales s LEFT JOIN customers c
   ON c.id = s.customer_id WHERE s.agent_id = $1
   ORDER BY s.created_at DESC LIMIT 200 *)
| select_sales_report (agent_id : option string) : stmt (list (Sales.row * option string))
(* SELECT id, amount, note, created_at FROM payouts WHERE agent_id = $1
   ORDER BY created_at DESC LIMIT 200 *)
| select_payouts_report (agent_id : option string) : stmt (list Payouts.row).

(** A selection on an integer key: no row for NULL, an error for a text that
    is not an integer. *)
Definition by_key {A : Type} (p : option string) (rows : Z -> list A) (c : conn)
  : PG.result (list A) * conn :=
  match bind PG.int4_in p with
  | PG.Err e => (PG.Err e, c)
  | PG.Ok None => (PG.Ok [], c)
  | PG.Ok (Some n) => (PG.Ok (rows n), c)
  end.

(** [$3] stands beside the integer [0] in [COALESCE($3,0)], so it is read as
    an [INT], and the result is stored in the [NUMERIC] column.  The key is
    the next value of the sequence, on a store whose sequence is not behind
    the keys of [agents]. *)
Definition exec_insert_agent (name phone commission_percent : option string) (c : conn)
  : PG.result Z * conn :=
  match bind PG.int4_in commission_percent with
  | PG.Err e => (PG.Err e, c)
  | PG.Ok pct =>
      let '(n, c1) := next_agents_id c in
      match name with
      | None => (PG.Err PG.not_null_violation, c1)
      | Some nm =>
          (PG.Ok n,
           put c1 (insert_agents
                     {| Agents.id := n;
                        Agents.name := nm;
                        Agents.phone := phone;
                        Agents.commission_percent :=
                          match pct with
                          | Some z => Some (inject_Z z)
                          | None => Some (0 # 1)
                          end;
                        Agents.balance := Some (0 # 1);
                        Agents.created_at := now c |}))
      end
  end.

(** The keys of [sales] and [payouts] are the next values of their
    sequences.  These statements are modelled for stores whose sequences are
    not behind the keys of their tables, which is how the calls leave them;
    on a store restored otherwise PostgreSQL refuses a key that is taken. *)
Definition exec_insert_sale (agent_id customer_id sale_price commission_percent
                             commission_amount note : option string) (c : conn)
  : PG.result Z * conn :=
  match bind PG.int4_in agent_id, bind PG.int4_in customer_id,
        bind PG.numeric_in sale_price, bind PG.numeric_in commission_percent,
        bind PG.numeric_in commission_amount with
  | PG.Ok a, PG.Ok cu, PG.Ok sp, PG.Ok cp, PG.Ok ca =>
      let '(n, c1) := next_sales_id c in
      match a, sp, cp, ca with
      | Some a', Some sp', Some cp', Some ca' =>
          if has_agent (view c1) a'
             && match cu with Some k => has_customer (view c1) k | None => true end
          then
            (PG.Ok n,
             put c1 (insert_sales
                       {| Sales.id := n;
                          Sales.agent_id := a';
                          Sales.customer_id := cu;
                          Sales.sale_price := sp';
                          Sales.commission_percent := cp';
                          Sales.commission_amount := ca';
                          Sales.note := note;
                          Sales.created_at := now c |}))
          else (PG.Err PG.foreign_key_violation, c1)
      | _, _, _, _ => (PG.Err PG.not_null_violation, c1)
      end
  | _, _, _, _, _ => (PG.Err PG.invalid_text_representation, c)
  end.

Definition exec_insert_payout (agent_id amount note : option string) (c : conn)
  : PG.result Z * conn :=
  match bind PG.int4_in agent_id, bind PG.numeric_in amount with
  | PG.Ok a, PG.Ok am =>
      let '(n, c1) := next_payouts_id c in
      match a, am with
      | Some a', Some am' =>
          if has_agent (view c1) a' then
            (PG.Ok n,
             put c1 (insert_payouts
                       {| Payouts.id := n;
                          Payouts.agent_id := a';
                          Payouts.amount := am';
                          Payouts.note := note;
                          Payouts.created_at := now c |}))
          else (PG.Err PG.foreign_key_violation, c1)
      | _, _ => (PG.Err PG.not_null_violation, c1)
      end
  | _, _ => (PG.Err PG.invalid_text_representation, c)
  end.

Definition exec_update_balance (sign : Q -> Q) (amount id : option string) (c : conn)
  : PG.result unit * conn :=
  match bind PG.numeric_in amount, bind PG.int4_in id with
  | PG.Ok am, PG.Ok (Some n) => (PG.Ok tt, put c (add_balance (option_map sign am) n))
  | PG.Ok _, PG.Ok None => (PG.Ok tt, c)
  | _, _ => (PG.Err PG.invalid_text_representation, c)
  end.

Definition exec (R : Type) (q : stmt R) (c : conn) : PG.result R * conn :=
  match q in stmt R0 return PG.result R0 * conn with
  | BEGIN =>
      (PG.Ok tt,
       match pending c with
       | None => {| shared := shared c; pending := Some []; now := now c |}
       | Some _ => c
       end)
  | COMMIT =>
      (PG.Ok tt, {| shared := view c; pending := None; now := now c |})
  | ROLLBACK =>
      (PG.Ok tt, {| shared := shared c; pending := None; now := now c |})
  | select_agent_for_update id => by_key id (agents_by_id (view c)) c
  | select_agent id => by_key id (agents_by_id (view c)) c
  | insert_agent name phone pct => exec_insert_agent name phone pct c
  | insert_sale a cu sp cp ca note => exec_insert_sale a cu sp cp ca note c
  | insert_payout a am note => exec_insert_payout a am note c
  | update_balance_plus am id => exec_update_balance (fun q => q) am id c
  | update_balance_minus am id => exec_update_balance Qopp am id c
  | select_sales_totals a =>
      match bind PG.int4_in a with
      | PG.Err e => (PG.Err e, c)
      | PG.Ok None => (PG.Ok (0 # 1, 0 # 1), c)
      | PG.Ok (Some n) =>
          (PG.Ok (Qsum (map Sales.sale_price (sales_of (view c) n)),
                  Qsum (map Sales.commission_amount (sales_of (view c) n))), c)
      end
  | select_payouts_total a =>
      match bind PG.int4_in a with
      | PG.Err e => (PG.Err e, c)
      | PG.Ok None => (PG.Ok (0 # 1), c)
      | PG.Ok (Some n) => (PG.Ok (Qsum (map Payouts.amount (payouts_of (view c) n))), c)
      end
  | select_sales_report a =>
      by_key a (fun n =>
                  map (fun r => (r, customer_name_of (view c) (Sales.customer_id r)))
                      (firstn 200 (order_desc Sales.created_at (sales_of (view c) n)))) c
  | select_payouts_report a =>
      by_key a (fun n => firstn 200 (order_desc Payouts.created_at (payouts_of (view c) n))) c
  end.

Definition prog := PG.prog stmt.

(** A request served on a fresh connection: the answer, if the handler gives
    one, and the store it leaves. *)
Definition serve {A : Type} (p : prog A) (t : Z) (s : store) : option A * store :=
  match PG.run exec p (connect s t) with
  | (PG.Ok a, c) => (Some a, shared c)
  | (PG.Err _, c) => (None, shared c)
  end.

End Schema.

(* ================================================================== *)
(** * Authentication middlewares and endpoints, version by version *)
(* ================================================================== *)

(** What a middleware decides: hand over to the route ([next()]) or answer. *)
Inductive verdict :=
| next
| answer (r : Http.response).

(** [process.env.API_KEY]: a string, or [undefined] when the variable is unset. *)
Definition env_var := option string.

(** A header is a string, or [undefined] when the request does not carry it. *)
Definition header (req : Http.request) (key : string) : option string :=
  match Http.headers req key with
  | JS.Str s => Some s
  | _ => None
  end.

(** [app.METHOD(path, auth, handler)] *)
Definition protected {stmt : Type -> Type} (auth : Http.request -> verdict)
  (handler : Http.request -> PG.prog stmt Http.response) (req : Http.request)
  : PG.prog stmt Http.response :=
  match auth req with
  | next => handler req
  | answer r => PG.Ret r
  end.

Notation "x <- q ;; k" := (PG.await q (fun x => k))
  (at level 100, q at next level, right associativity, only parsing).

Notation "x <-- p ;; k" := (PG.bind p (fun x => k))
  (at level 100, p at next level, right associativity, only parsing).

(** ** [src/unnamed/part_003]: stored balance, transactions, report *)

Module Part003.

Import Schema.
Local Open Scope string_scope.

(** [const RAW_API_KEY = process.env.API_KEY || ""] *)
Definition RAW_API_KEY (env : env_var) : string :=
  match env with
  | Some s => s
  | None => ""
  end.

Definition API_KEY (env : env_var) : string :=
  if JS.startsWith (RAW_API_KEY env) "API_KEY="
  then JS.replace_first (RAW_API_KEY env) "API_KEY="
  else RAW_API_KEY env.

Definition auth (env : env_var) (req : Http.request) : verdict :=
  let apiKeyHeader := header req "x-api-key" in
  let bearerHeader := header req "authorization" in
  let token : option string := None in
  (* Case 1: x-api-key *)
  let token :=
    match apiKeyHeader with
    | Some h => if String.eqb h "" then token else Some h
    | None => token
    end in
  (* Case 2: Authorization: Bearer xxx *)
  let token :=
    match bearerHeader with
    | Some h =>
        if negb (String.eqb h "") && JS.startsWith h "Bearer "
        then Some (JS.trim (JS.replace_first h "Bearer "))
        else token
    | None => token
    end in
  match token with
  | Some t =>
      if String.eqb (API_KEY env) "" || String.eqb t "" || negb (String.eqb t (API_KEY env))
      then answer (Http.fail 401 "Unauthorized")
      else next
  | None => answer (Http.fail 401 "Unauthorized")
  end.

(** [POST /api/agents] *)
Definition post_api_agents (req : Http.request) : prog Http.response :=
  PG.try_catch
    (let name := Http.body req "name" in
     let phone := Http.body req "phone" in
     let commissionPercent := Http.body req "commissionPercent" in
     if negb (JS.truthy name) || String.eqb (JS.trim (JS.String_ name)) "" then
       PG.Ret (Http.fail 400 "name is required")
     else
       id <- insert_agent (Some (JS.trim (JS.String_ name)))
                          (PG.param (JS.or phone JS.Null))
                          (PG.param (JS.coalesce commissionPercent (JS.Num PrimFloat.zero))) ;;
       PG.Ret (Http.reply (Http.id_json id)))
    (fun err => PG.Ret (Http.fail 500 "Server error")).

(** The document of [GET /api/agents/:id/report]. *)
Record report := {
  agent : Agents.row;
  salesAmountTotal : Q;
  commissionTotal : Q;
  payoutsTotal : Q;
  sales : list (Sales.row * option string);
  payouts : list Payouts.row
}.

Inductive report_response :=
| report_fail (r : Http.response)
| report_ok (r : report).

(** [GET /api/agents/:id/report] *)
Definition get_api_agents_id_report (req : Http.request) : prog report_response :=
  let agentId := JS.Number (Http.params req "id") in
  if negb (JS.isFinite agentId) then
    PG.Ret (report_fail (Http.fail 400 "invalid agent id"))
  else
    PG.try_catch
      (agentRes <- select_agent (PG.param (JS.Num agentId)) ;;
       match agentRes with
       | [] => PG.Ret (report_fail (Http.fail 404 "agent not found"))
       | a :: _ =>
           totalsRes <- select_sales_totals (PG.param (JS.Num agentId)) ;;
           payoutTotalsRes <- select_payouts_total (PG.param (JS.Num agentId)) ;;
           salesRes <- select_sales_report (PG.param (JS.Num agentId)) ;;
           payoutsRes <- select_payouts_report (PG.param (JS.Num agentId)) ;;
           PG.Ret (report_ok
                     {| agent := a;
                        salesAmountTotal := fst totalsRes;
                        commissionTotal := snd totalsRes;
                        payoutsTotal := payoutTotalsRes;
                        sales := salesRes;
                        payouts := payoutsRes |})
       end)
      (fun err => PG.Ret (report_fail (Http.fail 500 "Server error"))).

(** [Number(row.col)] for a nullable [NUMERIC] column ([Number(null)] is 0). *)
Definition Number_of_column (col : option Q) : float :=
  match col with
  | Some q => PG.number_of_numeric q
  | None => PrimFloat.zero
  end.

(** [POST /api/sales]: record a sale, add the commission to [agents.balance]. *)
Definition post_api_sales (req : Http.request) : prog Http.response :=
  PG.try_catch
    (let agentId := Http.body req "agentId" in
     let customerId := Http.body req "customerId" in
     let amount := Http.body req "amount" in
     let salePrice := Http.body req "salePrice" in
     let sale_price := Http.body req "sale_price" in
     let note := Http.body req "note" in
     let aId := JS.Number agentId in
     let cId := if JS.nullish customerId then JS.Null else JS.Num (JS.Number customerId) in
     let rawPrice := JS.coalesce (JS.coalesce salePrice sale_price) amount in
     let price := JS.Number rawPrice in
     if negb (JS.isFinite aId) then
       PG.Ret (Http.fail 400 "agentId is required")
     else if negb (JS.isFinite price) || PrimFloat.leb price PrimFloat.zero then
       PG.Ret (Http.fail 400 "salePrice must be > 0")
     else
       _ <- BEGIN ;;
       agentRes <- select_agent_for_update (PG.param (JS.Num aId)) ;;
       match agentRes with
       | [] =>
           _ <- ROLLBACK ;;
           PG.Ret (Http.fail 404 "agent not found")
       | a :: _ =>
           let commissionPercent :=
             JS.or_zero (Number_of_column (Agents.commission_percent a)) in
           let commissionAmount :=
             PrimFloat.div (PrimFloat.mul price commissionPercent) 100%float in
           saleRes <- insert_sale
                        (PG.param (JS.Num aId))
                        (PG.param (if JS.Number_isFinite cId then cId else JS.Null))
                        (PG.param (JS.Num price))
                        (PG.param (JS.Num commissionPercent))
                        (PG.param (JS.Num commissionAmount))
                        (PG.param (JS.or note JS.Null)) ;;
           _ <- update_balance_plus (PG.param (JS.Num commissionAmount))
                                    (PG.param (JS.Num aId)) ;;
           _ <- COMMIT ;;
           PG.Ret (Http.reply (Http.sale_json saleRes commissionPercent commissionAmount))
       end)
    (fun err =>
       PG.await_ignoring ROLLBACK
         (PG.Ret (Http.fail 500 "Server error"))).

(** [POST /api/payouts]: withdraw from [agents.balance]. *)
Definition post_api_payouts (req : Http.request) : prog Http.response :=
  PG.try_catch
    (let agentId := Http.body req "agentId" in
     let amount := Http.body req "amount" in
     let note := Http.body req "note" in
     let aId := JS.Number agentId in
     let amt := JS.Number amount in
     if negb (JS.isFinite aId) then
       PG.Ret (Http.fail 400 "agentId is required")
     else if negb (JS.isFinite amt) || PrimFloat.leb amt PrimFloat.zero then
       PG.Ret (Http.fail 400 "amount must be > 0")
     else
       _ <- BEGIN ;;
       agentRes <- select_agent_for_update (PG.param (JS.Num aId)) ;;
       match agentRes with
       | [] =>
           _ <- ROLLBACK ;;
           PG.Ret (Http.fail 404 "agent not found")
       | a :: _ =>
           let balance := JS.or_zero (Number_of_column (Agents.balance a)) in
           if PrimFloat.ltb balance amt then
             _ <- ROLLBACK ;;
             PG.Ret (Http.fail 400 "insufficient balance")
           else
             payoutRes <- insert_payout (PG.param (JS.Num aId))
                                        (PG.param (JS.Num amt))
                                        (PG.param (JS.or note JS.Null)) ;;
             _ <- update_balance_minus (PG.param (JS.Num amt)) (PG.param (JS.Num aId)) ;;
             _ <- COMMIT ;;
             PG.Ret (Http.reply (Http.id_json payoutRes))
       end)
    (fun err =>
       PG.await_ignoring ROLLBACK
         (PG.Ret (Http.fail 500 "Server error"))).

End Part003.

(** ** [src/unnamed/part_001]: the same ledger, the sale price read from [amount] *)

Module Part001.

Import Schema.
Local Open Scope string_scope.

Definition RAW_API_KEY (env : env_var) : string :=
  match env with
  | Some s => s
  | None => ""
  end.

Definition API_KEY (env : env_var) : string :=
  if JS.startsWith (RAW_API_KEY env) "API_KEY="
  then JS.replace_first (RAW_API_KEY env) "API_KEY="
  else RAW_API_KEY env.

Definition auth (env : env_var) (req : Http.request) : verdict :=
  let apiKeyHeader := header req "x-api-key" in
  let bearerHeader := header req "authorization" in
  let token : option string := None in
  let token :=
    match apiKeyHeader with
    | Some h => if String.eqb h "" then token else Some h
    | None => token
    end in
  let token :=
    match bearerHeader with
    | Some h =>
        if negb (String.eqb h "") && JS.startsWith h "Bearer "
        then Some (JS.trim (JS.replace_first h "Bearer "))
        else token
    | None => token
    end in
  match token with
  | Some t =>
      if String.eqb (API_KEY env) "" || String.eqb t "" || negb (String.eqb t (API_KEY env))
      then answer (Http.fail 401 "Unauthorized")
      else next
  | None => answer (Http.fail 401 "Unauthorized")
  end.

(** [POST /api/sales]; the third column of [sales] is called [amount] in this
    version. *)
Definition post_api_sales (req : Http.request) : prog Http.response :=
  PG.try_catch
    (let agentId := Http.body req "agentId" in
     let customerId := Http.body req "customerId" in
     let amount := Http.body req "amount" in
     let note := Http.body req "note" in
     let aId := JS.Number agentId in
     let cId := if JS.nullish customerId then JS.Null else JS.Num (JS.Number customerId) in
     let amt := JS.Number amount in
     if negb (JS.isFinite aId) then
       PG.Ret (Http.fail 400 "agentId is required")
     else if negb (JS.isFinite amt) || PrimFloat.leb amt PrimFloat.zero then
       PG.Ret (Http.fail 400 "amount must be > 0")
     else
       _ <- BEGIN ;;
       agentRes <- select_agent_for_update (PG.param (JS.Num aId)) ;;
       match agentRes with
       | [] =>
           _ <- ROLLBACK ;;
           PG.Ret (Http.fail 404 "agent not found")
       | a :: _ =>
           let commissionPercent :=
             JS.or_zero (Part003.Number_of_column (Agents.commission_percent a)) in
           let commissionAmount :=
             PrimFloat.div (PrimFloat.mul amt commissionPercent) 100%float in
           saleRes <- insert_sale
                        (PG.param (JS.Num aId))
                        (PG.param (if JS.Number_isFinite cId then cId else JS.Null))
                        (PG.param (JS.Num amt))
                        (PG.param (JS.Num commissionPercent))
                        (PG.param (JS.Num commissionAmount))
                        (PG.param (JS.or note JS.Null)) ;;
           _ <- update_balance_plus (PG.param (JS.Num commissionAmount))
                                    (PG.param (JS.Num aId)) ;;
           _ <- COMMIT ;;
           PG.Ret (Http.reply (Http.sale_json saleRes commissionPercent commissionAmount))
       end)
    (fun err =>
       PG.await_ignoring ROLLBACK
         (PG.Ret (Http.fail 500 "Server error"))).

End Part001.

(** ** [src/unnamed/part_000]: the key read from the environment at each request *)

Module Part000.

Local Open Scope string_scope.

Definition auth (env : env_var) (req : Http.request) : verdict :=
  let apiKeyHeader := header req "x-api-key" in
  let bearerHeader := header req "authorization" in
  let token : option string := None in
  (* Case 1: x-api-key *)
  let token :=
    match apiKeyHeader with
    | Some h => if String.eqb h "" then token else Some (JS.trim h)
    | None => token
    end in
  (* Case 2: Authorization: Bearer xxx *)
  let token :=
    match bearerHeader with
    | Some h =>
        if negb (String.eqb h "") && JS.startsWith h "Bearer "
        then Some (JS.trim (JS.substring_from 7 h))
        else token
    | None => token
    end in
  let realKey :=
    match env with
    | Some k => if String.eqb k "" then "" else JS.trim k
    | None => ""
    end in
  if String.eqb realKey "" then
    answer (Http.fail 500 "Server misconfigured")
  else
    match token with
    | Some t =>
        if String.eqb t "" || negb (String.eqb t realKey)
        then answer (Http.fail 401 "Unauthorized")
        else next
    | None => answer (Http.fail 401 "Unauthorized")
    end.

End Part000.

(** ** [src/index.js], first version: the [x-api-key] header alone *)

Module Index1.

Local Open Scope string_scope.

(** [const API_KEY = process.env.API_KEY] *)
Definition API_KEY (env : env_var) : option string := env.

(** [a !== b] on values that are a string or [undefined]. *)
Definition strict_neq (a b : option string) : bool :=
  match a, b with
  | Some x, Some y => negb (String.eqb x y)
  | None, None => false
  | _, _ => true
  end.

Definition auth (env : env_var) (req : Http.request) : verdict :=
  if strict_neq (header req "x-api-key") (API_KEY env)
  then answer (Http.fail 401 "Unauthorized")
  else next.

End Index1.

(** ** [src/index.js], second version: the balance derived from the ledger

    The tables are those of [initDb]; every statement goes through
    [pool.query] and takes effect at once. *)

Module Index2.

Local Open Scope string_scope.
Local Open Scope Z_scope.

Module Agents.
Record row := {
  id : Z;                          (* SERIAL PRIMARY KEY *)
  name : string;                   (* TEXT NOT NULL *)
  phone : string;                  (* TEXT NOT NULL *)
  commission_percent : option Z;   (* INT DEFAULT 0 *)
  created_at : Z                   (* TIMESTAMP DEFAULT NOW() *)
}.
End Agents.

Module Customers.
Record row := {
  id : Z;
  customer_name : string;
  phone : option string;
  product_id : string;
  license_key : string;
  machine_id : option string;
  popup_message : option string;
  agent_id : option Z;
  expire_at : option string;
  issued_at : Z
}.
End Customers.

Module Sales.
Record row := {
  id : Z;                          (* SERIAL PRIMARY KEY *)
  customer_id : option Z;          (* INT REFERENCES customers(id) ON DELETE SET NULL *)
  agent_id : option Z;             (* INT REFERENCES agents(id) ON DELETE SET NULL *)
  sale_price : Q;                  (* NUMERIC NOT NULL *)
  commission_percent : Z;          (* INT NOT NULL *)
  commission_amount : Q;           (* NUMERIC NOT NULL *)
  created_at : Z
}.
End Sales.

Module Payouts.
Record row := {
  id : Z;                          (* SERIAL PRIMARY KEY *)
  agent_id : option Z;             (* INT REFERENCES agents(id) ON DELETE CASCADE *)
  amount : Q;                      (* NUMERIC NOT NULL *)
  note : option string;            (* TEXT *)
  created_at : Z
}.
End Payouts.

Record store := {
  agents : list Agents.row;
  customers : list Customers.row;
  sales : list Sales.row;
  payouts : list Payouts.row;
  agents_id_seq : Z;
  sales_id_seq : Z;
  payouts_id_seq : Z
}.

Record conn := {
  db : store;
  now : Z
}.

Definition connect (s : store) (t : Z) : conn := {| db := s; now := t |}.

(** A row of [agentTotals]. *)
Record totals := {
  id : Z;
  name : string;
  phone : string;
  commission_percent : option Z;
  earned : Q;
  paid : Q;
  balance : Q
}.

Definition is_agent (n : Z) (k : option Z) : bool :=
  match k with
  | Some m => m =? n
  | None => false
  end.

Definition sales_of (s : store) (n : Z) : list Sales.row :=
  filter (fun r => is_agent n (Sales.agent_id r)) (sales s).

Definition payouts_of (s : store) (n : Z) : list Payouts.row :=
  filter (fun r => is_agent n (Payouts.agent_id r)) (payouts s).

(** [COALESCE(se.earned, 0)], [COALESCE(pa.paid, 0)] and their difference,
    for one row of [agents]. *)
Definition totals_of (s : store) (a : Agents.row) : totals :=
  let e := Schema.Qsum (map Sales.commission_amount (sales_of s (Agents.id a))) in
  let p := Schema.Qsum (map Payouts.amount (payouts_of s (Agents.id a))) in
  {| id := Agents.id a;
     name := Agents.name a;
     phone := Agents.phone a;
     commission_percent := Agents.commission_percent a;
     earned := e;
     paid := p;
     balance := Qminus e p |}.

(** [ORDER BY a.created_at ASC, a.id ASC] *)
Definition before (a b : Agents.row) : bool :=
  (Agents.created_at a <? Agents.created_at b)
  || ((Agents.created_at a =? Agents.created_at b) && (Agents.id a <=? Agents.id b)).

Fixpoint insert_asc (x : Agents.row) (l : list Agents.row) : list Agents.row :=
  match l with
  | [] => [x]
  | y :: r => if before x y then x :: l else y :: insert_asc x r
  end.

Definition order_asc (l : list Agents.row) : list Agents.row :=
  fold_right insert_asc [] l.

Definition has_agent (s : store) (n : Z) : bool :=
  existsb (fun a => Agents.id a =? n) (agents s).

Definition has_customer (s : store) (n : Z) : bool :=
  existsb (fun c => Customers.id c =? n) (customers s).

Definition customer_of (s : store) (cid : option Z) : option (string * string) :=
  match cid with
  | None => None
  | Some n =>
      match filter (fun c => Customers.id c =? n) (customers s) with
      | c :: _ => Some (Customers.customer_name c, Customers.product_id c)
      | [] => None
      end
  end.

Inductive stmt : Type -> Type :=
(* the query of agentTotals, with [WHERE a.id=$1] when [id] is given *)
| select_totals (id : option (option string)) : stmt (list totals)
(* INSERT INTO agents(name, phone, commission_percent) VALUES($1,$2,$3) RETURNING id *)
| insert_agent (name phone commission_percent : option string) : stmt Z
(* SELECT * FROM agents WHERE id=$1 *)
| select_agent (id : option string) : stmt (list Agents.row)
(* UPDATE agents SET name=$1, phone=$2, commission_percent=$3 WHERE id=$4 *)
| update_agent (name phone commission_percent id : option string) : stmt unit
(* INSERT INTO payouts(agent_id, amount, note) VALUES($1,$2,$3) RETURNING id *)
| insert_payout (agent_id amount note : option string) : stmt Z
(* INSERT INTO sales(customer_id, agent_id, sale_price, commission_percent,
   commission_amount) VALUES($1,$2,$3,$4,$5) RETURNING id *)
| insert_sale (customer_id agent_id sale_price commission_percent
               commission_amount : option string) : stmt Z
(* SELECT s.*, c.customer_name, c.product_id FROM sales s LEFT JOIN customers c
   ON c.id = s.customer_id WHERE s.agent_id=$1 ORDER BY s.created_at DESC LIMIT 500 *)
| select_sales_history (agent_id : option string)
    : stmt (list (Sales.row * option (string * string)))
(* SELECT * FROM payouts WHERE agent_id=$1 ORDER BY created_at DESC LIMIT 500 *)
| select_payouts_history (agent_id : option string) : stmt (list Payouts.row).

Definition by_key {A : Type} (p : option string) (rows : Z -> list A) (c : conn)
  : PG.result (list A) * conn :=
  match Schema.bind PG.int4_in p with
  | PG.Err e => (PG.Err e, c)
  | PG.Ok None => (PG.Ok [], c)
  | PG.Ok (Some n) => (PG.Ok (rows n), c)
  end.

Definition with_db (c : conn) (s : store) : conn := {| db := s; now := now c |}.

(** The key is the next value of the sequence, which is consumed whether the
    row is stored or not; [PRIMARY KEY] refuses a key the table holds. *)
Definition exec_insert_agent (name phone commission_percent : option string) (c : conn)
  : PG.result Z * conn :=
  match Schema.bind PG.int4_in commission_percent with
  | PG.Err e => (PG.Err e, c)
  | PG.Ok pct =>
      let s := db c in
      let n := agents_id_seq s + 1 in
      let bumped :=
        {| agents := agents s; customers := customers s; sales := sales s;
           payouts := payouts s; agents_id_seq := n;
           sales_id_seq := sales_id_seq s; payouts_id_seq := payouts_id_seq s |} in
      match name, phone with
      | Some nm, Some ph =>
          if has_agent s n then (PG.Err PG.unique_violation, with_db c bumped)
          else
            (PG.Ok n,
             with_db c
               {| agents := agents s ++
                    [{| Agents.id := n; Agents.name := nm; Agents.phone := ph;
                        Agents.commission_percent := pct; Agents.created_at := now c |}];
                  customers := customers s; sales := sales s; payouts := payouts s;
                  agents_id_seq := n; sales_id_seq := sales_id_seq s;
                  payouts_id_seq := payouts_id_seq s |})
      | _, _ => (PG.Err PG.not_null_violation, with_db c bumped)
      end
  end.

Definition exec_update_agent (name phone commission_percent id : option string) (c : conn)
  : PG.result unit * conn :=
  match Schema.bind PG.int4_in commission_percent, Schema.bind PG.int4_in id with
  | PG.Ok pct, PG.Ok (Some n) =>
      let s := db c in
      if has_agent s n then
        match name, phone with
        | Some nm, Some ph =>
            (PG.Ok tt,
             with_db c
               {| agents :=
                    map (fun a =>
                           if Agents.id a =? n then
                             {| Agents.id := Agents.id a; Agents.name := nm;
                                Agents.phone := ph; Agents.commission_percent := pct;
                                Agents.created_at := Agents.created_at a |}
                           else a) (agents s);
                  customers := customers s; sales := sales s; payouts := payouts s;
                  agents_id_seq := agents_id_seq s; sales_id_seq := sales_id_seq s;
                  payouts_id_seq := payouts_id_seq s |})
        | _, _ => (PG.Err PG.not_null_violation, c)
        end
      else (PG.Ok tt, c)
  | PG.Ok _, PG.Ok None => (PG.Ok tt, c)
  | _, _ => (PG.Err PG.invalid_text_representation, c)
  end.

(** The keys of [payouts] and [sales] are the next values of their
    sequences.  These two statements are modelled for stores whose sequences
    are not behind the keys of their tables, which is how the calls leave
    them; on a store restored otherwise PostgreSQL refuses a key that is
    taken. *)
Definition exec_insert_payout (agent_id amount note : option string) (c : conn)
  : PG.result Z * conn :=
  match Schema.bind PG.int4_in agent_id, Schema.bind PG.numeric_in amount with
  | PG.Ok a, PG.Ok am =>
      let s := db c in
      let n := payouts_id_seq s + 1 in
      let bumped :=
        {| agents := agents s; customers := customers s; sales := sales s;
           payouts := payouts s; agents_id_seq := agents_id_seq s;
           sales_id_seq := sales_id_seq s; payouts_id_seq := n |} in
      match am with
      | Some am' =>
          if match a with Some k => has_agent s k | None => true end then
            (PG.Ok n,
             with_db c
               {| agents := agents s; customers := customers s; sales := sales s;
                  payouts := payouts s ++
                    [{| Payouts.id := n; Payouts.agent_id := a; Payouts.amount := am';
                        Payouts.note := note; Payouts.created_at := now c |}];
                  agents_id_seq := agents_id_seq s; sales_id_seq := sales_id_seq s;
                  payouts_id_seq := n |})
          else (PG.Err PG.foreign_key_violation, with_db c bumped)
      | None => (PG.Err PG.not_null_violation, with_db c bumped)
      end
  | _, _ => (PG.Err PG.invalid_text_representation, c)
  end.

Definition exec_insert_sale (customer_id agent_id sale_price commission_percent
                             commission_amount : option string) (c : conn)
  : PG.result Z * conn :=
  match Schema.bind PG.int4_in customer_id, Schema.bind PG.int4_in agent_id,
        Schema.bind PG.numeric_in sale_price, Schema.bind PG.int4_in commission_percent,
        Schema.bind PG.numeric_in commission_amount with
  | PG.Ok cu, PG.Ok a, PG.Ok sp, PG.Ok cp, PG.Ok ca =>
      let s := db c in
      let n := sales_id_seq s + 1 in
      let bumped :=
        {| agents := agents s; customers := customers s; sales := sales s;
           payouts := payouts s; agents_id_seq := agents_id_seq s;
           sales_id_seq := n; payouts_id_seq := payouts_id_seq s |} in
      match sp, cp, ca with
      | Some sp', Some cp', Some ca' =>
          if match a with Some k => has_agent s k | None => true end
             && match cu with Some k => has_customer s k | None => true end
          then
            (PG.Ok n,
             with_db c
               {| agents := agents s; customers := customers s;
                  sales := sales s ++
                    [{| Sales.id := n; Sales.customer_id := cu; Sales.agent_id := a;
                        Sales.sale_price := sp'; Sales.commission_percent := cp';
                        Sales.commission_amount := ca'; Sales.created_at := now c |}];
                  payouts := payouts s;
                  agents_id_seq := agents_id_seq s; sales_id_seq := n;
                  payouts_id_seq := payouts_id_seq s |})
          else (PG.Err PG.foreign_key_violation, with_db c bumped)
      | _, _, _ => (PG.Err PG.not_null_violation, with_db c bumped)
      end
  | _, _, _, _, _ => (PG.Err PG.invalid_text_representation, c)
  end.

Definition exec (R : Type) (q : stmt R) (c : conn) : PG.result R * conn :=
  match q in stmt R0 return PG.result R0 * conn with
  | select_totals None =>
      (PG.Ok (map (totals_of (db c)) (order_asc (agents (db c)))), c)
  | select_totals (Some id) =>
      by_key id (fun n => map (totals_of (db c))
                            (order_asc (filter (fun a => Agents.id a =? n) (agents (db c))))) c
  | insert_agent name phone pct => exec_insert_agent name phone pct c
  | select_agent id =>
      by_key id (fun n => filter (fun a => Agents.id a =? n) (agents (db c))) c
  | update_agent name phone pct id => exec_update_agent name phone pct id c
  | insert_payout a am note => exec_insert_payout a am note c
  | insert_sale cu a sp cp ca => exec_insert_sale cu a sp cp ca c
  | select_sales_history a =>
      by_key a (fun n =>
                  map (fun r => (r, customer_of (db c) (Sales.customer_id r)))
                      (firstn 500 (Schema.order_desc Sales.created_at (sales_of (db c) n)))) c
  | select_payouts_history a =>
      by_key a (fun n => firstn 500 (Schema.order_desc Payouts.created_at
                                       (payouts_of (db c) n))) c
  end.

Definition prog := PG.prog stmt.

Definition serve {A : Type} (p : prog A) (t : Z) (s : store) : option A * store :=
  match PG.run exec p (connect s t) with
  | (PG.Ok a, c) => (Some a, db c)
  | (PG.Err _, c) => (None, db c)
  end.

(** [async function agentTotals(agentId = null)] *)
Definition agentTotals (agentId : JS.value) : prog (list totals) :=
  let agentId := match agentId with JS.Undefined => JS.Null | v => v end in
  rows <- select_totals (if JS.truthy agentId then Some (PG.param agentId) else None) ;;
  PG.Ret rows.

Inductive rows_response :=
| rows_fail (r : Http.response)
| rows_ok (rows : list totals).

(** [GET /api/agents] *)
Definition get_api_agents (req : Http.request) : prog rows_response :=
  PG.try_catch
    (rows <-- agentTotals JS.Undefined ;;
     PG.Ret (rows_ok rows))
    (fun err => PG.Ret (rows_fail (Http.fail 500 "Server error"))).

(** A nullable [INT] column as the driver delivers it: a number or [null]. *)
Definition int_column (col : option Z) : JS.value :=
  match col with
  | Some n => JS.Num (PG.number_of_int4 n)
  | None => JS.Null
  end.

(** [Number(col || 0)] for a nullable [INT] column. *)
Definition Number_of_int_column (col : option Z) : float :=
  JS.Number (JS.or (int_column col) (JS.Num PrimFloat.zero)).

(** [POST /api/agents] *)
Definition post_api_agents (req : Http.request) : prog Http.response :=
  PG.try_catch
    (let name := Http.body req "name" in
     let phone := Http.body req "phone" in
     let commissionPercent := Http.body req "commissionPercent" in
     if negb (JS.truthy name) then PG.Ret (Http.fail 400 "name required")
     else if negb (JS.truthy phone) then PG.Ret (Http.fail 400 "phone required")
     else
       let pct := JS.Number (JS.or commissionPercent (JS.Num PrimFloat.zero)) in
       if is_nan pct || PrimFloat.ltb pct PrimFloat.zero || PrimFloat.ltb 100%float pct then
         PG.Ret (Http.fail 400 "commissionPercent must be 0-100")
       else
         id <- insert_agent (PG.param name) (PG.param phone) (PG.param (JS.Num pct)) ;;
         PG.Ret (Http.reply (Http.id_json id)))
    (fun err => PG.Ret (Http.fail 500 "Server error")).

(** [PUT /api/agents/:id] *)
Definition put_api_agents_id (req : Http.request) : prog Http.response :=
  PG.try_catch
    (let id := JS.Number (Http.params req "id") in
     let name := Http.body req "name" in
     let phone := Http.body req "phone" in
     let commissionPercent := Http.body req "commissionPercent" in
     if negb (JS.truthy (JS.Num id)) then PG.Ret (Http.fail 400 "invalid id")
     else
       let pct :=
         match commissionPercent with
         | JS.Undefined => JS.Null
         | v => JS.Num (JS.Number v)
         end in
       if match pct with
          | JS.Num p => is_nan p || PrimFloat.ltb p PrimFloat.zero || PrimFloat.ltb 100%float p
          | _ => false
          end
       then PG.Ret (Http.fail 400 "commissionPercent must be 0-100")
       else
         cur <- select_agent (PG.param (JS.Num id)) ;;
         match cur with
         | [] => PG.Ret (Http.fail 404 "agent not found")
         | row :: _ =>
             let nextName :=
               match name with
               | JS.Undefined => JS.Str (Agents.name row)
               | v => v
               end in
             let nextPhone :=
               match phone with
               | JS.Undefined => JS.Str (Agents.phone row)
               | v => v
               end in
             let nextPct :=
               match pct with
               | JS.Null => int_column (Agents.commission_percent row)
               | v => v
               end in
             _ <- update_agent (PG.param nextName) (PG.param nextPhone) (PG.param nextPct)
                               (PG.param (JS.Num id)) ;;
             PG.Ret (Http.reply Http.ok_json)
         end)
    (fun err => PG.Ret (Http.fail 500 "Server error")).

(** [POST /api/agents/:id/payouts] *)
Definition post_api_agents_id_payouts (req : Http.request) : prog Http.response :=
  PG.try_catch
    (let agentId := JS.Number (Http.params req "id") in
     let amount := JS.Number (Http.body req "amount") in
     let note := JS.String_ (JS.or (Http.body req "note") (JS.Str "")) in
     if negb (JS.truthy (JS.Num agentId)) then PG.Ret (Http.fail 400 "invalid agentId")
     else if negb (JS.truthy (JS.Num amount)) || PrimFloat.leb amount PrimFloat.zero then
       PG.Ret (Http.fail 400 "amount must be > 0")
     else
       totals <-- agentTotals (JS.Num agentId) ;;
       match totals with
       | [] => PG.Ret (Http.fail 404 "agent not found")
       | t :: _ =>
           let balance := PG.number_of_numeric (balance t) in
           if PrimFloat.ltb balance amount then
             PG.Ret (Http.fail 400 "amount exceeds balance")
           else
             id <- insert_payout (PG.param (JS.Num agentId))
                                 (PG.param (JS.Num amount))
                                 (Some note) ;;
             PG.Ret (Http.reply (Http.id_json id))
       end)
    (fun err => PG.Ret (Http.fail 500 "Server error")).

(** The document of [GET /api/agents/:id/history]. *)
Record history := {
  agent : Agents.row;
  history_totals : option totals;
  history_sales : list (Sales.row * option (string * string));
  history_payouts : list Payouts.row
}.

Inductive history_response :=
| history_fail (r : Http.response)
| history_ok (h : history).

(** [GET /api/agents/:id/history] *)
Definition get_api_agents_id_history (req : Http.request) : prog history_response :=
  PG.try_catch
    (let agentId := JS.Number (Http.params req "id") in
     if negb (JS.truthy (JS.Num agentId)) then
       PG.Ret (history_fail (Http.fail 400 "invalid agentId"))
     else
       agent <- select_agent (PG.param (JS.Num agentId)) ;;
       match agent with
       | [] => PG.Ret (history_fail (Http.fail 404 "agent not found"))
       | a :: _ =>
           sales <- select_sales_history (PG.param (JS.Num agentId)) ;;
           payouts <- select_payouts_history (PG.param (JS.Num agentId)) ;;
           totals <-- agentTotals (JS.Num agentId) ;;
           PG.Ret (history_ok
                     {| agent := a;
                        history_totals := hd_error totals;
                        history_sales := sales;
                        history_payouts := payouts |})
       end)
    (fun err => PG.Ret (history_fail (Http.fail 500 "Server error"))).

(** [POST /api/sales]: compute the commission from the agent's rate. *)
Definition post_api_sales (req : Http.request) : prog Http.response :=
  PG.try_catch
    (let customerId := JS.Number (Http.body req "customerId") in
     let agentId := JS.Number (Http.body req "agentId") in
     let salePrice := JS.Number (Http.body req "salePrice") in
     if negb (JS.truthy (JS.Num customerId)) then PG.Ret (Http.fail 400 "customerId required")
     else if negb (JS.truthy (JS.Num agentId)) then PG.Ret (Http.fail 400 "agentId required")
     else if negb (JS.truthy (JS.Num salePrice)) || PrimFloat.leb salePrice PrimFloat.zero then
       PG.Ret (Http.fail 400 "salePrice must be > 0")
     else
       agent <- select_agent (PG.param (JS.Num agentId)) ;;
       match agent with
       | [] => PG.Ret (Http.fail 404 "agent not found")
       | a :: _ =>
           let pct := Number_of_int_column (Agents.commission_percent a) in
           let commissionAmount :=
             PrimFloat.div (PrimFloat.mul salePrice pct) 100%float in
           id <- insert_sale (PG.param (JS.Num customerId))
                             (PG.param (JS.Num agentId))
                             (PG.param (JS.Num salePrice))
                             (PG.param (JS.Num pct))
                             (PG.param (JS.Num commissionAmount)) ;;
           PG.Ret (Http.reply (Http.sale_json id pct commissionAmount))
       end)
    (fun err => PG.Ret (Http.fail 500 "Server error")).

End Index2.

(* ================================================================== *)
(** * Requests in flight *)
(* ================================================================== *)

(** The service answers several requests at once: each handler is suspended
    at an [await] and the pool connections carry their statements to the
    server one at a time, in any order.  [tick i] lets request [i] perform
    the statement it is waiting on. *)

Fixpoint replace_nth {A : Type} (i : nat) (x : A) (l : list A) : list A :=
  match l, i with
  | [], _ => []
  | _ :: r, O => x :: r
  | y :: r, S j => y :: replace_nth j x r
  end.

(** ** Over [schema.sql]: transactions and row locks

    [SELECT .. FOR UPDATE] and [UPDATE] lock the rows of [agents] they select
    until the transaction ends; a statement that needs a row locked by
    another transaction waits. *)

Module Sessions.

Import Schema.
Local Open Scope Z_scope.

Record session := {
  program : prog Http.response;      (* what is left of the handler *)
  changes : option (list write);     (* the row changes of its open transaction *)
  clock : Z                          (* the time of the request *)
}.

Record world := {
  store_of : store;
  sessions : list session;
  locks : list (Z * nat)             (* agents.id, the session holding its row *)
}.

Definition key_rows (id : option string) (v : store) : list Z :=
  match bind PG.int4_in id with
  | PG.Ok (Some n) => if has_agent v n then [n] else []
  | _ => []
  end.

(** The rows of [agents] a statement locks. *)
Definition locked_rows (R : Type) (q : stmt R) (v : store) : list Z :=
  match q with
  | select_agent_for_update id => key_rows id v
  | update_balance_plus _ id => key_rows id v
  | update_balance_minus _ id => key_rows id v
  | _ => []
  end.

Definition held_by_other (i : nat) (l : list (Z * nat)) (n : Z) : bool :=
  existsb (fun e => (fst e =? n) && negb (Nat.eqb (snd e) i)) l.

Definition connection (w : world) (ss : session) : conn :=
  {| shared := store_of w; pending := changes ss; now := clock ss |}.

Definition tick (i : nat) (w : world) : world :=
  match nth_error (sessions w) i with
  | Some ss =>
      match program ss with
      | PG.Do q k =>
          let c := connection w ss in
          let rows := locked_rows _ q (view c) in
          if existsb (held_by_other i (locks w)) rows then w
          else
            let '(r, c') := exec _ q c in
            {| store_of := shared c';
               sessions :=
                 replace_nth i {| program := k r; changes := pending c'; clock := clock ss |}
                             (sessions w);
               locks :=
                 match pending c' with
                 | Some _ => map (fun n => (n, i)) rows ++ locks w
                 | None => filter (fun e => negb (Nat.eqb (snd e) i)) (locks w)
                 end |}
      | _ => w
      end
  | None => w
  end.

Definition schedule (order : list nat) (w : world) : world :=
  fold_left (fun w i => tick i w) order w.

Definition start (s : store) (l : list (prog Http.response * Z)) : world :=
  {| store_of := s;
     sessions := map (fun p => {| program := fst p; changes := None; clock := snd p |}) l;
     locks := [] |}.

Definition answered (ss : session) : option Http.response :=
  match program ss with
  | PG.Ret r => Some r
  | _ => None
  end.

Definition finished (w : world) : bool :=
  forallb (fun ss => match answered ss with Some _ => true | None => false end) (sessions w).

(** The requests served one after the other, in the given order. *)
Definition one_by_one (l : list (prog Http.response * Z)) (order : list nat) (s : store)
  : store :=
  fold_left (fun s i =>
               match nth_error l i with
               | Some p => snd (serve (fst p) (snd p) s)
               | None => s
               end) order s.

End Sessions.

(** ** Over the tables of [initDb]: every statement on its own *)

Module Pool2.

Import Index2.

Record session := {
  program : prog Http.response;
  clock : Z
}.

Record world := {
  store_of : store;
  sessions : list session
}.

Definition tick (i : nat) (w : world) : world :=
  match nth_error (sessions w) i with
  | Some ss =>
      match program ss with
      | PG.Do q k =>
          let '(r, c') := exec _ q (connect (store_of w) (clock ss)) in
          {| store_of := db c';
             sessions := replace_nth i {| program := k r; clock := clock ss |} (sessions w) |}
      | _ => w
      end
  | None => w
  end.

Definition schedule (order : list nat) (w : world) : world :=
  fold_left (fun w i => tick i w) order w.

Definition start (s : store) (l : list (prog Http.response * Z)) : world :=
  {| store_of := s;
     sessions := map (fun p => {| program := fst p; clock := snd p |}) l |}.

Definition answered (ss : session) : option Http.response :=
  match program ss with
  | PG.Ret r => Some r
  | _ => None
  end.

End Pool2.

(* ================================================================== *)
(** * The ledger invariant and the calls it is stated over *)
(* ================================================================== *)

Module Ledger.

Import Schema.

(** The sum of [commission_amount] over the sale rows of an agent. *)
Definition earned (s : store) (n : Z) : Q :=
  Qsum (map Sales.commission_amount (sales_of s n)).

(** The sum of [amount] over the payout rows of an agent. *)
Definition paid (s : store) (n : Z) : Q :=
  Qsum (map Payouts.amount (payouts_of s n)).

Definition balanced_row (s : store) (a : Agents.row) : bool :=
  match Agents.balance a with
  | Some b => Qeq_bool b (Qminus (earned s (Agents.id a)) (paid s (Agents.id a)))
  | None => false
  end.

(** Every agent's stored balance is what its ledger rows add up to. *)
Definition balanced (s : store) : bool := forallb (balanced_row s) (agents s).

(** A completed RecordSale or RecordPayout operation of [part_003]. *)
Inductive call :=
| RecordSale (req : Http.request) (t : Z)
| RecordPayout (req : Http.request) (t : Z).

Definition answer_of (s : store) (c : call) : option Http.response * store :=
  match c with
  | RecordSale req t => serve (Part003.post_api_sales req) t s
  | RecordPayout req t => serve (Part003.post_api_payouts req) t s
  end.

Definition perform (s : store) (c : call) : store := snd (answer_of s c).

(** The store after a sale row has been recorded and its commission credited. *)
Definition credited (s : store) (r : Sales.row) : store :=
  {| agents := map (bump (Some (Sales.commission_amount r)) (Sales.agent_id r)) (agents s);
     customers := customers s;
     sales := sales s ++ [r];
     payouts := payouts s;
     agents_id_seq := agents_id_seq s;
     sales_id_seq := Sales.id r;
     payouts_id_seq := payouts_id_seq s |}.

(** The store after a payout row has been recorded and its amount debited. *)
Definition debited (s : store) (r : Payouts.row) : store :=
  {| agents := map (bump (Some (Qopp (Payouts.amount r))) (Payouts.agent_id r)) (agents s);
     customers := customers s;
     sales := sales s;
     payouts := payouts s ++ [r];
     agents_id_seq := agents_id_seq s;
     sales_id_seq := sales_id_seq s;
     payouts_id_seq := Payouts.id r |}.

(** The same rows in every table (a sequence may have moved on). *)
Definition same_rows (s s' : store) : Prop :=
  agents s' = agents s /\ customers s' = customers s
  /\ sales s' = sales s /\ payouts s' = payouts s.

Definition after (s : store) (cs : list call) : store := fold_left perform cs s.

End Ledger.

Arguments JS.toString : simpl never.
Arguments JS.float_of_Q : simpl never.
Arguments JS.StringToNumber : simpl never.
Arguments JS.Number : simpl never.
Arguments JS.or_zero : simpl never.
Arguments JS.trim : simpl never.
Arguments JS.replace_first : simpl never.
Arguments JS.startsWith : simpl never.
Arguments JS.substring_from : simpl never.
Arguments PG.numeric_in : simpl never.
Arguments PG.int4_in : simpl never.
Arguments PG.number_of_numeric : simpl never.
Arguments PG.number_of_int4 : simpl never.
Arguments Schema.order_desc : simpl never.
Arguments firstn : simpl never.
Arguments Ledger.earned : simpl never.
Arguments Ledger.paid : simpl never.

(* ================================================================== *)
(** * Concrete stores and requests used to exercise the statements *)
(* ================================================================== *)

Module Fixtures.

Local Open Scope string_scope.
Local Open Scope Z_scope.

(** A request with the given JSON body. *)
Definition post (b : list (string * JS.value)) : Http.request :=
  {| Http.headers := Http.obj []; Http.params := Http.obj []; Http.body := Http.obj b |}.

(** A request on [/:id] with the given JSON body. *)
Definition on_id (id : string) (b : list (string * JS.value)) : Http.request :=
  {| Http.headers := Http.obj [];
     Http.params := Http.obj [("id", JS.Str id)];
     Http.body := Http.obj b |}.

(** A request with the given headers. *)
Definition with_headers (h : list (string * JS.value)) : Http.request :=
  {| Http.headers := Http.obj h; Http.params := Http.obj []; Http.body := Http.obj [] |}.

(** [schema.sql] just created. *)
Definition empty : Schema.store :=
  {| Schema.agents := []; Schema.customers := []; Schema.sales := [];
     Schema.payouts := []; Schema.agents_id_seq := 0; Schema.sales_id_seq := 0;
     Schema.payouts_id_seq := 0 |}.

(** One agent, "A", at 10 percent, created through [POST /api/agents]. *)
Definition agent_A : Schema.store :=
  Eval vm_compute in
    snd (Schema.serve
           (Part003.post_api_agents
              (post [("name", JS.Str "A"); ("commissionPercent", JS.Num 10%float)]))
           1 empty).

Definition sale_of (price : float) : Http.request :=
  post [("agentId", JS.Num 1%float); ("salePrice", JS.Num price)].

Definition payout_of (amount : float) : Http.request :=
  post [("agentId", JS.Num 1%float); ("amount", JS.Num amount)].

(** The scenario of the specification: a sale of 200, a payout of 25, a
    payout of 20. *)
Definition scenario : list Ledger.call :=
  [Ledger.RecordSale (sale_of 200%float) 2;
   Ledger.RecordPayout (payout_of 25%float) 3;
   Ledger.RecordPayout (payout_of 20%float) 4].

(** The tables of [initDb] with one customer and one agent at 10 percent. *)
Definition shop : Index2.store :=
  {| Index2.agents :=
       [{| Index2.Agents.id := 1; Index2.Agents.name := "A";
           Index2.Agents.phone := "0888885588";
           Index2.Agents.commission_percent := Some 10;
           Index2.Agents.created_at := 1 |}];
     Index2.customers :=
       [{| Index2.Customers.id := 1; Index2.Customers.customer_name := "C";
           Index2.Customers.phone := None; Index2.Customers.product_id := "P";
           Index2.Customers.license_key := "K"; Index2.Customers.machine_id := None;
           Index2.Customers.popup_message := None; Index2.Customers.agent_id := None;
           Index2.Customers.expire_at := None; Index2.Customers.issued_at := 0 |}];
     Index2.sales := []; Index2.payouts := [];
     Index2.agents_id_seq := 1; Index2.sales_id_seq := 0; Index2.payouts_id_seq := 0 |}.

(** Two sales, of 19.99 and of 10000000, for agent "A" at 10 percent. *)
Definition two_sales : list Ledger.call :=
  [Ledger.RecordSale (sale_of 19.99%float) 2;
   Ledger.RecordSale (sale_of 10000000%float) 3].

Definition shop_sale_of (price : float) : Http.request :=
  post [("agentId", JS.Num 1%float); ("customerId", JS.Num 1%float);
        ("salePrice", JS.Num price)].

(** The same two sales through [index.js]. *)
Definition shop_after_two_sales : Index2.store :=
  snd (Index2.serve (Index2.post_api_sales (shop_sale_of 10000000%float)) 3
         (snd (Index2.serve (Index2.post_api_sales (shop_sale_of 19.99%float)) 2 shop))).

(** [index.js] after one sale of 200 for agent "A": 20 earned, nothing paid. *)
Definition shop_after_sale : Index2.store :=
  snd (Index2.serve (Index2.post_api_sales (shop_sale_of 200%float)) 2 shop).

Definition shop_payout_of (amount : float) : Http.request :=
  on_id "1" [("amount", JS.Num amount)].

(** Two requests to [POST /api/agents/1/payouts], each for the whole balance. *)
Definition two_payouts : list (Index2.prog Http.response * Z) :=
  [(Index2.post_api_agents_id_payouts (shop_payout_of 20%float), 3);
   (Index2.post_api_agents_id_payouts (shop_payout_of 20%float), 4)].

(** A sale, a payout and a sale for agent "A", to be served at the same time. *)
Definition three_calls : list Ledger.call :=
  [Ledger.RecordSale (sale_of 200%float) 2;
   Ledger.RecordPayout (payout_of 20%float) 3;
   Ledger.RecordSale (sale_of 200%float) 4].

(** The same sale of 200 for agent "A", three times at once. *)
Definition three_sales : list Ledger.call :=
  repeat (Ledger.RecordSale (sale_of 200%float) 2) 3.

(** The three connections taking turns, one statement each. *)
Definition round_robin : list nat := List.concat (repeat [0; 1; 2]%nat 15).

End Fixtures.

(* ================================================================== *)
(** * The locking discipline of the transactional handlers *)
(* ================================================================== *)

Module Discipline.

Import Schema.
Local Open Scope Z_scope.

(** The key parameter names the agent [a], or no row at all (NULL, or a text
    the server does not read). *)
Definition keyed (a : Z) (id : option string) : Prop :=
  match bind PG.int4_in id with
  | PG.Ok (Some n) => n = a
  | _ => True
  end.

(** The statements issued while the row of agent [a] is locked. *)
Inductive inside (a : Z) : forall R : Type, stmt R -> Prop :=
| inside_insert_sale ag cu sp cp ca nt :
    inside a _ (insert_sale ag cu sp cp ca nt)
| inside_insert_payout ag am nt :
    inside a _ (insert_payout ag am nt)
| inside_plus am id :
    keyed a id -> inside a _ (update_balance_plus am id)
| inside_minus am id :
    keyed a id -> inside a _ (update_balance_minus am id).

(** The handler ends its transaction and answers. *)
Inductive closing : prog Http.response -> Prop :=
| closing_commit k r :
    k (PG.Ok tt) = PG.Ret r -> closing (PG.Do COMMIT k)
| closing_rollback k r :
    k (PG.Ok tt) = PG.Ret r -> closing (PG.Do ROLLBACK k).

(** The handler is between its [SELECT .. FOR UPDATE] and the end of its
    transaction. *)
Inductive critical (a : Z) : prog Http.response -> Prop :=
| critical_closing p :
    closing p -> critical a p
| critical_inside R (q : stmt R) k :
    inside a R q -> (forall r, critical a (k r)) -> critical a (PG.Do q k).

(** The handler has begun and is about to lock the row of agent [a]. *)
Inductive waiting (a : Z) : prog Http.response -> Prop :=
| waiting_select id k :
    keyed a id ->
    (forall row rest, critical a (k (PG.Ok (row :: rest)))) ->
    closing (k (PG.Ok [])) ->
    (forall e, closing (k (PG.Err e))) ->
    waiting a (PG.Do (select_agent_for_update id) k).

(** A handler that answers at once, or opens a transaction whose first
    statement locks the row of agent [a]. *)
Inductive starting (a : Z) : prog Http.response -> Prop :=
| starting_answer r :
    starting a (PG.Ret r)
| starting_begin k :
    waiting a (k (PG.Ok tt)) -> starting a (PG.Do BEGIN k).

(** The request names agent [a] in its [agentId], or no agent at all. *)
Definition on_agent (a : Z) (req : Http.request) : Prop :=
  keyed a (PG.param (JS.Num (JS.Number (Http.body req "agentId"%string)))).

Definition request_of (c : Ledger.call) : Http.request :=
  match c with
  | Ledger.RecordSale req _ => req
  | Ledger.RecordPayout req _ => req
  end.

(** The handler of a call and the time of its request. *)
Definition handler (c : Ledger.call) : prog Http.response * Z :=
  match c with
  | Ledger.RecordSale req t => (Part003.post_api_sales req, t)
  | Ledger.RecordPayout req t => (Part003.post_api_payouts req, t)
  end.

(** The calls served at the same time, their statements reaching the server
    in the given order. *)
Definition interleaved (order : list nat) (s : store) (calls : list Ledger.call)
  : Sessions.world :=
  Sessions.schedule order (Sessions.start s (map handler calls)).

(** The answer call [i] has been given, if any. *)
Definition answer_at (w : Sessions.world) (i : nat) : option Http.response :=
  match nth_error (Sessions.sessions w) i with
  | Some ss => Sessions.answered ss
  | None => None
  end.

(** The calls at the given positions. *)
Definition pick (calls : list Ledger.call) (positions : list nat) : list Ledger.call :=
  flat_map (fun i => match nth_error calls i with Some c => [c] | None => [] end)
           positions.

(** ** The invariant of the worlds a schedule reaches *)

Section Invariant.

Variable a : Z.
Variable s0 : store.
Variable calls : list (prog Http.response * Z).

Definition not_holding (w : Sessions.world) (i : nat) : Prop :=
  forall e, In e (Sessions.locks w) -> snd e <> i.

Definition only_holder (w : Sessions.world) (i : nat) : Prop :=
  Sessions.locks w <> [] /\ forall e, In e (Sessions.locks w) -> e = (a, i).

(** Where request [i] stands, [done] being the requests that have held the
    lock and released it, in that order. *)
Inductive phase (w : Sessions.world) (done : list nat) (i : nat)
  (ss : Sessions.session) (c : prog Http.response * Z) : Prop :=
| phase_fresh :
    Sessions.program ss = fst c ->
    Sessions.changes ss = None ->
    ~ In i done ->
    not_holding w i ->
    phase w done i ss c
| phase_begun k0 :
    fst c = PG.Do BEGIN k0 ->
    Sessions.program ss = k0 (PG.Ok tt) ->
    waiting a (Sessions.program ss) ->
    Sessions.changes ss = Some [] ->
    ~ In i done ->
    not_holding w i ->
    phase w done i ss c
| phase_leaving :
    closing (Sessions.program ss) ->
    Sessions.changes ss = Some [] ->
    ~ In i done ->
    not_holding w i ->
    (forall s, PG.run exec (Sessions.program ss)
                 {| shared := s; pending := Some []; now := snd c |}
               = PG.run exec (fst c) (connect s (snd c))) ->
    phase w done i ss c
| phase_holding ws :
    critical a (Sessions.program ss) ->
    Sessions.changes ss = Some ws ->
    ~ In i done ->
    only_holder w i ->
    PG.run exec (Sessions.program ss) (Sessions.connection w ss)
    = PG.run exec (fst c) (connect (Sessions.one_by_one calls done s0) (snd c)) ->
    phase w done i ss c
| phase_passed r :
    Sessions.program ss = PG.Ret r ->
    ~ In i done ->
    not_holding w i ->
    (forall s, serve (fst c) (snd c) s = (Some r, s)) ->
    phase w done i ss c
| phase_done r pre post :
    Sessions.program ss = PG.Ret r ->
    done = (pre ++ i :: post)%list ->
    not_holding w i ->
    fst (serve (fst c) (snd c) (Sessions.one_by_one calls pre s0)) = Some r ->
    phase w done i ss c.

Definition holding (w : Sessions.world) (i : nat) : Prop :=
  exists ss ws, nth_error (Sessions.sessions w) i = Some ss
                /\ Sessions.changes ss = Some ws
                /\ critical a (Sessions.program ss)
                /\ only_holder w i.

Record invariant (w : Sessions.world) (done : list nat) : Prop := {
  inv_clocks : map Sessions.clock (Sessions.sessions w) = map snd calls;
  inv_agent : has_agent (Sessions.store_of w) a = true;
  inv_nodup : NoDup done;
  inv_range : forall i, In i done -> (i < List.length calls)%nat;
  inv_phase :
    forall i ss c,
      nth_error (Sessions.sessions w) i = Some ss ->
      nth_error calls i = Some c ->
      phase w done i ss c;
  inv_store :
    (exists h, holding w h)
    \/ (Sessions.locks w = []
        /\ Sessions.store_of w = Sessions.one_by_one calls done s0)
}.

End Invariant.

End Discipline.

(* ================================================================== *)
(** * The rest of the service *)
(* ================================================================== *)

Module Text.

(** Nothing but white space, as [String.prototype.trim] sees it. *)
Fixpoint blank (s : string) : bool :=
  match s with
  | EmptyString => true
  | String c r => JS.is_space c && blank r
  end.

(** The string is empty or begins with a character that is no white space. *)
Definition head_kept (s : string) : Prop :=
  match s with
  | EmptyString => True
  | String c _ => JS.is_space c = false
  end.

End Text.

(* ================================================================== *)
(** * What the calls of [part_003] keep true of the tables *)
(* ================================================================== *)

Module Integrity.

Import Schema.
Local Open Scope string_scope.
Local Open Scope Z_scope.

(** An agent as [POST /api/agents] writes it: a name that is not empty and
    has no white space around it, a rate and a balance that are not NULL. *)
Definition clean (a : Agents.row) : bool :=
  negb (String.eqb (Agents.name a) "")
  && String.eqb (JS.trim (Agents.name a)) (Agents.name a)
  && match Agents.commission_percent a with Some _ => true | None => false end
  && match Agents.balance a with Some _ => true | None => false end.

Fixpoint distinct (l : list Z) : bool :=
  match l with
  | [] => true
  | x :: r => negb (existsb (Z.eqb x) r) && distinct r
  end.

(** The keys of a table are pairwise distinct and none is beyond the last
    value of its sequence. *)
Definition keyed (ids : list Z) (last : Z) : bool :=
  distinct ids && forallb (fun n => n <=? last) ids.

(** Every sale and every payout names an agent of the table, every sale
    with a customer a customer of the table. *)
Definition referenced (s : store) : bool :=
  forallb (fun r => has_agent s (Sales.agent_id r)
                    && match Sales.customer_id r with
                       | Some k => has_customer s k
                       | None => true
                       end) (sales s)
  && forallb (fun r => has_agent s (Payouts.agent_id r)) (payouts s).

Definition well_formed (s : store) : bool :=
  forallb clean (agents s)
  && keyed (map Agents.id (agents s)) (agents_id_seq s)
  && keyed (map Sales.id (sales s)) (sales_id_seq s)
  && keyed (map Payouts.id (payouts s)) (payouts_id_seq s)
  && referenced s.

(** The calls that write: [POST /api/agents], [POST /api/sales] and
    [POST /api/payouts]. *)
Inductive call :=
| CreateAgent (req : Http.request) (t : Z)
| RecordSale (req : Http.request) (t : Z)
| RecordPayout (req : Http.request) (t : Z).

Definition perform (s : store) (c : call) : store :=
  match c with
  | CreateAgent req t => snd (serve (Part003.post_api_agents req) t s)
  | RecordSale req t => snd (serve (Part003.post_api_sales req) t s)
  | RecordPayout req t => snd (serve (Part003.post_api_payouts req) t s)
  end.

Definition after (s : store) (cs : list call) : store := fold_left perform cs s.

(** The store after an agent row has been inserted. *)
Definition registered (s : store) (r : Agents.row) : store :=
  {| agents := agents s ++ [r];
     customers := customers s;
     sales := sales s;
     payouts := payouts s;
     agents_id_seq := Agents.id r;
     sales_id_seq := sales_id_seq s;
     payouts_id_seq := payouts_id_seq s |}.

(** The same rows, the sequences no further back. *)
Definition moved_on (s s' : store) : Prop :=
  Ledger.same_rows s s'
  /\ agents_id_seq s <= agents_id_seq s'
  /\ sales_id_seq s <= sales_id_seq s'
  /\ payouts_id_seq s <= payouts_id_seq s'.

End Integrity.

(* ================================================================== *)
(** * The key and the middleware of the later [index.js] *)
(* ================================================================== *)

(** ** [src/index.js], second version: the key tidied up when the server starts *)

Module Index2Auth.

Local Open Scope string_scope.
Local Open Scope Z_scope.

(** A letter of [a-z] as its capital; any other character as itself.  This
    is how a pattern with the [i] flag compares a character of the text with
    a letter of [A-Z]. *)
Definition capital (c : ascii) : ascii :=
  let n := Z.of_nat (nat_of_ascii c) in
  if (97 <=? n) && (n <=? 122) then ascii_of_nat (nat_of_ascii c - 32) else c.

(** What is left of [s] after the letters of [p], matched without regard to
    case, if [s] begins with them. *)
Fixpoint after_letters (p s : string) : option string :=
  match p, s with
  | EmptyString, _ => Some s
  | String a p', String c s' =>
      if Ascii.eqb (capital c) (capital a) then after_letters p' s' else None
  | String _ _, EmptyString => None
  end.

(** The first [replace] of [API_KEY], with the pattern [^API_KEY\s*=\s*] and
    the flag [i]. *)
Definition strip_name (s : string) : string :=
  match after_letters "API_KEY" s with
  | Some r =>
      match JS.trimStart r with
      | String "=" r' => JS.trimStart r'
      | _ => s
      end
  | None => s
  end.

(** The double quote character. *)
Definition quote : ascii := ascii_of_nat 34.

Fixpoint strip_last_quote (s : string) : string :=
  match s with
  | EmptyString => EmptyString
  | String c EmptyString => if Ascii.eqb c quote then EmptyString else s
  | String c r => String c (strip_last_quote r)
  end.

(** The second [replace] of [API_KEY], with the pattern [^Q|Q$] and the flag
    [g], [Q] being the double quote: a quote at the very start and a quote
    at the very end go, each if it is there. *)
Definition strip_quotes (s : string) : string :=
  match s with
  | String c r => if Ascii.eqb c quote then strip_last_quote r else strip_last_quote s
  | EmptyString => EmptyString
  end.

(** [const API_KEY_RAW = process.env.API_KEY || ""] *)
Definition API_KEY_RAW (env : env_var) : string :=
  match env with
  | Some s => s
  | None => ""
  end.

Definition API_KEY (env : env_var) : string :=
  strip_quotes (JS.trim (strip_name (API_KEY_RAW env))).

Definition auth (env : env_var) (req : Http.request) : verdict :=
  let apiKeyHeader := header req "x-api-key" in
  let bearerHeader := header req "authorization" in
  let token : option string := None in
  let token :=
    match apiKeyHeader with
    | Some h => if String.eqb h "" then token else Some h
    | None => token
    end in
  let token :=
    match bearerHeader with
    | Some h =>
        if negb (String.eqb h "") && JS.startsWith h "Bearer "
        then Some (JS.trim (JS.replace_first h "Bearer "))
        else token
    | None => token
    end in
  let token :=
    match token with
    | Some t => if String.eqb t "" then token else Some (JS.trim t)
    | None => token
    end in
  match token with
  | Some t =>
      if String.eqb t "" || negb (String.eqb t (API_KEY env))
      then answer (Http.fail 401 "Unauthorized")
      else next
  | None => answer (Http.fail 401 "Unauthorized")
  end.

End Index2Auth.

(** ** [src/index.js], third version: both headers, the key as it is *)

Module Index3.

Local Open Scope string_scope.

(** [const API_KEY = process.env.API_KEY] *)
Definition API_KEY (env : env_var) : option string := env.

Definition auth (env : env_var) (req : Http.request) : verdict :=
  let apiKeyHeader := header req "x-api-key" in
  let bearerHeader := header req "authorization" in
  let token : option string := None in
  (* Case 1: x-api-key *)
  let token :=
    match apiKeyHeader with
    | Some h => if String.eqb h "" then token else Some h
    | None => token
    end in
  (* Case 2: Authorization: Bearer xxx *)
  let token :=
    match bearerHeader with
    | Some h =>
        if negb (String.eqb h "") && JS.startsWith h "Bearer "
        then Some (JS.trim (JS.replace_first h "Bearer "))
        else token
    | None => token
    end in
  match token with
  | Some t =>
      if String.eqb t "" || Index1.strict_neq (Some t) (API_KEY env)
      then answer (Http.fail 401 "Unauthorized")
      else next
  | None => answer (Http.fail 401 "Unauthorized")
  end.

End Index3.

(* ================================================================== *)
(** * What the calls of the second [index.js] keep true of the tables *)
(* ================================================================== *)

Module Index2Integrity.

Import Index2.
Local Open Scope string_scope.
Local Open Scope Z_scope.

(** [REFERENCES agents(id)] and [REFERENCES customers(id)]: a sale or a
    payout that names an agent names one of the table, a sale that names a
    customer names one of the table. *)
Definition referenced (s : store) : bool :=
  forallb (fun r => match Sales.agent_id r with
                    | Some k => has_agent s k
                    | None => true
                    end
                    && match Sales.customer_id r with
                       | Some k => has_customer s k
                       | None => true
                       end) (sales s)
  && forallb (fun r => match Payouts.agent_id r with
                       | Some k => has_agent s k
                       | None => true
                       end) (payouts s).

(** [SERIAL PRIMARY KEY] on the three tables the handlers write, and the
    references. *)
Definition well_formed (s : store) : bool :=
  Integrity.keyed (map Agents.id (agents s)) (agents_id_seq s)
  && Integrity.keyed (map Sales.id (sales s)) (sales_id_seq s)
  && Integrity.keyed (map Payouts.id (payouts s)) (payouts_id_seq s)
  && referenced s.

(** The calls that write: [POST /api/agents], [PUT /api/agents/:id],
    [POST /api/agents/:id/payouts] and [POST /api/sales]. *)
Inductive call :=
| CreateAgent (req : Http.request) (t : Z)
| UpdateAgent (req : Http.request) (t : Z)
| RecordPayout (req : Http.request) (t : Z)
| RecordSale (req : Http.request) (t : Z).

Definition perform (s : store) (c : call) : store :=
  match c with
  | CreateAgent req t => snd (serve (post_api_agents req) t s)
  | UpdateAgent req t => snd (serve (put_api_agents_id req) t s)
  | RecordPayout req t => snd (serve (post_api_agents_id_payouts req) t s)
  | RecordSale req t => snd (serve (post_api_sales req) t s)
  end.

Definition after (s : store) (cs : list call) : store := fold_left perform cs s.

End Index2Integrity.

(* ================================================================== *)
(** * [GET /api/customers]: the statement the handler sends

    The list of customers is one [SELECT] whose text the handler puts
    together from [req.query].  What is modelled here is that text and its
    parameters; [req.query] is an object read by key like [req.body]. *)
(* ================================================================== *)

Module Listing.

Local Open Scope string_scope.

(** The line break of a template literal. *)
Definition nl : string := String (ascii_of_nat 10) "".

(** A template literal, line by line. *)
Definition template (lines : list string) : string := String.concat nl lines.

(** [toLowerCase] on the letters A to Z.  Bytes above 127 are left as they
    are: no character outside ASCII becomes one of the letters of [desc],
    the only text the result is compared with. *)
Definition small (c : ascii) : ascii :=
  let n := nat_of_ascii c in
  if ((65 <=? n) && (n <=? 90))%nat then ascii_of_nat (n + 32) else c.

Fixpoint toLowerCase (s : string) : string :=
  match s with
  | EmptyString => EmptyString
  | String c r => String (small c) (toLowerCase r)
  end.

(** [src/unnamed/part_003], lines 359 to 403. *)
Module Part003.

Definition filter_clause : string :=
  "WHERE (c.customer_name ILIKE $1 OR c.phone ILIKE $1 OR c.license_key ILIKE $1)".

(** The template of [sql]. *)
Definition sql (where_ sortCol order : string) : string :=
  template
    [""; "      SELECT"; "        c.*,"; "        a.name AS agent_name,";
     "        a.phone AS agent_phone,";
     "        a.commission_percent AS agent_commission_percent";
     "      FROM customers c"; "      LEFT JOIN agents a ON a.id = c.agent_id";
     "      " ++ where_; "      ORDER BY " ++ sortCol ++ " " ++ order; "    "].

(** The arguments of [pool.query(sql, params)]. *)
Definition get_api_customers (query : Http.object) : string * list string :=
  let q := JS.trim (JS.String_ (JS.or (query "q") (JS.Str ""))) in
  let sort := JS.String_ (JS.or (query "sort") (JS.Str "expireAt")) in
  let order :=
    if String.eqb (toLowerCase (JS.String_ (JS.or (query "order") (JS.Str "asc")))) "desc"
    then "DESC" else "ASC" in
  let sortCol :=
    if String.eqb sort "issuedAt" then "c.issued_at"
    else if String.eqb sort "customerName" then "c.customer_name"
    else "c.expire_at" in
  let params : list string := [] in
  let where_ := "" in
  let '(params, where_) :=
    if negb (String.eqb q "")
    then (List.app params ["%" ++ q ++ "%"], filter_clause)
    else (params, where_) in
  (sql where_ sortCol order, params).

End Part003.

(** [src/index.js], second version, lines 173 to 216. *)
Module Index2.

Definition filter_clause : string :=
  template
    [""; "        WHERE c.customer_name ILIKE $1";
     "           OR COALESCE(c.phone,'') ILIKE $1";
     "           OR COALESCE(c.product_id,'') ILIKE $1";
     "           OR COALESCE(c.license_key,'') ILIKE $1";
     "           OR COALESCE(a.name,'') ILIKE $1";
     "           OR COALESCE(a.phone,'') ILIKE $1"; "      "].

(** The template of [q]. *)
Definition sql (where_ orderBy : string) : string :=
  template
    [""; "      SELECT"; "        c.*,"; "        a.name AS agent_name,";
     "        a.phone AS agent_phone,";
     "        a.commission_percent AS agent_commission_percent";
     "      FROM customers c"; "      LEFT JOIN agents a ON a.id = c.agent_id";
     "      " ++ where_; "      ORDER BY " ++ orderBy; "      LIMIT 200"; "    "].

(** The arguments of [pool.query(q, params)]. *)
Definition get_api_customers (query : Http.object) : string * list string :=
  let search := JS.trim (JS.String_ (JS.or (query "search") (JS.Str ""))) in
  let sort := JS.String_ (JS.or (query "sort") (JS.Str "expire_asc")) in
  let orderBy := "c.expire_at ASC NULLS LAST" in
  let orderBy := if String.eqb sort "expire_desc" then "c.expire_at DESC NULLS LAST"
                 else orderBy in
  let orderBy := if String.eqb sort "issued_desc" then "c.issued_at DESC" else orderBy in
  let orderBy := if String.eqb sort "issued_asc" then "c.issued_at ASC" else orderBy in
  let params : list string := [] in
  let where_ := "" in
  let '(params, where_) :=
    if negb (String.eqb search "")
    then (List.app params ["%" ++ search ++ "%"], filter_clause)
    else (params, where_) in
  (sql where_ orderBy, params).

End Index2.

End Listing.

(* ================================================================== *)
(** * [src/db.js]: the options of the pool *)
(* ================================================================== *)

Module Db.

Local Open Scope string_scope.

(** [s.includes(p)] *)
Definition includes (s p : string) : bool :=
  match String.index 0 p s with
  | Some _ => true
  | None => false
  end.

(** The [ssl] option of [new Pool]: not given, [false], or
    [{ rejectUnauthorized: false }]. *)
Inductive ssl_option :=
| ssl_default
| ssl_false
| ssl_unverified.

Record options := {
  connectionString : option string;
  ssl : ssl_option
}.

(** First version: the URL as it is, set or not, and no [ssl] option. *)
Definition pool1 (DATABASE_URL : option string) : options :=
  {| connectionString := DATABASE_URL; ssl := ssl_default |}.

(** Second version: loading the module throws when the URL is not set. *)
Definition needsSSL (DATABASE_URL : string) : bool :=
  negb (includes DATABASE_URL "localhost") && negb (includes DATABASE_URL "127.0.0.1").

Definition pool2 (env : option string) : string + options :=
  match env with
  | None => inl "DATABASE_URL is not set"
  | Some DATABASE_URL =>
      if String.eqb DATABASE_URL "" then inl "DATABASE_URL is not set"
      else
        inr {| connectionString := Some DATABASE_URL;
               ssl := if needsSSL DATABASE_URL then ssl_unverified else ssl_false |}
  end.

End Db.

(* ================================================================== *)
(** * [initDb] of the second [index.js]

    The database is the store of the handlers together with the names of
    the tables that exist; a table that exists has the columns [initDb]
    gives it.  The rows may come from anywhere: nothing is assumed of the
    sequences, so the [INSERT] of the seed can meet a key that is taken. *)
(* ================================================================== *)

Module Init.

Local Open Scope string_scope.
Local Open Scope Z_scope.

Record database := {
  tables : list string;
  rows : Index2.store
}.

Record conn := {
  db : database;
  now : Z
}.

Definition connect (d : database) (t : Z) : conn := {| db := d; now := t |}.

Inductive stmt : Type -> Type :=
(* CREATE TABLE IF NOT EXISTS name (...) *)
| create_table_if_not_exists (name : string) : stmt unit
(* SELECT id FROM agents WHERE name=$1 LIMIT 1 *)
| select_agent_named (name : option string) : stmt (list Z)
(* INSERT INTO agents(name, phone, commission_percent) VALUES($1,$2,$3) *)
| insert_agent (name phone commission_percent : option string) : stmt unit.

(** [IF NOT EXISTS]: a table that is there is left alone. *)
Definition ensure (names : list string) (name : string) : list string :=
  if existsb (String.eqb name) names then names else names ++ [name].

Definition exec (R : Type) (q : stmt R) (c : conn) : PG.result R * conn :=
  match q in stmt R0 return PG.result R0 * conn with
  | create_table_if_not_exists name =>
      (PG.Ok tt,
       {| db := {| tables := ensure (tables (db c)) name; rows := rows (db c) |};
          now := now c |})
  | select_agent_named name =>
      match name with
      | Some nm =>
          (PG.Ok (firstn 1 (map Index2.Agents.id
                              (filter (fun a => String.eqb (Index2.Agents.name a) nm)
                                      (Index2.agents (rows (db c)))))), c)
      | None => (PG.Ok [], c)
      end
  | insert_agent name phone pct =>
      let '(r, c') :=
        Index2.exec_insert_agent name phone pct (Index2.connect (rows (db c)) (now c)) in
      (match r with
       | PG.Ok _ => PG.Ok tt
       | PG.Err e => PG.Err e
       end,
       {| db := {| tables := tables (db c); rows := Index2.db c' |}; now := now c |})
  end.

(** The name of the agent [initDb] seeds: three Thai letters, which are
    outside Latin-1 and are written here by the nine bytes the driver sends
    for them.  [initDb] and the handlers of this version only compare and
    store a name; none trims it. *)
Definition seed : string :=
  string_of_list_ascii
    (map ascii_of_nat [224; 184; 154; 224; 184; 185; 224; 184; 161]%nat).

(** [async function initDb()] *)
Definition initDb : PG.prog stmt unit :=
  _ <- create_table_if_not_exists "customers" ;;
  _ <- create_table_if_not_exists "agents" ;;
  _ <- create_table_if_not_exists "sales" ;;
  _ <- create_table_if_not_exists "payouts" ;;
  check <- select_agent_named (PG.param (JS.Str seed)) ;;
  if (Z.of_nat (List.length check) =? 0)
  then
    _ <- insert_agent (PG.param (JS.Str seed)) (PG.param (JS.Str "0888885588"))
                      (PG.param (JS.Num 30%float)) ;;
    PG.Ret tt
  else PG.Ret tt.

(** What the process does once [initDb] has settled: it listens, or it exits
    with status 1. *)
Inductive started :=
| listening (d : database)
| exited (status : Z).

Definition start (d : database) (t : Z) : started :=
  match PG.run exec initDb (connect d t) with
  | (PG.Ok _, c) => listening (db c)
  | (PG.Err _, _) => exited 1
  end.

End Init.

(* ================================================================== *)
(** * More stores and requests to exercise the statements *)
(* ================================================================== *)

Module Samples.

Local Open Scope string_scope.
Local Open Scope Z_scope.

(** [schema.sql] with agent "A" at 10 percent after a sale of 200, a payout
    of 25 that is refused and a payout of 20. *)
Definition ledger : Schema.store := Ledger.after Fixtures.agent_A Fixtures.scenario.

(** [GET /api/agents/<id>/report] and the other routes on [/:id]. *)
Definition at_id (id : string) : Http.request := Fixtures.on_id id [].

(** A new agent whose name comes with white space around it. *)
Definition new_agent : Http.request :=
  Fixtures.post [("name", JS.Str "  Boom "); ("phone", JS.Str "0888885588");
                 ("commissionPercent", JS.Num 30%float)].

(** An agent is created, sells for 200, is paid 5, asks for 1000 and a sale
    is sent for an agent that does not exist. *)
Definition calls : list Integrity.call :=
  [Integrity.CreateAgent new_agent 1;
   Integrity.RecordSale (Fixtures.sale_of 200%float) 2;
   Integrity.RecordPayout (Fixtures.payout_of 5%float) 3;
   Integrity.RecordPayout (Fixtures.payout_of 1000%float) 4;
   Integrity.RecordSale
     (Fixtures.post [("agentId", JS.Num 7%float); ("salePrice", JS.Num 10%float)]) 5].

(** Two agents of the second [index.js], one sale and one payout. *)
Definition book : Index2.store :=
  {| Index2.agents :=
       [{| Index2.Agents.id := 1; Index2.Agents.name := "Boom";
           Index2.Agents.phone := "0888885588";
           Index2.Agents.commission_percent := Some 30; Index2.Agents.created_at := 1 |};
        {| Index2.Agents.id := 2; Index2.Agents.name := "Ann";
           Index2.Agents.phone := "0811111111";
           Index2.Agents.commission_percent := Some 30; Index2.Agents.created_at := 2 |}];
     Index2.customers := [];
     Index2.sales :=
       [{| Index2.Sales.id := 1; Index2.Sales.customer_id := None;
           Index2.Sales.agent_id := Some 1; Index2.Sales.sale_price := 200;
           Index2.Sales.commission_percent := 30; Index2.Sales.commission_amount := 60;
           Index2.Sales.created_at := 3 |}];
     Index2.payouts :=
       [{| Index2.Payouts.id := 1; Index2.Payouts.agent_id := Some 1;
           Index2.Payouts.amount := 5; Index2.Payouts.note := None;
           Index2.Payouts.created_at := 4 |}];
     Index2.agents_id_seq := 2; Index2.sales_id_seq := 1; Index2.payouts_id_seq := 1 |}.

(** The sample store in a database restored with its rows but with the
    sequence of [agents] back at its start. *)
Definition restored : Init.database :=
  {| Init.tables := ["customers"; "agents"; "sales"; "payouts"];
     Init.rows :=
       {| Index2.agents := Index2.agents book;
          Index2.customers := Index2.customers book;
          Index2.sales := Index2.sales book;
          Index2.payouts := Index2.payouts book;
          Index2.agents_id_seq := 0;
          Index2.sales_id_seq := Index2.sales_id_seq book;
          Index2.payouts_id_seq := Index2.payouts_id_seq book |} |}.

(** An agent is created on the second [index.js], its rate is changed, it
    sells to a customer that does not exist, is paid more than it earned and
    a payout is sent for an agent that does not exist. *)
Definition book_calls : list Index2Integrity.call :=
  [Index2Integrity.CreateAgent new_agent 5;
   Index2Integrity.UpdateAgent
     {| Http.headers := Http.obj []; Http.params := Http.obj [("id", JS.Str "3")];
        Http.body := Http.obj [("commissionPercent", JS.Num 12%float)] |} 6;
   Index2Integrity.RecordSale
     (Fixtures.post [("customerId", JS.Num 4%float); ("agentId", JS.Num 3%float);
                     ("salePrice", JS.Num 10%float)]) 7;
   Index2Integrity.RecordPayout
     {| Http.headers := Http.obj []; Http.params := Http.obj [("id", JS.Str "1")];
        Http.body := Http.obj [("amount", JS.Num 50%float)] |} 8;
   Index2Integrity.RecordPayout
     {| Http.headers := Http.obj []; Http.params := Http.obj [("id", JS.Str "9")];
        Http.body := Http.obj [("amount", JS.Num 1%float)] |} 9].

End Samples.


(* ================================================================== *)
(** * Properties *)
(* ================================================================== *)

Section SchemaFacts.

Import Schema.
Local Open Scope string_scope.
Local Open Scope Q_scope.

Lemma Qsum_app (l1 l2 : list Q) : Qsum (l1 ++ l2) == Qsum l1 + Qsum l2.
Proof.
  induction l1 as [|x l1 IH]; simpl.
  - ring.
  - rewrite IH. ring.
Qed.

Lemma in_firstn {A : Type} (n : nat) (l : list A) (x : A) :
  In x (firstn n l) -> In x l.
Proof.
  intros H. rewrite <- (firstn_skipn n l). apply in_or_app. left. exact H.
Qed.

Lemma in_insert_desc {A : Type} (key : A -> Z) (y x : A) (l : list A) :
  In x (insert_desc key y l) <-> x = y \/ In x l.
Proof.
  induction l as [|z l IH]; cbn.
  - intuition.
  - destruct (key z <? key y)%Z; cbn; [intuition|]. rewrite IH. intuition.
Qed.

Lemma in_order_desc {A : Type} (key : A -> Z) (x : A) (l : list A) :
  In x (order_desc key l) <-> In x l.
Proof.
  unfold order_desc. rewrite (in_rev l).
  induction (rev l) as [|z r IH]; cbn.
  - reflexivity.
  - rewrite in_insert_desc, IH. intuition.
Qed.

Lemma same_rows_refl (s : store) : Ledger.same_rows s s.
Proof. repeat split. Qed.

Lemma store_eta (s : store) :
  {| agents := agents s; customers := customers s; sales := sales s;
     payouts := payouts s; agents_id_seq := agents_id_seq s;
     sales_id_seq := sales_id_seq s; payouts_id_seq := payouts_id_seq s |} = s.
Proof. destruct s; reflexivity. Qed.

(** Case analysis on the parameters a statement reads. *)
Ltac read_params :=
  repeat (cbn;
          unfold exec_insert_sale, exec_insert_payout, exec_update_balance,
                 exec_insert_agent;
          cbn;
          match goal with
          | H : PG.numeric_in ?x = _ |- context [PG.numeric_in ?x] => rewrite H
          | H : PG.int4_in ?x = _ |- context [PG.int4_in ?x] => rewrite H
          | |- context [match PG.numeric_in ?x with _ => _ end] =>
              destruct (PG.numeric_in x) eqn:?
          | |- context [match PG.int4_in ?x with _ => _ end] =>
              destruct (PG.int4_in x) eqn:?
          | |- context [match bind PG.int4_in ?x with _ => _ end] =>
              destruct (bind PG.int4_in x) as [[?|]|?] eqn:?
          | |- context [match bind PG.numeric_in ?x with _ => _ end] =>
              destruct (bind PG.numeric_in x) as [[?|]|?] eqn:?
          | |- context [if ?b then _ else _] => destruct b eqn:?
          end).

Ltac answered := do 2 eexists; split; [reflexivity|].

(** What [POST /api/sales] of [part_003] does, case by case. *)
Lemma sale_cases (req : Http.request) (t : Z) (s : store) :
  exists resp s',
    serve (Part003.post_api_sales req) t s = (Some resp, s')
    /\ ((Http.status resp = 400%Z /\ s' = s)
        \/ (Http.status resp = 404%Z /\ s' = s)
        \/ (Http.status resp = 500%Z /\ Ledger.same_rows s s')
        \/ (Http.status resp = 200%Z /\ exists row, s' = Ledger.credited s row)).
Proof.
  unfold serve, Part003.post_api_sales. cbv zeta.
  set (aId := JS.Number (Http.body req "agentId")).
  set (price := JS.Number _).
  set (cu := PG.param (if JS.Number_isFinite _ then _ else _)).
  set (nt := PG.param (JS.or _ _)).
  destruct (negb (JS.isFinite aId)) eqn:Ha.
  { cbn. eauto 10. }
  destruct (negb (JS.isFinite price) || _)%bool eqn:Hp.
  { cbn. eauto 10. }
  cbn. unfold by_key. cbn.
  destruct (PG.int4_in (JS.toString aId)) as [n|] eqn:Hn; cbn.
  2:{ answered. right. right. left. split; [reflexivity|]. apply same_rows_refl. }
  destruct (agents_by_id s n) as [|a rest] eqn:Hrows; cbn.
  { answered. right. left. auto. }
  unfold exec_insert_sale, exec_update_balance. cbn. rewrite Hn.
  read_params; answered;
    try (right; right; left; split; [reflexivity|repeat split]; fail).
  all: right; right; right; split; [reflexivity|].
  all: match goal with |- context [insert_sales ?r] => exists r end.
  all: try reflexivity.
Qed.

(** What [POST /api/payouts] of [part_003] does, case by case. *)
Lemma payout_cases (req : Http.request) (t : Z) (s : store) :
  exists resp s',
    serve (Part003.post_api_payouts req) t s = (Some resp, s')
    /\ ((Http.status resp = 400%Z /\ s' = s)
        \/ (Http.status resp = 404%Z /\ s' = s)
        \/ (Http.status resp = 500%Z /\ Ledger.same_rows s s')
        \/ (Http.status resp = 200%Z /\ exists row, s' = Ledger.debited s row)).
Proof.
  unfold serve, Part003.post_api_payouts. cbv zeta.
  set (aId := JS.Number (Http.body req "agentId")).
  set (amt := JS.Number _).
  set (nt := PG.param (JS.or _ _)).
  destruct (negb (JS.isFinite aId)) eqn:Ha.
  { cbn. eauto 10. }
  destruct (negb (JS.isFinite amt) || _)%bool eqn:Hp.
  { cbn. eauto 10. }
  cbn. unfold by_key. cbn.
  destruct (PG.int4_in (JS.toString aId)) as [n|] eqn:Hn; cbn.
  2:{ answered. right. right. left. split; [reflexivity|]. apply same_rows_refl. }
  destruct (agents_by_id s n) as [|a rest] eqn:Hrows; cbn.
  { answered. right. left. auto. }
  destruct (PrimFloat.ltb _ amt) eqn:Hlt; cbn.
  { answered. left. auto. }
  read_params; answered;
    try (right; right; left; split; [reflexivity|repeat split]; fail).
  all: right; right; right; split; [reflexivity|].
  all: match goal with |- context [insert_payouts ?r] => exists r end.
  all: try reflexivity.
Qed.

Lemma earned_credited (s : store) (r : Sales.row) (n : Z) :
  Ledger.earned (Ledger.credited s r) n
  == Ledger.earned s n + (if (Sales.agent_id r =? n)%Z then Sales.commission_amount r else 0).
Proof.
  unfold Ledger.earned, sales_of, Ledger.credited. cbn.
  rewrite filter_app, map_app, Qsum_app. cbn.
  destruct (Sales.agent_id r =? n)%Z; cbn; ring.
Qed.

Lemma paid_debited (s : store) (r : Payouts.row) (n : Z) :
  Ledger.paid (Ledger.debited s r) n
  == Ledger.paid s n + (if (Payouts.agent_id r =? n)%Z then Payouts.amount r else 0).
Proof.
  unfold Ledger.paid, payouts_of, Ledger.debited. cbn.
  rewrite filter_app, map_app, Qsum_app. cbn.
  destruct (Payouts.agent_id r =? n)%Z; cbn; ring.
Qed.

Lemma balanced_credited (s : store) (r : Sales.row) :
  Ledger.balanced s = true -> Ledger.balanced (Ledger.credited s r) = true.
Proof.
  unfold Ledger.balanced. rewrite !forallb_forall. intros H a Ha.
  cbn in Ha. apply in_map_iff in Ha. destruct Ha as [a0 [<- Ha0]].
  specialize (H a0 Ha0). unfold Ledger.balanced_row in *.
  destruct (Agents.balance a0) as [b|] eqn:Hb; [|discriminate].
  apply Qeq_bool_iff in H.
  unfold bump. destruct (Agents.id a0 =? Sales.agent_id r)%Z eqn:Hid; cbn.
  - rewrite Hb. cbn. apply Qeq_bool_iff.
    rewrite earned_credited. rewrite Z.eqb_sym, Hid.
    change (Ledger.paid (Ledger.credited s r) (Agents.id a0)) with (Ledger.paid s (Agents.id a0)).
    rewrite H. ring.
  - rewrite Hb. apply Qeq_bool_iff.
    rewrite earned_credited. rewrite Z.eqb_sym, Hid.
    change (Ledger.paid (Ledger.credited s r) (Agents.id a0)) with (Ledger.paid s (Agents.id a0)).
    rewrite H. ring.
Qed.

Lemma balanced_debited (s : store) (r : Payouts.row) :
  Ledger.balanced s = true -> Ledger.balanced (Ledger.debited s r) = true.
Proof.
  unfold Ledger.balanced. rewrite !forallb_forall. intros H a Ha.
  cbn in Ha. apply in_map_iff in Ha. destruct Ha as [a0 [<- Ha0]].
  specialize (H a0 Ha0). unfold Ledger.balanced_row in *.
  destruct (Agents.balance a0) as [b|] eqn:Hb; [|discriminate].
  apply Qeq_bool_iff in H.
  unfold bump. destruct (Agents.id a0 =? Payouts.agent_id r)%Z eqn:Hid; cbn.
  - rewrite Hb. cbn. apply Qeq_bool_iff.
    rewrite paid_debited. rewrite Z.eqb_sym, Hid.
    change (Ledger.earned (Ledger.debited s r) (Agents.id a0)) with (Ledger.earned s (Agents.id a0)).
    rewrite H. ring.
  - rewrite Hb. apply Qeq_bool_iff.
    rewrite paid_debited. rewrite Z.eqb_sym, Hid.
    change (Ledger.earned (Ledger.debited s r) (Agents.id a0)) with (Ledger.earned s (Agents.id a0)).
    rewrite H. ring.
Qed.

Lemma balanced_same_rows (s s' : store) :
  Ledger.same_rows s s' -> Ledger.balanced s = true -> Ledger.balanced s' = true.
Proof.
  intros [Ha [_ [Hs Hp]]].
  unfold Ledger.balanced, Ledger.balanced_row, Ledger.earned, Ledger.paid, sales_of, payouts_of.
  rewrite Ha, Hs, Hp. auto.
Qed.

Lemma balanced_perform (s : store) (c : Ledger.call) :
  Ledger.balanced s = true -> Ledger.balanced (Ledger.perform s c) = true.
Proof.
  intros H. unfold Ledger.perform, Ledger.answer_of. destruct c as [req t|req t].
  - destruct (sale_cases req t s) as [resp [s' [E C]]]. rewrite E. cbn.
    destruct C as [[_ ->]|[[_ ->]|[[_ R]|[_ [row ->]]]]]; auto.
    + eapply balanced_same_rows; eauto.
    + apply balanced_credited; auto.
  - destruct (payout_cases req t s) as [resp [s' [E C]]]. rewrite E. cbn.
    destruct C as [[_ ->]|[[_ ->]|[[_ R]|[_ [row ->]]]]]; auto.
    + eapply balanced_same_rows; eauto.
    + apply balanced_debited; auto.
Qed.

Lemma balanced_after (cs : list Ledger.call) (s : store) :
  Ledger.balanced s = true -> Ledger.balanced (Ledger.after s cs) = true.
Proof.
  revert s. induction cs as [|c cs IH]; intros s H; cbn.
  - exact H.
  - apply IH. apply balanced_perform. exact H.
Qed.

(** The parameters read, the agent found and the customer known: the sale is
    recorded, and the answer and the store are these. *)
Lemma sale_recorded (req : Http.request) (t : Z) (s : store)
  (n : Z) (a : Agents.row) (rest : list Agents.row) (cu : option Z) (sp cp cq : Q) :
  let aId := JS.Number (Http.body req "agentId") in
  let cId := if JS.nullish (Http.body req "customerId") then JS.Null
             else JS.Num (JS.Number (Http.body req "customerId")) in
  let price := JS.Number (JS.coalesce (JS.coalesce (Http.body req "salePrice")
                                                   (Http.body req "sale_price"))
                                      (Http.body req "amount")) in
  let pct := JS.or_zero (Part003.Number_of_column (Agents.commission_percent a)) in
  let amount := PrimFloat.div (PrimFloat.mul price pct) 100%float in
  JS.isFinite aId = true ->
  JS.isFinite price = true ->
  PrimFloat.leb price PrimFloat.zero = false ->
  PG.int4_in (JS.toString aId) = Some n ->
  agents_by_id s n = a :: rest ->
  bind PG.int4_in (PG.param (if JS.Number_isFinite cId then cId else JS.Null)) = PG.Ok cu ->
  match cu with Some k => has_customer s k | None => true end = true ->
  PG.numeric_in (JS.toString price) = Some sp ->
  PG.numeric_in (JS.toString pct) = Some cp ->
  PG.numeric_in (JS.toString amount) = Some cq ->
  serve (Part003.post_api_sales req) t s
  = (Some (Http.reply (Http.sale_json (sales_id_seq s + 1) pct amount)),
     Ledger.credited s
       {| Sales.id := sales_id_seq s + 1;
          Sales.agent_id := n;
          Sales.customer_id := cu;
          Sales.sale_price := sp;
          Sales.commission_percent := cp;
          Sales.commission_amount := cq;
          Sales.note := PG.param (JS.or (Http.body req "note") JS.Null);
          Sales.created_at := t |}).
Proof.
  intros aId cId price pct amount Ha Hf Hp Hn Hrows Hcu Hk Hsp Hcp Hcq.
  assert (Hag : has_agent s n = true).
  { unfold has_agent. apply existsb_exists. exists a. split.
    - assert (In a (agents_by_id s n)) as Hin by (rewrite Hrows; left; reflexivity).
      apply filter_In in Hin. tauto.
    - assert (In a (agents_by_id s n)) as Hin by (rewrite Hrows; left; reflexivity).
      apply filter_In in Hin. tauto. }
  subst aId cId price pct amount.
  unfold serve, Part003.post_api_sales. cbv zeta.
  rewrite Ha. cbn [negb]. rewrite Hf, Hp. cbn [negb orb].
  cbn. unfold by_key. cbn. rewrite Hn. cbn. rewrite Hrows. cbn.
  unfold exec_insert_sale. cbn. rewrite Hn, Hsp, Hcp, Hcq, Hcu. cbn.
  unfold has_agent, has_customer in *. cbn. rewrite Hag, Hk. cbn.
  unfold exec_update_balance. cbn. rewrite Hn, Hcq. cbn.
  reflexivity.
Qed.

(** What [GET /api/agents/:id/report] answers with. *)
Lemma report_answer (req : Http.request) (t : Z) (s : store) (r : Part003.report) (s' : store) :
  serve (Part003.get_api_agents_id_report req) t s = (Some (Part003.report_ok r), s') ->
  s' = s
  /\ In (Part003.agent r) (agents s)
  /\ Part003.commissionTotal r = Ledger.earned s (Agents.id (Part003.agent r))
  /\ Part003.payoutsTotal r = Ledger.paid s (Agents.id (Part003.agent r))
  /\ (forall row, In row (Part003.sales r) -> In (fst row) (sales s))
  /\ (forall row, In row (Part003.payouts r) -> In row (payouts s)).
Proof.
  unfold serve, Part003.get_api_agents_id_report.
  set (agentId := JS.Number _).
  destruct (negb (JS.isFinite agentId)); [cbn; discriminate|].
  cbn. unfold by_key. cbn.
  destruct (PG.int4_in (JS.toString agentId)) as [n|] eqn:Hn; cbn; [|discriminate].
  destruct (agents_by_id s n) as [|a rest] eqn:Hrows; cbn; [discriminate|].
  do 4 (unfold by_key; cbn; rewrite ?Hn; cbn).
  intros E. injection E as Er Es. subst s' r. cbn.
  assert (Hin : In a (agents_by_id s n)) by (rewrite Hrows; left; reflexivity).
  apply filter_In in Hin. destruct Hin as [Hin Hid]. apply Z.eqb_eq in Hid. subst n.
  split; [reflexivity|]. split; [exact Hin|].
  split; [reflexivity|]. split; [reflexivity|]. split.
  - intros row Hrow. apply in_map_iff in Hrow. destruct Hrow as [x [<- Hx]]. cbn.
    apply in_firstn in Hx. rewrite in_order_desc in Hx. apply filter_In in Hx. tauto.
  - intros row Hrow.
    apply in_firstn in Hrow. rewrite in_order_desc in Hrow. apply filter_In in Hrow. tauto.
Qed.


(** A sale whose agent id or price does not validate is answered 400. *)
Lemma invalid_sale_rejected (req : Http.request) (t : Z) (s : store) :
  let aId := JS.Number (Http.body req "agentId") in
  let price := JS.Number (JS.coalesce (JS.coalesce (Http.body req "salePrice")
                                                   (Http.body req "sale_price"))
                                      (Http.body req "amount")) in
  JS.isFinite aId = false \/ JS.isFinite price = false
  \/ PrimFloat.leb price PrimFloat.zero = true ->
  exists msg, serve (Part003.post_api_sales req) t s = (Some (Http.fail 400 msg), s).
Proof.
  intros aId price H. subst aId price.
  unfold serve, Part003.post_api_sales. cbv zeta.
  destruct (JS.isFinite (JS.Number (Http.body req "agentId"))) eqn:Ha; cbn [negb].
  - destruct H as [H|[H|H]]; [discriminate| |]; rewrite H; cbn.
    + eexists; reflexivity.
    + rewrite orb_true_r. cbn. eexists; reflexivity.
  - cbn. eexists; reflexivity.
Qed.

(** A payout whose agent id or amount does not validate is answered 400. *)
Lemma invalid_payout_rejected (req : Http.request) (t : Z) (s : store) :
  let aId := JS.Number (Http.body req "agentId") in
  let amt := JS.Number (Http.body req "amount") in
  JS.isFinite aId = false \/ JS.isFinite amt = false
  \/ PrimFloat.leb amt PrimFloat.zero = true ->
  exists msg, serve (Part003.post_api_payouts req) t s = (Some (Http.fail 400 msg), s).
Proof.
  intros aId amt H. subst aId amt.
  unfold serve, Part003.post_api_payouts. cbv zeta.
  destruct (JS.isFinite (JS.Number (Http.body req "agentId"))) eqn:Ha; cbn [negb].
  - destruct H as [H|[H|H]]; [discriminate| |]; rewrite H; cbn.
    + eexists; reflexivity.
    + rewrite orb_true_r. cbn. eexists; reflexivity.
  - cbn. eexists; reflexivity.
Qed.

(** A call that names an agent the table does not hold is answered 404. *)
Lemma unknown_agent_rejected (c : Ledger.call) (s : store) (n : Z) :
  let req := match c with Ledger.RecordSale r _ | Ledger.RecordPayout r _ => r end in
  let aId := JS.Number (Http.body req "agentId") in
  (exists resp, Ledger.answer_of s c = (Some resp, s) /\ Http.status resp = 400%Z)
  \/ (PG.int4_in (JS.toString aId) = Some n ->
      agents_by_id s n = [] ->
      Ledger.answer_of s c = (Some (Http.fail 404 "agent not found"), s)).
Proof.
  intros req aId. subst aId.
  destruct c as [r t|r t]; cbn in req; subst req; unfold Ledger.answer_of.
  - unfold serve, Part003.post_api_sales. cbv zeta.
    destruct (negb (JS.isFinite _)) eqn:Ha; [left; cbn; eauto|].
    destruct (negb (JS.isFinite _) || _)%bool eqn:Hp; [left; cbn; eauto|].
    right. intros Hn Hrows. cbn. unfold by_key. cbn. rewrite Hn. cbn. rewrite Hrows. cbn.
    reflexivity.
  - unfold serve, Part003.post_api_payouts. cbv zeta.
    destruct (negb (JS.isFinite _)) eqn:Ha; [left; cbn; eauto|].
    destruct (negb (JS.isFinite _) || _)%bool eqn:Hp; [left; cbn; eauto|].
    right. intros Hn Hrows. cbn. unfold by_key. cbn. rewrite Hn. cbn. rewrite Hrows. cbn.
    reflexivity.
Qed.

(** A payout above the balance the handler reads is answered 400. *)
Lemma insufficient_balance_rejected (req : Http.request) (t : Z) (s : store)
  (n : Z) (a : Agents.row) (rest : list Agents.row) :
  let aId := JS.Number (Http.body req "agentId") in
  let amt := JS.Number (Http.body req "amount") in
  JS.isFinite aId = true ->
  JS.isFinite amt = true ->
  PrimFloat.leb amt PrimFloat.zero = false ->
  PG.int4_in (JS.toString aId) = Some n ->
  agents_by_id s n = a :: rest ->
  PrimFloat.ltb (JS.or_zero (Part003.Number_of_column (Agents.balance a))) amt = true ->
  serve (Part003.post_api_payouts req) t s
  = (Some (Http.fail 400 "insufficient balance"), s).
Proof.
  intros aId amt Ha Hf Hp Hn Hrows Hlt. subst aId amt.
  unfold serve, Part003.post_api_payouts. cbv zeta.
  rewrite Ha, Hf, Hp. cbn [negb orb].
  cbn. unfold by_key. cbn. rewrite Hn. cbn. rewrite Hrows. cbn. rewrite Hlt. cbn.
  reflexivity.
Qed.

(** The same for [POST /api/sales] of [part_001]. *)
Lemma sale_recorded_from_amount (req : Http.request) (t : Z) (s : store)
  (n : Z) (a : Agents.row) (rest : list Agents.row) (cu : option Z) (sp cp cq : Q) :
  let aId := JS.Number (Http.body req "agentId") in
  let cId := if JS.nullish (Http.body req "customerId") then JS.Null
             else JS.Num (JS.Number (Http.body req "customerId")) in
  let amt := JS.Number (Http.body req "amount") in
  let pct := JS.or_zero (Part003.Number_of_column (Agents.commission_percent a)) in
  let amount := PrimFloat.div (PrimFloat.mul amt pct) 100%float in
  JS.isFinite aId = true ->
  JS.isFinite amt = true ->
  PrimFloat.leb amt PrimFloat.zero = false ->
  PG.int4_in (JS.toString aId) = Some n ->
  agents_by_id s n = a :: rest ->
  bind PG.int4_in (PG.param (if JS.Number_isFinite cId then cId else JS.Null)) = PG.Ok cu ->
  match cu with Some k => has_customer s k | None => true end = true ->
  PG.numeric_in (JS.toString amt) = Some sp ->
  PG.numeric_in (JS.toString pct) = Some cp ->
  PG.numeric_in (JS.toString amount) = Some cq ->
  serve (Part001.post_api_sales req) t s
  = (Some (Http.reply (Http.sale_json (sales_id_seq s + 1) pct amount)),
     Ledger.credited s
       {| Sales.id := sales_id_seq s + 1;
          Sales.agent_id := n;
          Sales.customer_id := cu;
          Sales.sale_price := sp;
          Sales.commission_percent := cp;
          Sales.commission_amount := cq;
          Sales.note := PG.param (JS.or (Http.body req "note") JS.Null);
          Sales.created_at := t |}).
Proof.
  intros aId cId amt pct amount Ha Hf Hp Hn Hrows Hcu Hk Hsp Hcp Hcq.
  assert (Hag : has_agent s n = true).
  { unfold has_agent. apply existsb_exists. exists a.
    assert (In a (agents_by_id s n)) as Hin by (rewrite Hrows; left; reflexivity).
    apply filter_In in Hin. exact Hin. }
  subst aId cId amt pct amount.
  unfold serve, Part001.post_api_sales. cbv zeta.
  rewrite Ha. cbn [negb]. rewrite Hf, Hp. cbn [negb orb].
  cbn. unfold by_key. cbn. rewrite Hn. cbn. rewrite Hrows. cbn.
  unfold exec_insert_sale. cbn. rewrite Hn, Hsp, Hcp, Hcq, Hcu. cbn.
  unfold has_agent, has_customer in *. cbn. rewrite Hag, Hk. cbn.
  unfold exec_update_balance. cbn. rewrite Hn, Hcq. cbn.
  reflexivity.
Qed.

End SchemaFacts.

Section DerivedBalance.

Import Index2.
Local Open Scope string_scope.
Local Open Scope Q_scope.

Lemma in_insert_asc (y x : Agents.row) (l : list Agents.row) :
  In x (insert_asc y l) <-> x = y \/ In x l.
Proof.
  induction l as [|z l IH]; cbn.
  - intuition.
  - destruct (before y z); cbn; [intuition|]. rewrite IH. intuition.
Qed.

Lemma in_order_asc (x : Agents.row) (l : list Agents.row) :
  In x (order_asc l) <-> In x l.
Proof.
  unfold order_asc. induction l as [|z r IH]; cbn.
  - reflexivity.
  - rewrite in_insert_asc, IH. intuition.
Qed.

(** Every row [agentTotals] answers with is the totals of a row of [agents]. *)
Lemma agentTotals_rows (id : JS.value) (t : Z) (s : store) (rows : list totals) (s' : store) :
  serve (agentTotals id) t s = (Some rows, s') ->
  s' = s /\ forall row, In row rows -> exists a, In a (agents s) /\ row = totals_of s a.
Proof.
  unfold serve, agentTotals. cbn.
  destruct (JS.truthy _); cbn.
  - unfold by_key. destruct (Schema.bind PG.int4_in _) as [[n|]|e]; cbn.
    + intros E. injection E as <- <-. split; [reflexivity|].
      intros row Hrow. apply in_map_iff in Hrow. destruct Hrow as [a [<- Ha]].
      rewrite in_order_asc, filter_In in Ha. exists a. split; [exact (proj1 Ha)|reflexivity].
    + intros E. injection E as <- <-. split; [reflexivity|]. intros row [].
    + discriminate.
  - intros E. injection E as <- <-. split; [reflexivity|].
    intros row Hrow. apply in_map_iff in Hrow. destruct Hrow as [a [<- Ha]].
    rewrite in_order_asc in Ha. exists a. split; [exact Ha|reflexivity].
Qed.

(** The parameters read, the agent and the customer found: the sale is
    recorded, and the answer and the store are these. *)
Lemma sale_inserted (req : Http.request) (t : Z) (s : store)
  (n k cp : Z) (a : Agents.row) (rest : list Agents.row) (sp cq : Q) :
  let customerId := JS.Number (Http.body req "customerId") in
  let agentId := JS.Number (Http.body req "agentId") in
  let salePrice := JS.Number (Http.body req "salePrice") in
  let pct := Number_of_int_column (Agents.commission_percent a) in
  let commissionAmount := PrimFloat.div (PrimFloat.mul salePrice pct) 100%float in
  JS.truthy (JS.Num customerId) = true ->
  JS.truthy (JS.Num agentId) = true ->
  JS.truthy (JS.Num salePrice) = true ->
  PrimFloat.leb salePrice PrimFloat.zero = false ->
  PG.int4_in (JS.toString agentId) = Some n ->
  filter (fun x => (Agents.id x =? n)%Z) (agents s) = a :: rest ->
  PG.int4_in (JS.toString customerId) = Some k ->
  has_customer s k = true ->
  PG.numeric_in (JS.toString salePrice) = Some sp ->
  PG.int4_in (JS.toString pct) = Some cp ->
  PG.numeric_in (JS.toString commissionAmount) = Some cq ->
  serve (post_api_sales req) t s
  = (Some (Http.reply (Http.sale_json (sales_id_seq s + 1) pct commissionAmount)),
     {| agents := agents s;
        customers := customers s;
        sales := (sales s ++
                  [{| Sales.id := sales_id_seq s + 1;
                      Sales.customer_id := Some k;
                      Sales.agent_id := Some n;
                      Sales.sale_price := sp;
                      Sales.commission_percent := cp;
                      Sales.commission_amount := cq;
                      Sales.created_at := t |}])%list;
        payouts := payouts s;
        agents_id_seq := agents_id_seq s;
        sales_id_seq := sales_id_seq s + 1;
        payouts_id_seq := payouts_id_seq s |}).
Proof.
  intros customerId agentId salePrice pct commissionAmount
         Hc Ha Hs Hp Hn Hrows Hk Hcust Hsp Hcp Hcq.
  assert (Hag : has_agent s n = true).
  { unfold has_agent. apply existsb_exists. exists a.
    assert (In a (filter (fun x => (Agents.id x =? n)%Z) (agents s))) as Hin
      by (rewrite Hrows; left; reflexivity).
    apply filter_In in Hin. exact Hin. }
  subst customerId agentId salePrice pct commissionAmount.
  unfold serve, post_api_sales. cbv zeta.
  rewrite Hc, Ha, Hs, Hp. cbn [negb orb].
  cbn. unfold by_key. cbn. rewrite Hn. cbn. rewrite Hrows. cbn.
  unfold exec_insert_sale. cbn. rewrite Hk, Hn, Hsp, Hcp, Hcq. cbn.
  rewrite Hag, Hcust. cbn. reflexivity.
Qed.

Lemma earned_after_insert (s : store) (r : Sales.row) (n : Z) :
  Sales.agent_id r = Some n ->
  Schema.Qsum (map Sales.commission_amount
                 (filter (fun x => is_agent n (Sales.agent_id x)) (sales s ++ [r])%list))
  == Schema.Qsum (map Sales.commission_amount (sales_of s n)) + Sales.commission_amount r.
Proof.
  intros H. unfold sales_of. rewrite filter_app, map_app, Qsum_app. cbn.
  rewrite H. cbn. rewrite Z.eqb_refl. cbn. ring.
Qed.

(** [POST /api/agents] of [index.js] rejects a percentage outside 0-100. *)
Lemma percent_out_of_range_rejected (req : Http.request) (t : Z) (s : store) :
  let pct := JS.Number (JS.or (Http.body req "commissionPercent") (JS.Num PrimFloat.zero)) in
  is_nan pct = true \/ PrimFloat.ltb pct PrimFloat.zero = true
  \/ PrimFloat.ltb 100%float pct = true ->
  exists msg, serve (post_api_agents req) t s = (Some (Http.fail 400 msg), s).
Proof.
  intros pct H. subst pct. unfold serve, post_api_agents. cbv zeta.
  destruct (negb (JS.truthy (Http.body req "name"))); [cbn; eexists; reflexivity|].
  destruct (negb (JS.truthy (Http.body req "phone"))); [cbn; eexists; reflexivity|].
  assert (E : (is_nan (JS.Number (JS.or (Http.body req "commissionPercent")
                                        (JS.Num PrimFloat.zero)))
               || PrimFloat.ltb (JS.Number (JS.or (Http.body req "commissionPercent")
                                                  (JS.Num PrimFloat.zero)))
                                PrimFloat.zero
               || PrimFloat.ltb 100%float
                    (JS.Number (JS.or (Http.body req "commissionPercent")
                                      (JS.Num PrimFloat.zero))))%bool = true).
  { destruct H as [H|[H|H]]; rewrite H; cbn; rewrite ?orb_true_r; reflexivity. }
  rewrite E. cbn. eexists; reflexivity.
Qed.

(** Case analysis on everything a handler of [index.js] branches on. *)
Ltac branches :=
  repeat (cbn;
          unfold by_key, exec_update_agent, exec_insert_agent, exec_insert_payout,
                 exec_insert_sale;
          cbn;
          match goal with
          | H : PG.int4_in ?x = _ |- context [PG.int4_in ?x] => rewrite H
          | H : PG.numeric_in ?x = _ |- context [PG.numeric_in ?x] => rewrite H
          | |- context [match PG.int4_in ?x with _ => _ end] =>
              destruct (PG.int4_in x) eqn:?
          | |- context [match PG.numeric_in ?x with _ => _ end] =>
              destruct (PG.numeric_in x) eqn:?
          | |- context [match Schema.bind PG.int4_in ?x with _ => _ end] =>
              destruct (Schema.bind PG.int4_in x) as [[?|]|?] eqn:?
          | |- context [match Schema.bind PG.numeric_in ?x with _ => _ end] =>
              destruct (Schema.bind PG.numeric_in x) as [[?|]|?] eqn:?
          | |- context [match PG.param ?v with _ => _ end] =>
              destruct (PG.param v) eqn:?
          | |- context [match filter ?f ?l with _ => _ end] =>
              destruct (filter f l) eqn:?
          | |- context [match Http.body ?r ?k with _ => _ end] =>
              destruct (Http.body r k) eqn:?
          | |- context [if ?b then _ else _] => destruct b eqn:?
          end).

(** [PUT /api/agents/:id] touches no ledger row. *)
Lemma update_keeps_ledger (req : Http.request) (t : Z) (s : store) :
  exists resp s',
    serve (put_api_agents_id req) t s = (Some resp, s')
    /\ sales s' = sales s /\ payouts s' = payouts s /\ customers s' = customers s.
Proof.
  unfold serve, put_api_agents_id. cbv zeta.
  branches; do 2 eexists; (split; [reflexivity|]); repeat split.
Qed.

(** An [INT] between 0 and 100 survives the way to the handler and back. *)
Lemma percent_round_trip (p : Z) :
  (0 <= p <= 100)%Z ->
  PG.int4_in (JS.toString (Number_of_int_column (Some p))) = Some p.
Proof.
  intros H.
  assert (E : forallb (fun q => match PG.int4_in
                                        (JS.toString (Number_of_int_column (Some q))) with
                                | Some r => (r =? q)%Z
                                | None => false
                                end) (map Z.of_nat (seq 0 101)) = true)
    by (vm_compute; reflexivity).
  rewrite forallb_forall in E.
  specialize (E p).
  assert (Hin : In p (map Z.of_nat (seq 0 101))).
  { apply in_map_iff. exists (Z.to_nat p). split; [lia|]. apply in_seq. lia. }
  specialize (E Hin).
  destruct (PG.int4_in (JS.toString (Number_of_int_column (Some p)))) as [r|];
    [|discriminate].
  apply Z.eqb_eq in E. subst r. reflexivity.
Qed.

(** Every row [GET /api/agents/:id/history] answers with is a stored row. *)
Lemma history_answer (req : Http.request) (t : Z) (s : store) (h : history) (s' : store) :
  serve (get_api_agents_id_history req) t s = (Some (history_ok h), s') ->
  s' = s
  /\ (forall row, In row (history_sales h) -> In (fst row) (sales s))
  /\ (forall row, In row (history_payouts h) -> In row (payouts s)).
Proof.
  unfold serve, get_api_agents_id_history, agentTotals. cbv zeta.
  branches; intros E; try discriminate E; injection E as Er Es; subst s' h; cbn.
  all: split; [reflexivity|]; split.
  all: try (intros row []; fail).
  all: intros row Hrow.
  all: try (apply in_map_iff in Hrow; destruct Hrow as [x [<- Hx]]; cbn;
            apply in_firstn in Hx; rewrite in_order_desc in Hx;
            apply filter_In in Hx; tauto).
  all: apply in_firstn in Hrow; rewrite in_order_desc in Hrow;
       apply filter_In in Hrow; tauto.
Qed.

(** A [PUT /api/agents/:id] that carries a new [commissionPercent] alone sets
    the rate of that agent. *)
Lemma update_sets_rate (req : Http.request) (t : Z) (s : store)
  (n p : Z) (a : Agents.row) (rest : list Agents.row) :
  let id := JS.Number (Http.params req "id") in
  let pct := JS.Number (Http.body req "commissionPercent") in
  Http.body req "name" = JS.Undefined ->
  Http.body req "phone" = JS.Undefined ->
  Http.body req "commissionPercent" <> JS.Undefined ->
  JS.truthy (JS.Num id) = true ->
  is_nan pct = false ->
  PrimFloat.ltb pct PrimFloat.zero = false ->
  PrimFloat.ltb 100%float pct = false ->
  PG.int4_in (JS.toString id) = Some n ->
  filter (fun x => (Agents.id x =? n)%Z) (agents s) = a :: rest ->
  PG.int4_in (JS.toString pct) = Some p ->
  exists s',
    serve (put_api_agents_id req) t s = (Some (Http.reply Http.ok_json), s')
    /\ sales s' = sales s
    /\ forall x, In x (agents s') -> Agents.id x = n -> Agents.commission_percent x = Some p.
Proof.
  intros id pct Hname Hphone Hcp Hid Hnan Hlo Hhi Hn Hrows Hp. subst id pct.
  assert (Hag : has_agent s n = true).
  { unfold has_agent. apply existsb_exists. exists a.
    assert (In a (filter (fun x => (Agents.id x =? n)%Z) (agents s))) as Hin
      by (rewrite Hrows; left; reflexivity).
    apply filter_In in Hin. exact Hin. }
  unfold serve, put_api_agents_id. cbv zeta.
  rewrite Hname, Hphone, Hid. cbn [negb].
  destruct (Http.body req "commissionPercent") eqn:Hv; [congruence| | | | |];
    rewrite Hnan, Hlo, Hhi; cbn [orb];
    cbn; unfold by_key; cbn; rewrite Hn; cbn; rewrite Hrows; cbn;
    unfold exec_update_agent; cbn; rewrite Hp, Hn; cbn; rewrite Hag; cbn;
    (eexists; split; [reflexivity|]; split; [reflexivity|]);
    cbn; intros ag Hag' Hagn; apply in_map_iff in Hag'; destruct Hag' as [y [<- Hy]];
    (destruct (Agents.id y =? n)%Z eqn:Hyn; cbn in *;
     [reflexivity | apply Z.eqb_neq in Hyn; contradiction]).
Qed.

End DerivedBalance.

Local Open Scope string_scope.

(** C1. After any finite sequence of completed RecordSale and RecordPayout
    operations the balance reported for an agent is the sum of
    [commission_amount] over the agent's sale rows minus the sum of [amount]
    over the agent's payout rows: the stored [agents.balance] of [part_003]
    keeps that value through every call, its report shows it next to the two
    sums, and the [balance] column of [agentTotals] in [index.js] is that
    difference by construction. *)
Theorem balance_is_ledger_sum
  (s : Schema.store) (cs : list Ledger.call) (s2 : Index2.store) :
  Ledger.balanced s = true ->
  Ledger.balanced (Ledger.after s cs) = true
  /\ (forall req t r s',
        Schema.serve (Part003.get_api_agents_id_report req) t (Ledger.after s cs)
        = (Some (Part003.report_ok r), s') ->
        exists b,
          Schema.Agents.balance (Part003.agent r) = Some b
          /\ b == Part003.commissionTotal r - Part003.payoutsTotal r
          /\ Part003.commissionTotal r
             = Schema.Qsum (map Schema.Sales.commission_amount
                              (Schema.sales_of (Ledger.after s cs)
                                 (Schema.Agents.id (Part003.agent r))))
          /\ Part003.payoutsTotal r
             = Schema.Qsum (map Schema.Payouts.amount
                              (Schema.payouts_of (Ledger.after s cs)
                                 (Schema.Agents.id (Part003.agent r)))))
  /\ (forall id t rows s' row,
        Index2.serve (Index2.agentTotals id) t s2 = (Some rows, s') ->
        In row rows ->
        Index2.balance row
        == Schema.Qsum (map Index2.Sales.commission_amount
                          (Index2.sales_of s2 (Index2.id row)))
           - Schema.Qsum (map Index2.Payouts.amount
                            (Index2.payouts_of s2 (Index2.id row)))).
Proof.
  intros H. pose proof (balanced_after cs s H) as Hb.
  split; [exact Hb|]. split.
  - intros req t r s' E. apply report_answer in E.
    destruct E as [_ [Hin [Hc [Hp _]]]].
    unfold Ledger.balanced in Hb. rewrite forallb_forall in Hb.
    specialize (Hb _ Hin). unfold Ledger.balanced_row in Hb.
    destruct (Schema.Agents.balance (Part003.agent r)) as [b|]; [|discriminate].
    apply Qeq_bool_iff in Hb. exists b. rewrite Hc, Hp. repeat split; auto.
  - intros id t rows s' row E Hrow. apply agentTotals_rows in E.
    destruct E as [_ E]. destruct (E row Hrow) as [a [_ ->]]. cbn. reflexivity.
Qed.

(** The scenario of the specification, from agent "A" at 10 percent. *)
Lemma balance_is_ledger_sum_witness :
  Ledger.balanced Fixtures.agent_A = true
  /\ Ledger.balanced (Ledger.after Fixtures.agent_A Fixtures.scenario) = true.
Proof.
  split.
  - vm_compute. reflexivity.
  - apply (balance_is_ledger_sum Fixtures.agent_A Fixtures.scenario Fixtures.shop).
    vm_compute. reflexivity.
Defined.




(** C6. A RecordSale or RecordPayout call that fails on validation, on an
    unknown agent or on an insufficient balance is answered 400 or 404, and
    every call answered so leaves the store as it was: the same rows, the
    same balances, the same sequences. *)
Theorem failed_call_leaves_store_unchanged
  (s : Schema.store) (c : Ledger.call) (resp : Http.response) (s' : Schema.store) :
  Ledger.answer_of s c = (Some resp, s') ->
  Http.status resp = 400%Z \/ Http.status resp = 404%Z ->
  s' = s.
Proof.
  intros E H. destruct c as [req t|req t]; unfold Ledger.answer_of in E.
  - destruct (sale_cases req t s) as [r [s1 [E1 C]]].
    rewrite E in E1. injection E1 as <- <-.
    destruct C as [[_ ->]|[[_ ->]|[[C _]|[C _]]]]; auto;
      rewrite C in H; destruct H; discriminate.
  - destruct (payout_cases req t s) as [r [s1 [E1 C]]].
    rewrite E in E1. injection E1 as <- <-.
    destruct C as [[_ ->]|[[_ ->]|[[C _]|[C _]]]]; auto;
      rewrite C in H; destruct H; discriminate.
Qed.

(** The payout of 25 of the scenario, against a balance of 20. *)
Lemma failed_call_leaves_store_unchanged_witness :
  Ledger.perform
    (Ledger.perform Fixtures.agent_A (Ledger.RecordSale (Fixtures.sale_of 200%float) 2))
    (Ledger.RecordPayout (Fixtures.payout_of 25%float) 3)
  = Ledger.perform Fixtures.agent_A (Ledger.RecordSale (Fixtures.sale_of 200%float) 2).
Proof.
  apply (failed_call_leaves_store_unchanged
           (Ledger.perform Fixtures.agent_A
              (Ledger.RecordSale (Fixtures.sale_of 200%float) 2))
           (Ledger.RecordPayout (Fixtures.payout_of 25%float) 3)
           (Http.fail 400 "insufficient balance")).
  - vm_compute. reflexivity.
  - left. reflexivity.
Defined.

(** C2 at its failing input.  Agent "A" earns 1.9989999999999997 and 1000000:
    the balance is 1000001.9989999999999997.  A payout of 1000001.999 exceeds
    it, yet the handler compares the two as doubles, where they are equal: the
    payout is accepted and the balance becomes negative.  The same happens in
    [index.js] on the derived balance. *)
Theorem payout_above_balance_accepted :
  let s := Ledger.after Fixtures.agent_A Fixtures.two_sales in
  let s' := Ledger.perform s (Ledger.RecordPayout (Fixtures.payout_of 1000001.999%float) 4) in
  let s2 := Fixtures.shop_after_two_sales in
  let payout2 := Fixtures.on_id "1" [("amount", JS.Num 1000001.999%float)] in
  (* part_003 *)
  map Schema.Agents.balance (Schema.agents s)
  = [Some (10000019989999999999997 # 10000000000000000)]
  /\ PG.numeric_in (JS.toString 1000001.999%float) = Some (1000001999 # 1000)
  /\ (10000019989999999999997 # 10000000000000000) < (1000001999 # 1000)
  /\ fst (Ledger.answer_of s (Ledger.RecordPayout (Fixtures.payout_of 1000001.999%float) 4))
     = Some (Http.reply (Http.id_json 1))
  /\ map Schema.Payouts.amount (Schema.payouts s') = [1000001999 # 1000]
  /\ (exists b, map Schema.Agents.balance (Schema.agents s') = [Some b]
                /\ b == - (3 # 10000000000000000) /\ b < 0)
  (* index.js *)
  /\ (exists rows row,
        fst (Index2.serve (Index2.agentTotals (JS.Num 1%float)) 4 s2) = Some rows
        /\ rows = [row]
        /\ Index2.balance row == 10000019989999999999997 # 10000000000000000)
  /\ fst (Index2.serve (Index2.post_api_agents_id_payouts payout2) 4 s2)
     = Some (Http.reply (Http.id_json 1))
  /\ (exists rows row,
        fst (Index2.serve (Index2.agentTotals (JS.Num 1%float)) 5
               (snd (Index2.serve (Index2.post_api_agents_id_payouts payout2) 4 s2)))
        = Some rows
        /\ rows = [row]
        /\ Index2.balance row < 0).
Proof.
  cbv zeta.
  split; [vm_compute; reflexivity|].
  split; [vm_compute; reflexivity|].
  split; [vm_compute; reflexivity|].
  split; [vm_compute; reflexivity|].
  split; [vm_compute; reflexivity|].
  split.
  { eexists. split; [vm_compute; reflexivity|]. split; vm_compute; reflexivity. }
  split.
  { do 2 eexists. split; [vm_compute; reflexivity|]. split; [reflexivity|].
    vm_compute. reflexivity. }
  split; [vm_compute; reflexivity|].
  do 2 eexists. split; [vm_compute; reflexivity|]. split; [reflexivity|].
  vm_compute. reflexivity.
Qed.

(** C8 at its failing input.  [POST /api/agents] of [part_003] does not look
    at the range of [commissionPercent]: 150 and -5 are stored as given, where
    [index.js] answers 400 "commissionPercent must be 0-100". *)
Theorem percent_out_of_range_stored :
  let over := Fixtures.post [("name", JS.Str "A"); ("commissionPercent", JS.Num 150%float)] in
  let under := Fixtures.post [("name", JS.Str "B");
                              ("commissionPercent", JS.Num (-5)%float)] in
  fst (Schema.serve (Part003.post_api_agents over) 1 Fixtures.empty)
  = Some (Http.reply (Http.id_json 1))
  /\ map Schema.Agents.commission_percent
       (Schema.agents (snd (Schema.serve (Part003.post_api_agents over) 1 Fixtures.empty)))
     = [Some (150 # 1)]
  /\ fst (Schema.serve (Part003.post_api_agents under) 1 Fixtures.empty)
     = Some (Http.reply (Http.id_json 1))
  /\ map Schema.Agents.commission_percent
       (Schema.agents (snd (Schema.serve (Part003.post_api_agents under) 1 Fixtures.empty)))
     = [Some (- 5 # 1)]
  /\ Index2.serve
       (Index2.post_api_agents
          (Fixtures.post [("name", JS.Str "A"); ("phone", JS.Str "0888885588");
                          ("commissionPercent", JS.Num 150%float)])) 1 Fixtures.shop
     = (Some (Http.fail 400 "commissionPercent must be 0-100"), Fixtures.shop).
Proof.
  cbv zeta. repeat split; vm_compute; reflexivity.
Qed.






Section Middleware.

Lemma prefix_nonempty (h : string) : JS.startsWith h "Bearer " = true -> String.eqb h "" = false.
Proof. destruct h; [discriminate|reflexivity]. Qed.

(** The verdict of [auth] in [part_003] on a request with a Bearer header. *)
Lemma auth_on_bearer (env : env_var) (req : Http.request) (h : string) :
  header req "authorization" = Some h ->
  JS.startsWith h "Bearer " = true ->
  Part003.auth env req
  = if (String.eqb (Part003.API_KEY env) ""
        || String.eqb (JS.trim (JS.replace_first h "Bearer ")) ""
        || negb (String.eqb (JS.trim (JS.replace_first h "Bearer ")) (Part003.API_KEY env)))%bool
    then answer (Http.fail 401 "Unauthorized")
    else next.
Proof.
  intros Hh Hp. unfold Part003.auth. rewrite Hh, Hp, (prefix_nonempty h Hp). cbn [negb andb].
  destruct (header req "x-api-key") as [k|]; [destruct (String.eqb k "")|]; reflexivity.
Qed.

Lemma auth_on_bearer_001 (env : env_var) (req : Http.request) (h : string) :
  header req "authorization" = Some h ->
  JS.startsWith h "Bearer " = true ->
  Part001.auth env req
  = if (String.eqb (Part001.API_KEY env) ""
        || String.eqb (JS.trim (JS.replace_first h "Bearer ")) ""
        || negb (String.eqb (JS.trim (JS.replace_first h "Bearer ")) (Part001.API_KEY env)))%bool
    then answer (Http.fail 401 "Unauthorized")
    else next.
Proof.
  intros Hh Hp. unfold Part001.auth. rewrite Hh, Hp, (prefix_nonempty h Hp). cbn [negb andb].
  destruct (header req "x-api-key") as [k|]; [destruct (String.eqb k "")|]; reflexivity.
Qed.

Lemma auth_on_bearer_000 (env : env_var) (req : Http.request) (h : string) :
  header req "authorization" = Some h ->
  JS.startsWith h "Bearer " = true ->
  Part000.auth env req
  = let realKey := match env with
                   | Some k => if String.eqb k "" then "" else JS.trim k
                   | None => ""
                   end in
    if String.eqb realKey "" then answer (Http.fail 500 "Server misconfigured")
    else if (String.eqb (JS.trim (JS.substring_from 7 h)) ""
             || negb (String.eqb (JS.trim (JS.substring_from 7 h)) realKey))%bool
         then answer (Http.fail 401 "Unauthorized")
         else next.
Proof.
  intros Hh Hp. unfold Part000.auth. rewrite Hh, Hp, (prefix_nonempty h Hp). cbn [negb andb].
  destruct (header req "x-api-key") as [k|]; [destruct (String.eqb k "")|]; reflexivity.
Qed.

(** The verdict of [auth] in [part_003] on a request without a Bearer
    header: the [x-api-key] header decides. *)
Lemma auth_on_key (env : env_var) (req : Http.request) :
  (forall h, header req "authorization" = Some h -> JS.startsWith h "Bearer " = false) ->
  Part003.auth env req
  = match header req "x-api-key" with
    | Some k =>
        if (String.eqb (Part003.API_KEY env) "" || String.eqb k ""
            || negb (String.eqb k (Part003.API_KEY env)))%bool
        then answer (Http.fail 401 "Unauthorized")
        else next
    | None => answer (Http.fail 401 "Unauthorized")
    end.
Proof.
  intros Hb. unfold Part003.auth.
  assert (E : forall tok : option string,
            match header req "authorization" with
            | Some h =>
                if (negb (String.eqb h "") && JS.startsWith h "Bearer ")%bool
                then Some (JS.trim (JS.replace_first h "Bearer "))
                else tok
            | None => tok
            end = tok).
  { intros tok. destruct (header req "authorization") as [h|]; [|reflexivity].
    rewrite (Hb h eq_refl), andb_false_r. reflexivity. }
  cbv zeta. rewrite E.
  destruct (header req "x-api-key") as [k|]; [|reflexivity].
  destruct (String.eqb k "") eqn:Hk; [|rewrite Hk; reflexivity].
  rewrite orb_true_r. reflexivity.
Qed.

Lemma auth_on_key_000 (env : env_var) (req : Http.request) :
  (forall h, header req "authorization" = Some h -> JS.startsWith h "Bearer " = false) ->
  Part000.auth env req
  = let realKey := match env with
                   | Some k => if String.eqb k "" then "" else JS.trim k
                   | None => ""
                   end in
    if String.eqb realKey "" then answer (Http.fail 500 "Server misconfigured")
    else match header req "x-api-key" with
         | Some k =>
             if (String.eqb k "" || String.eqb (JS.trim k) ""
                 || negb (String.eqb (JS.trim k) realKey))%bool
             then answer (Http.fail 401 "Unauthorized")
             else next
         | None => answer (Http.fail 401 "Unauthorized")
         end.
Proof.
  intros Hb. unfold Part000.auth.
  assert (E : forall tok : option string,
            match header req "authorization" with
            | Some h =>
                if (negb (String.eqb h "") && JS.startsWith h "Bearer ")%bool
                then Some (JS.trim (JS.substring_from 7 h))
                else tok
            | None => tok
            end = tok).
  { intros tok. destruct (header req "authorization") as [h|]; [|reflexivity].
    rewrite (Hb h eq_refl), andb_false_r. reflexivity. }
  cbv zeta. rewrite E.
  destruct (String.eqb _ ""); [reflexivity|].
  destruct (header req "x-api-key") as [k|]; [|reflexivity].
  destruct (String.eqb k ""); reflexivity.
Qed.

(** A request has a Bearer header or it has not. *)
Lemma bearer_or_not (req : Http.request) :
  (exists h, header req "authorization" = Some h /\ JS.startsWith h "Bearer " = true)
  \/ (forall h, header req "authorization" = Some h -> JS.startsWith h "Bearer " = false).
Proof.
  destruct (header req "authorization") as [h|]; [|right; intros h H; discriminate H].
  destruct (JS.startsWith h "Bearer ") eqn:E.
  - left. exists h. auto.
  - right. intros h' H. injection H as <-. exact E.
Qed.

(** [auth] of [part_003] lets a request through exactly when a secret is
    configured and the credential of the request is that secret: the trimmed
    text after "Bearer " when there is a Bearer header, the [x-api-key] value
    when there is none. *)
Lemma auth_accepts (env : env_var) (req : Http.request) :
  Part003.auth env req = next
  <-> Part003.API_KEY env <> ""
      /\ ((exists h, header req "authorization" = Some h
                     /\ JS.startsWith h "Bearer " = true
                     /\ JS.trim (JS.replace_first h "Bearer ") = Part003.API_KEY env)
          \/ ((forall h, header req "authorization" = Some h ->
                         JS.startsWith h "Bearer " = false)
              /\ header req "x-api-key" = Some (Part003.API_KEY env))).
Proof.
  destruct (bearer_or_not req) as [(h & Hh & Hp)|Hb].
  - rewrite (auth_on_bearer env req h Hh Hp).
    destruct (String.eqb (Part003.API_KEY env) "") eqn:H1; cbn [orb].
    { apply String.eqb_eq in H1. split; [discriminate|]. intros [H _]. contradiction. }
    apply String.eqb_neq in H1.
    destruct (String.eqb (JS.trim (JS.replace_first h "Bearer ")) "") eqn:H2; cbn [orb].
    { apply String.eqb_eq in H2. split; [discriminate|].
      intros [_ [(h' & Hh' & _ & E)|[Hn _]]].
      - rewrite Hh in Hh'. injection Hh' as <-. congruence.
      - rewrite (Hn h Hh) in Hp. discriminate Hp. }
    destruct (String.eqb (JS.trim (JS.replace_first h "Bearer ")) (Part003.API_KEY env))
      eqn:H3; cbn [negb].
    + apply String.eqb_eq in H3. split; [|reflexivity]. intros _.
      split; [exact H1|]. left. exists h. auto.
    + apply String.eqb_neq in H3. split; [discriminate|].
      intros [_ [(h' & Hh' & _ & E)|[Hn _]]].
      * rewrite Hh in Hh'. injection Hh' as <-. contradiction.
      * rewrite (Hn h Hh) in Hp. discriminate Hp.
  - rewrite (auth_on_key env req Hb).
    assert (Hnone : ~ exists h, header req "authorization" = Some h
                                /\ JS.startsWith h "Bearer " = true
                                /\ JS.trim (JS.replace_first h "Bearer ")
                                   = Part003.API_KEY env).
    { intros (h & Hh & Hp & _). rewrite (Hb h Hh) in Hp. discriminate Hp. }
    destruct (header req "x-api-key") as [k|].
    2:{ split; [discriminate|]. intros [_ [H|[_ H]]]; [contradiction|discriminate H]. }
    destruct (String.eqb (Part003.API_KEY env) "") eqn:H1; cbn [orb].
    { apply String.eqb_eq in H1. split; [discriminate|]. intros [H _]. contradiction. }
    apply String.eqb_neq in H1.
    destruct (String.eqb k "") eqn:H2; cbn [orb].
    { apply String.eqb_eq in H2. split; [discriminate|].
      intros [_ [H|[_ H]]]; [contradiction|]. injection H as H. congruence. }
    destruct (String.eqb k (Part003.API_KEY env)) eqn:H3; cbn [negb].
    + apply String.eqb_eq in H3. subst k. split; [|reflexivity]. intros _.
      split; [exact H1|]. right. split; [exact Hb|reflexivity].
    + apply String.eqb_neq in H3. split; [discriminate|].
      intros [_ [H|[_ H]]]; [contradiction|]. injection H as H. congruence.
Qed.

(** The same of [part_000], where the secret and the [x-api-key] value are
    trimmed as well. *)
Lemma auth_accepts_000 (key : string) (req : Http.request) :
  JS.trim key <> "" ->
  (Part000.auth (Some key) req = next
   <-> ((exists h, header req "authorization" = Some h
                   /\ JS.startsWith h "Bearer " = true
                   /\ JS.trim (JS.substring_from 7 h) = JS.trim key)
        \/ ((forall h, header req "authorization" = Some h ->
                       JS.startsWith h "Bearer " = false)
            /\ exists k, header req "x-api-key" = Some k /\ JS.trim k = JS.trim key))).
Proof.
  intros Hkey.
  assert (Hne : String.eqb key "" = false).
  { apply String.eqb_neq. intros ->. apply Hkey. reflexivity. }
  assert (Hreal : String.eqb (JS.trim key) "" = false) by (apply String.eqb_neq; exact Hkey).
  destruct (bearer_or_not req) as [(h & Hh & Hp)|Hb].
  - rewrite (auth_on_bearer_000 (Some key) req h Hh Hp). cbv zeta. rewrite Hne, Hreal.
    destruct (String.eqb (JS.trim (JS.substring_from 7 h)) "") eqn:H2; cbn [orb].
    { apply String.eqb_eq in H2. split; [discriminate|].
      intros [(h' & Hh' & _ & E)|[Hn _]].
      - rewrite Hh in Hh'. injection Hh' as <-. congruence.
      - rewrite (Hn h Hh) in Hp. discriminate Hp. }
    destruct (String.eqb (JS.trim (JS.substring_from 7 h)) (JS.trim key)) eqn:H3; cbn [negb].
    + apply String.eqb_eq in H3. split; [|reflexivity]. intros _. left. exists h. auto.
    + apply String.eqb_neq in H3. split; [discriminate|].
      intros [(h' & Hh' & _ & E)|[Hn _]].
      * rewrite Hh in Hh'. injection Hh' as <-. contradiction.
      * rewrite (Hn h Hh) in Hp. discriminate Hp.
  - rewrite (auth_on_key_000 (Some key) req Hb). cbv zeta. rewrite Hne, Hreal.
    assert (Hnone : ~ exists h, header req "authorization" = Some h
                                /\ JS.startsWith h "Bearer " = true
                                /\ JS.trim (JS.substring_from 7 h) = JS.trim key).
    { intros (h & Hh & Hp & _). rewrite (Hb h Hh) in Hp. discriminate Hp. }
    destruct (header req "x-api-key") as [k|].
    2:{ split; [discriminate|].
        intros [H|[_ (k & H & _)]]; [contradiction|discriminate H]. }
    destruct (String.eqb k "") eqn:H1; cbn [orb].
    { apply String.eqb_eq in H1. subst k. split; [discriminate|].
      intros [H|[_ (k & H & E)]]; [contradiction|]. injection H as <-.
      exfalso. apply Hkey. rewrite <- E. reflexivity. }
    destruct (String.eqb (JS.trim k) "") eqn:H2; cbn [orb].
    { apply String.eqb_eq in H2. split; [discriminate|].
      intros [H|[_ (k' & H & E)]]; [contradiction|]. injection H as <-. congruence. }
    destruct (String.eqb (JS.trim k) (JS.trim key)) eqn:H3; cbn [negb].
    + apply String.eqb_eq in H3. split; [|reflexivity]. intros _.
      right. split; [exact Hb|]. exists k. auto.
    + apply String.eqb_neq in H3. split; [discriminate|].
      intros [H|[_ (k' & H & E)]]; [contradiction|]. injection H as <-. contradiction.
Qed.

(** [auth] of [part_003] lets through or answers 401. *)
Lemma auth_verdicts (env : env_var) (req : Http.request) :
  Part003.auth env req = next
  \/ Part003.auth env req = answer (Http.fail 401 "Unauthorized").
Proof.
  unfold Part003.auth.
  destruct (header req "authorization") as [h|];
    [destruct (negb (String.eqb h "") && JS.startsWith h "Bearer ")%bool|];
    destruct (header req "x-api-key") as [k|]; try destruct (String.eqb k "");
    try (destruct (_ || _ || _)%bool); auto.
Qed.

Lemma auth_without_secret (env : env_var) (req : Http.request) :
  Part003.API_KEY env = "" ->
  Part003.auth env req = answer (Http.fail 401 "Unauthorized").
Proof.
  intros H. unfold Part003.auth. rewrite H. cbn.
  destruct (header req "authorization") as [h|];
    [destruct (negb (String.eqb h "") && JS.startsWith h "Bearer ")%bool|];
    destruct (header req "x-api-key") as [k|]; try destruct (String.eqb k "");
    reflexivity.
Qed.

(** [part_001] has the middleware of [part_003]. *)
Lemma auth_001 (env : env_var) (req : Http.request) :
  Part001.auth env req = Part003.auth env req.
Proof. reflexivity. Qed.

End Middleware.

(** C10. When a request carries both an [x-api-key] header and an
    [Authorization] header that starts with "Bearer ", the verdict of [auth]
    depends on the Bearer token alone and is the comparison of that token
    with the secret: the [x-api-key] value is overwritten, a wrong Bearer
    token is answered 401 even when the [x-api-key] value is the secret, and
    the right Bearer token is let through whatever the [x-api-key] value is
    ([part_003], [part_001], [part_000]). *)
Theorem bearer_token_overrides_api_key
  (env : env_var) (req : Http.request) (k h : string) :
  header req "x-api-key" = Some k ->
  header req "authorization" = Some h ->
  JS.startsWith h "Bearer " = true ->
  (* the verdict is a function of the Bearer header and the key *)
  (forall req' : Http.request,
      header req' "authorization" = Some h ->
      Part003.auth env req' = Part003.auth env req
      /\ Part001.auth env req' = Part001.auth env req
      /\ Part000.auth env req' = Part000.auth env req)
  (* a wrong token is rejected, whatever [x-api-key] says *)
  /\ (JS.trim (JS.replace_first h "Bearer ") <> Part003.API_KEY env ->
      Part003.auth env req = answer (Http.fail 401 "Unauthorized")
      /\ Part001.auth env req = answer (Http.fail 401 "Unauthorized"))
  /\ (forall key, env = Some key -> JS.trim key <> "" ->
      JS.trim (JS.substring_from 7 h) <> JS.trim key ->
      Part000.auth env req = answer (Http.fail 401 "Unauthorized"))
  (* the right token is let through, whatever [x-api-key] says *)
  /\ (Part003.API_KEY env <> "" ->
      JS.trim (JS.replace_first h "Bearer ") = Part003.API_KEY env ->
      Part003.auth env req = next /\ Part001.auth env req = next)
  /\ (forall key, env = Some key -> JS.trim key <> "" ->
      JS.trim (JS.substring_from 7 h) = JS.trim key ->
      Part000.auth env req = next).
Proof.
  intros Hk Hh Hp. split; [|split; [|split; [|split]]].
  - intros req' Hh'.
    rewrite (auth_on_bearer env req h Hh Hp), (auth_on_bearer env req' h Hh' Hp).
    rewrite (auth_on_bearer_001 env req h Hh Hp), (auth_on_bearer_001 env req' h Hh' Hp).
    rewrite (auth_on_bearer_000 env req h Hh Hp), (auth_on_bearer_000 env req' h Hh' Hp).
    auto.
  - intros Hne.
    rewrite (auth_on_bearer env req h Hh Hp), (auth_on_bearer_001 env req h Hh Hp).
    apply String.eqb_neq in Hne.
    change (Part001.API_KEY env) with (Part003.API_KEY env).
    rewrite Hne. cbn. rewrite !orb_true_r. auto.
  - intros key -> Hkey Hne.
    rewrite (auth_on_bearer_000 (Some key) req h Hh Hp). cbv zeta.
    apply String.eqb_neq in Hne.
    destruct (String.eqb key "") eqn:Hempty.
    + apply String.eqb_eq in Hempty. subst key. exfalso. apply Hkey. reflexivity.
    + apply String.eqb_neq in Hkey. rewrite Hkey, Hne. cbn. rewrite orb_true_r. reflexivity.
  - intros Hkey Heq.
    rewrite (auth_on_bearer env req h Hh Hp), (auth_on_bearer_001 env req h Hh Hp).
    change (Part001.API_KEY env) with (Part003.API_KEY env).
    rewrite Heq, String.eqb_refl. apply String.eqb_neq in Hkey. rewrite Hkey. cbn. auto.
  - intros key -> Hkey Heq.
    rewrite (auth_on_bearer_000 (Some key) req h Hh Hp). cbv zeta.
    destruct (String.eqb key "") eqn:Hempty.
    + apply String.eqb_eq in Hempty. subst key. exfalso. apply Hkey. reflexivity.
    + rewrite Heq, String.eqb_refl. apply String.eqb_neq in Hkey. rewrite Hkey. reflexivity.
Qed.

(** A request with the secret in [x-api-key] and a wrong Bearer token is
    answered 401; one with a wrong [x-api-key] and the secret as Bearer token
    is let through. *)
Lemma bearer_token_overrides_api_key_witness :
  Part003.auth (Some "secret")
    (Fixtures.with_headers [("x-api-key", JS.Str "secret");
                            ("authorization", JS.Str "Bearer wrong")])
  = answer (Http.fail 401 "Unauthorized")
  /\ Part003.auth (Some "secret")
       (Fixtures.with_headers [("x-api-key", JS.Str "wrong");
                               ("authorization", JS.Str "Bearer secret")])
     = next
  /\ Part000.auth (Some " secret ")
       (Fixtures.with_headers [("x-api-key", JS.Str "wrong");
                               ("authorization", JS.Str "Bearer  secret")])
     = next.
Proof.
  split; [|split].
  - apply (proj1 (proj2 (bearer_token_overrides_api_key
                           (Some "secret")
                           (Fixtures.with_headers [("x-api-key", JS.Str "secret");
                                                   ("authorization", JS.Str "Bearer wrong")])
                           "secret" "Bearer wrong" eq_refl eq_refl eq_refl))).
    vm_compute. intros H. discriminate H.
  - apply (proj1 (proj2 (proj2 (proj2 (bearer_token_overrides_api_key
                           (Some "secret")
                           (Fixtures.with_headers [("x-api-key", JS.Str "wrong");
                                                   ("authorization", JS.Str "Bearer secret")])
                           "wrong" "Bearer secret" eq_refl eq_refl eq_refl))))).
    + vm_compute. intros H. discriminate H.
    + vm_compute. reflexivity.
  - apply (proj2 (proj2 (proj2 (proj2 (bearer_token_overrides_api_key
                           (Some " secret ")
                           (Fixtures.with_headers [("x-api-key", JS.Str "wrong");
                                                   ("authorization", JS.Str "Bearer  secret")])
                           "wrong" "Bearer  secret" eq_refl eq_refl eq_refl))))
             " secret " eq_refl).
    + vm_compute. intros H. discriminate H.
    + vm_compute. reflexivity.
Defined.

(** C7, as stated, fails on [part_003]: with the secret missing from the
    configuration a request is answered 401, not 500. *)
Lemma missing_secret_is_answered_401 :
  exists r,
    Part003.auth None (Fixtures.with_headers [("x-api-key", JS.Str "secret")]) = answer r
    /\ Http.status r = 401%Z
    /\ Http.status r <> 500%Z.
Proof.
  eexists. split; [vm_compute; reflexivity|]. split; [reflexivity|].
  cbn. intros H. discriminate H.
Qed.

(** C7, amended.  The credential of a request is the trimmed text after
    "Bearer " when its [Authorization] header begins with "Bearer ", and the
    [x-api-key] value otherwise.  In [part_003] and [part_001], [auth] lets a
    request through exactly when the configured secret is not empty and the
    credential is that secret; every other request is answered 401, and so
    is every request when the secret is missing.  In [part_000] the secret
    and the [x-api-key] value are trimmed too: with a secret that is not
    blank a request is let through exactly when its credential is the
    trimmed secret and answered 401 otherwise, and with the secret missing
    or blank every request is answered 500.  In the first [index.js] the
    [x-api-key] value alone decides: with a secret configured a request is
    let through exactly when the header is that secret and answered 401
    otherwise.  A request that [auth] answers issues no statement: the store
    is not read and stays as it is. *)
Theorem rejected_requests_never_reach_the_store :
  (* part_003 *)
  (forall env req,
      Part003.auth env req = next
      \/ Part003.auth env req = answer (Http.fail 401 "Unauthorized"))
  /\ (forall env req,
         Part003.auth env req = next
         <-> Part003.API_KEY env <> ""
             /\ ((exists h, header req "authorization" = Some h
                            /\ JS.startsWith h "Bearer " = true
                            /\ JS.trim (JS.replace_first h "Bearer ") = Part003.API_KEY env)
                 \/ ((forall h, header req "authorization" = Some h ->
                                JS.startsWith h "Bearer " = false)
                     /\ header req "x-api-key" = Some (Part003.API_KEY env))))
  /\ (forall env req,
         Part003.API_KEY env = "" ->
         Part003.auth env req = answer (Http.fail 401 "Unauthorized"))
  (* part_001 *)
  /\ (forall env req,
         Part001.auth env req = next
         \/ Part001.auth env req = answer (Http.fail 401 "Unauthorized"))
  /\ (forall env req,
         Part001.auth env req = next
         <-> Part001.API_KEY env <> ""
             /\ ((exists h, header req "authorization" = Some h
                            /\ JS.startsWith h "Bearer " = true
                            /\ JS.trim (JS.replace_first h "Bearer ") = Part001.API_KEY env)
                 \/ ((forall h, header req "authorization" = Some h ->
                                JS.startsWith h "Bearer " = false)
                     /\ header req "x-api-key" = Some (Part001.API_KEY env))))
  /\ (forall env req,
         Part001.API_KEY env = "" ->
         Part001.auth env req = answer (Http.fail 401 "Unauthorized"))
  (* part_000 *)
  /\ (forall req, Part000.auth None req = answer (Http.fail 500 "Server misconfigured"))
  /\ (forall key req,
         JS.trim key = "" ->
         Part000.auth (Some key) req = answer (Http.fail 500 "Server misconfigured"))
  /\ (forall key req,
         JS.trim key <> "" ->
         (Part000.auth (Some key) req = next
          \/ Part000.auth (Some key) req = answer (Http.fail 401 "Unauthorized"))
         /\ (Part000.auth (Some key) req = next
             <-> ((exists h, header req "authorization" = Some h
                             /\ JS.startsWith h "Bearer " = true
                             /\ JS.trim (JS.substring_from 7 h) = JS.trim key)
                  \/ ((forall h, header req "authorization" = Some h ->
                                 JS.startsWith h "Bearer " = false)
                      /\ exists k, header req "x-api-key" = Some k
                                   /\ JS.trim k = JS.trim key))))
  (* index.js, first version *)
  /\ (forall key req,
         (Index1.auth (Some key) req = next /\ header req "x-api-key" = Some key)
         \/ (Index1.auth (Some key) req = answer (Http.fail 401 "Unauthorized")
             /\ header req "x-api-key" <> Some key))
  (* an answered request issues no statement *)
  /\ (forall (auth : Http.request -> verdict)
             (handler : Http.request -> Schema.prog Http.response)
             (req : Http.request) (r : Http.response) (t : Z) (s : Schema.store),
         auth req = answer r ->
         protected auth handler req = PG.Ret r
         /\ Schema.serve (protected auth handler req) t s = (Some r, s)).
Proof.
  split; [exact auth_verdicts|].
  split; [exact auth_accepts|].
  split; [exact auth_without_secret|].
  split; [exact auth_verdicts|].
  split; [exact auth_accepts|].
  split; [exact auth_without_secret|].
  split; [|split; [|split; [|split]]].
  - intros req. unfold Part000.auth. reflexivity.
  - intros key req H. unfold Part000.auth.
    destruct (String.eqb key ""); [reflexivity|]. rewrite H. reflexivity.
  - intros key req H. split; [|exact (auth_accepts_000 key req H)].
    assert (Hkey : String.eqb key "" = false).
    { apply String.eqb_neq. intros ->. apply H. reflexivity. }
    apply String.eqb_neq in H.
    unfold Part000.auth. rewrite Hkey, H.
    destruct (header req "authorization") as [h|];
      [destruct (negb (String.eqb h "") && JS.startsWith h "Bearer ")%bool|];
      destruct (header req "x-api-key") as [k|]; try destruct (String.eqb k "");
      try (destruct (_ || _)%bool); auto.
  - intros key req. unfold Index1.auth, Index1.API_KEY, Index1.strict_neq.
    destruct (header req "x-api-key") as [k|].
    + destruct (String.eqb k key) eqn:E; cbn [negb].
      * left. apply String.eqb_eq in E. subst k. auto.
      * right. apply String.eqb_neq in E. split; [reflexivity|]. congruence.
    + right. split; [reflexivity|discriminate].
  - intros auth handler req r t s H. unfold protected. rewrite H. split; reflexivity.
Qed.

(** On a protected route of [part_003]: a request without any credential
    is answered 401 and leaves the store alone, a wrong Bearer token beside
    the right [x-api-key] is not let through, and the right Bearer token
    is. *)
Lemma rejected_requests_never_reach_the_store_witness :
  Schema.serve
    (protected (Part003.auth (Some "secret")) Part003.post_api_sales
       (Fixtures.sale_of 200%float)) 2 Fixtures.agent_A
  = (Some (Http.fail 401 "Unauthorized"), Fixtures.agent_A)
  /\ Part003.auth (Some "secret")
       (Fixtures.with_headers [("x-api-key", JS.Str "secret");
                               ("authorization", JS.Str "Bearer wrong")])
     <> next
  /\ Part003.auth (Some "secret")
       (Fixtures.with_headers [("x-api-key", JS.Str "wrong");
                               ("authorization", JS.Str "Bearer secret")])
     = next.
Proof.
  split; [|split].
  - apply (proj2 (proj2 (proj2 (proj2 (proj2 (proj2 (proj2 (proj2 (proj2 (proj2
             rejected_requests_never_reach_the_store)))))))))
             (Part003.auth (Some "secret")) Part003.post_api_sales
             (Fixtures.sale_of 200%float) (Http.fail 401 "Unauthorized") 2%Z
             Fixtures.agent_A).
    vm_compute. reflexivity.
  - intros H.
    apply (proj1 (proj2 rejected_requests_never_reach_the_store)) in H.
    destruct H as [_ [(h & Hh & _ & E)|[Hn _]]].
    + vm_compute in Hh. injection Hh as <-. vm_compute in E. discriminate E.
    + specialize (Hn "Bearer wrong" eq_refl). vm_compute in Hn. discriminate Hn.
  - apply (proj1 (proj2 rejected_requests_never_reach_the_store)).
    split; [vm_compute; intros H; discriminate H|].
    left. exists "Bearer secret". repeat split; vm_compute; reflexivity.
Defined.

(* ================================================================== *)
(** * Concurrent calls *)
(* ================================================================== *)

(** The statements of several connections reach the server in any order.
    A handler that follows the discipline of [part_003] (answer at once, or
    [BEGIN], [SELECT .. FOR UPDATE] on the row of the agent, the inserts and
    the update of that row, [COMMIT] or [ROLLBACK]) is traced through the
    steps of [Sessions.tick]; the invariant [Discipline.invariant] says that
    at most one request is between its [SELECT .. FOR UPDATE] and the end of
    its transaction, and that the store is the one left by the requests that
    have been there, served one after the other. *)

Section Serialisation.

Import Schema.
Import Discipline.
Local Open Scope list_scope.

Lemma nth_error_replace_nth_eq {A : Type} (i : nat) (x y : A) (l : list A) :
  nth_error l i = Some y -> nth_error (replace_nth i x l) i = Some x.
Proof.
  revert i. induction l as [|z l IH]; intros [|i] H; cbn in *; try discriminate.
  - reflexivity.
  - apply IH. exact H.
Qed.

Lemma nth_error_replace_nth_neq {A : Type} (i j : nat) (x : A) (l : list A) :
  i <> j -> nth_error (replace_nth i x l) j = nth_error l j.
Proof.
  revert i j. induction l as [|z l IH]; intros [|i] [|j] H; cbn; try reflexivity.
  - contradiction.
  - apply IH. intros E. apply H. rewrite E. reflexivity.
Qed.

Lemma map_replace_nth {A B : Type} (f : A -> B) (i : nat) (x y : A) (l : list A) :
  nth_error l i = Some y -> f x = f y -> map f (replace_nth i x l) = map f l.
Proof.
  revert i. induction l as [|z l IH]; intros [|i] H E; cbn in *; try discriminate.
  - injection H as ->. rewrite E. reflexivity.
  - rewrite (IH i H E). reflexivity.
Qed.

Lemma has_agent_apply (s : store) (w : write) (a : Z) :
  has_agent s a = true -> has_agent (apply s w) a = true.
Proof.
  unfold has_agent. intros H. destruct w; cbn; auto.
  - rewrite existsb_app, H. reflexivity.
  - apply existsb_exists in H. destruct H as [x [Hx Hid]].
    apply existsb_exists. exists (bump delta id x). split.
    + apply in_map. exact Hx.
    + unfold bump. destruct (Agents.id x =? id)%Z; cbn; exact Hid.
Qed.

Lemma has_agent_view (s : store) (ws : list write) (a : Z) :
  has_agent s a = true -> has_agent (fold_left apply ws s) a = true.
Proof.
  revert s. induction ws as [|w ws IH]; intros s H; cbn.
  - exact H.
  - apply IH. apply has_agent_apply. exact H.
Qed.

Lemma has_agent_rows (s : store) (a : Z) :
  has_agent s a = true -> exists row rest, agents_by_id s a = row :: rest.
Proof.
  unfold has_agent, agents_by_id. intros H.
  apply existsb_exists in H. destruct H as [x [Hx Hid]].
  destruct (filter (fun r => (Agents.id r =? a)%Z) (agents s)) as [|row rest] eqn:E.
  - assert (In x []) as [] . rewrite <- E. apply filter_In. split; assumption.
  - eauto.
Qed.

(** A statement issued under the lock keeps the transaction open, keeps the
    time of the connection and leaves the agents where they are. *)
Lemma exec_inside (a : Z) (R : Type) (q : stmt R) (c : conn) (ws : list write) :
  inside a R q ->
  pending c = Some ws ->
  exists ws', pending (snd (exec R q c)) = Some ws'
              /\ now (snd (exec R q c)) = now c
              /\ agents (shared (snd (exec R q c))) = agents (shared c).
Proof.
  intros Hq Hp. destruct Hq; cbn.
  - unfold exec_insert_sale.
    destruct (bind PG.int4_in ag) as [x1|]; [|cbn; eauto].
    destruct (bind PG.int4_in cu) as [x2|]; [|cbn; eauto].
    destruct (bind PG.numeric_in sp) as [x3|]; [|cbn; eauto].
    destruct (bind PG.numeric_in cp) as [x4|]; [|cbn; eauto].
    destruct (bind PG.numeric_in ca) as [x5|]; [|cbn; eauto].
    cbn. destruct x1, x3, x4, x5; cbn; rewrite ?Hp; cbn; eauto.
    destruct (_ && _)%bool; cbn; unfold put; cbn; rewrite ?Hp; cbn; eauto.
  - unfold exec_insert_payout.
    destruct (bind PG.int4_in ag) as [x1|]; [|cbn; eauto].
    destruct (bind PG.numeric_in am) as [x2|]; [|cbn; eauto].
    cbn. destruct x1, x2; cbn; rewrite ?Hp; cbn; eauto.
    destruct (has_agent _ _); cbn; unfold put; cbn; rewrite ?Hp; cbn; eauto.
  - unfold exec_update_balance.
    destruct (bind PG.numeric_in am) as [x1|]; [|cbn; eauto].
    destruct (bind PG.int4_in id) as [[x2|]|]; cbn; unfold put; rewrite ?Hp; cbn; eauto.
  - unfold exec_update_balance.
    destruct (bind PG.numeric_in am) as [x1|]; [|cbn; eauto].
    destruct (bind PG.int4_in id) as [[x2|]|]; cbn; unfold put; rewrite ?Hp; cbn; eauto.
Qed.

Lemma key_rows_keyed (a : Z) (id : option string) (v : store) (n : Z) :
  keyed a id -> In n (Sessions.key_rows id v) -> n = a.
Proof.
  unfold keyed, Sessions.key_rows.
  destruct (bind PG.int4_in id) as [[m|]|e]; try (intros _ []).
  intros ->. destruct (has_agent v a); [|intros []]. intros [<-|[]]. reflexivity.
Qed.

Lemma locked_rows_inside (a : Z) (R : Type) (q : stmt R) (v : store) (n : Z) :
  inside a R q -> In n (Sessions.locked_rows R q v) -> n = a.
Proof.
  intros Hq. destruct Hq; cbn; try (intros []); apply key_rows_keyed; assumption.
Qed.

Lemma not_blocked_by_self (a : Z) (i : nat) (l : list (Z * nat)) (rows : list Z) :
  (forall e, In e l -> e = (a, i)) ->
  existsb (Sessions.held_by_other i l) rows = false.
Proof.
  intros H. induction rows as [|n rows IH]; cbn; [reflexivity|].
  rewrite IH, orb_false_r. unfold Sessions.held_by_other.
  destruct (existsb _ l) eqn:E; [|reflexivity].
  apply existsb_exists in E. destruct E as [e [He Hb]].
  rewrite (H e He) in Hb. cbn in Hb. rewrite Nat.eqb_refl, andb_false_r in Hb. discriminate.
Qed.

Lemma filter_not_holding (i : nat) (l : list (Z * nat)) :
  (forall e, In e l -> snd e <> i) ->
  filter (fun e => negb (Nat.eqb (snd e) i)) l = l.
Proof.
  induction l as [|e l IH]; intros H; cbn; [reflexivity|].
  assert (Nat.eqb (snd e) i = false) as -> by (apply Nat.eqb_neq, H; left; reflexivity).
  cbn. rewrite IH; [reflexivity|]. intros x Hx. apply H. right. exact Hx.
Qed.

Lemma filter_only_holder (a : Z) (i : nat) (l : list (Z * nat)) :
  (forall e, In e l -> e = (a, i)) ->
  filter (fun e => negb (Nat.eqb (snd e) i)) l = [].
Proof.
  induction l as [|e l IH]; intros H; cbn; [reflexivity|].
  rewrite (H e) by (left; reflexivity). cbn. rewrite Nat.eqb_refl. cbn.
  apply IH. intros x Hx. apply H. right. exact Hx.
Qed.

Lemma NoDup_snoc (l : list nat) (i : nat) : NoDup l -> ~ In i l -> NoDup (l ++ [i]).
Proof.
  induction l as [|x l IH]; intros Hl Hi; cbn.
  - constructor; [intros []|constructor].
  - inversion Hl as [|y m Hx Hm]. subst. constructor.
    + intros H. apply in_app_or in H. destruct H as [H|[H|[]]]; [contradiction|].
      apply Hi. left. symmetry. exact H.
    + apply IH; [exact Hm|]. intros H. apply Hi. right. exact H.
Qed.

Section Step.

Variable a : Z.
Variable s0 : store.
Variable calls : list (prog Http.response * Z).
Hypothesis calls_start : Forall (fun c => starting a (fst c)) calls.

Lemma phase_ext (w w' : Sessions.world) (done : list nat) (i : nat)
  (ss : Sessions.session) (c : prog Http.response * Z) :
  Sessions.locks w' = Sessions.locks w ->
  Sessions.store_of w' = Sessions.store_of w ->
  phase a s0 calls w done i ss c -> phase a s0 calls w' done i ss c.
Proof.
  intros Hl Hs P.
  assert (Hn : not_holding w i -> not_holding w' i).
  { unfold not_holding. rewrite Hl. auto. }
  destruct P.
  - apply phase_fresh; auto.
  - eapply phase_begun; eauto.
  - apply phase_leaving; auto.
  - eapply phase_holding; eauto.
    + unfold only_holder in *. rewrite Hl. assumption.
    + unfold Sessions.connection in *. rewrite Hs. assumption.
  - eapply phase_passed; eauto.
  - eapply phase_done; eauto.
Qed.

(** A request that does not hold the lock carries its phase to any world in
    which it still holds none. *)
Lemma phase_other (w w' : Sessions.world) (done done' : list nat) (i : nat)
  (ss : Sessions.session) (c : prog Http.response * Z) :
  ~ only_holder a w i ->
  not_holding w' i ->
  (exists tail, done' = done ++ tail) ->
  (~ In i done -> ~ In i done') ->
  phase a s0 calls w done i ss c -> phase a s0 calls w' done' i ss c.
Proof.
  intros Hno Hn [tail Hd] Hd' P. destruct P as [| | | | |r pre post Hp Hdone Hn0 Hans].
  - apply phase_fresh; auto.
  - eapply phase_begun; eauto.
  - apply phase_leaving; auto.
  - contradiction.
  - eapply phase_passed; eauto.
  - apply (phase_done _ _ _ _ _ _ _ _ r pre (post ++ tail)); auto.
    rewrite Hd, Hdone, <- app_assoc. reflexivity.
Qed.

Lemma holder_unique (w : Sessions.world) (i j : nat) :
  only_holder a w i -> only_holder a w j -> i = j.
Proof.
  intros [Hne Hi] [_ Hj]. destruct (Sessions.locks w) as [|e l]; [contradiction|].
  assert (e = (a, i)) by (apply Hi; left; reflexivity).
  assert (e = (a, j)) by (apply Hj; left; reflexivity).
  congruence.
Qed.

Lemma holder_holds (w : Sessions.world) (i j : nat) :
  only_holder a w i -> not_holding w j -> i <> j.
Proof.
  unfold not_holding. intros [Hne Hi] Hj E. destruct (Sessions.locks w) as [|e l]; [contradiction|].
  assert (e = (a, i)) as He by (apply Hi; left; reflexivity).
  apply (Hj e); [left; reflexivity|]. rewrite He. cbn. exact E.
Qed.

Lemma call_clock (w : Sessions.world) (done : list nat) (i : nat)
  (ss : Sessions.session) (c : prog Http.response * Z) :
  invariant a s0 calls w done ->
  nth_error (Sessions.sessions w) i = Some ss ->
  nth_error calls i = Some c ->
  snd c = Sessions.clock ss.
Proof.
  intros I Hss Hc.
  pose proof (map_nth_error Sessions.clock _ _ Hss) as H1.
  pose proof (map_nth_error snd _ _ Hc) as H2.
  rewrite (inv_clocks _ _ _ _ _ I) in H1. congruence.
Qed.

Lemma call_of_session (w : Sessions.world) (done : list nat) (i : nat)
  (ss : Sessions.session) :
  invariant a s0 calls w done ->
  nth_error (Sessions.sessions w) i = Some ss ->
  exists c, nth_error calls i = Some c.
Proof.
  intros I Hss.
  destruct (nth_error calls i) as [c|] eqn:E; [eauto|].
  apply nth_error_None in E.
  assert (nth_error (Sessions.sessions w) i <> None) as H by congruence.
  apply nth_error_Some in H.
  pose proof (f_equal (@List.length Z) (inv_clocks _ _ _ _ _ I)) as L.
  rewrite !length_map in L. lia.
Qed.

(** A step of request [i] that takes no lock and leaves the store alone. *)
Lemma quiet_step (w w' : Sessions.world) (done : list nat) (i : nat)
  (ss ss' : Sessions.session) (c : prog Http.response * Z) :
  invariant a s0 calls w done ->
  nth_error (Sessions.sessions w) i = Some ss ->
  nth_error calls i = Some c ->
  not_holding w i ->
  Sessions.store_of w' = Sessions.store_of w ->
  Sessions.locks w' = Sessions.locks w ->
  Sessions.sessions w' = replace_nth i ss' (Sessions.sessions w) ->
  Sessions.clock ss' = Sessions.clock ss ->
  phase a s0 calls w' done i ss' c ->
  invariant a s0 calls w' done.
Proof.
  intros I Hss Hc Hn Hs Hl Hq Hk P. split.
  - rewrite Hq. rewrite (map_replace_nth _ _ _ _ _ Hss Hk). apply I.
  - rewrite Hs. apply I.
  - apply I.
  - apply I.
  - intros j sj cj Hsj Hcj. rewrite Hq in Hsj.
    destruct (Nat.eq_dec i j) as [<-|Hij].
    + rewrite (nth_error_replace_nth_eq _ _ _ _ Hss) in Hsj.
      injection Hsj as <-. rewrite Hc in Hcj. injection Hcj as <-. exact P.
    + rewrite (nth_error_replace_nth_neq _ _ _ _ Hij) in Hsj.
      apply (phase_ext w w'); auto. apply I; assumption.
  - destruct (inv_store _ _ _ _ _ I) as [[h [sh [ws [Hh [Hch [Hcr Ho]]]]]]|[Hl0 Hs0]].
    + left. exists h, sh, ws. repeat split; auto.
      * rewrite Hq. rewrite nth_error_replace_nth_neq; [exact Hh|].
        intros E. apply (holder_holds w h i Ho Hn). symmetry. exact E.
      * unfold only_holder in *. rewrite Hl. apply Ho.
      * unfold only_holder in *. rewrite Hl. apply Ho.
    + right. rewrite Hl, Hs. auto.
Qed.

(** A step of the request that holds the lock, takes it or gives it back. *)
Lemma holder_step (w w' : Sessions.world) (done done' : list nat) (i : nat)
  (ss ss' : Sessions.session) (c : prog Http.response * Z) :
  invariant a s0 calls w done ->
  nth_error (Sessions.sessions w) i = Some ss ->
  nth_error calls i = Some c ->
  (forall j, j <> i -> ~ only_holder a w j) ->
  (forall j, j <> i -> not_holding w' j) ->
  Sessions.sessions w' = replace_nth i ss' (Sessions.sessions w) ->
  Sessions.clock ss' = Sessions.clock ss ->
  has_agent (Sessions.store_of w') a = true ->
  NoDup done' ->
  (forall x, In x done' -> (x < List.length calls)%nat) ->
  (exists tail, done' = done ++ tail) ->
  (forall j, j <> i -> ~ In j done -> ~ In j done') ->
  phase a s0 calls w' done' i ss' c ->
  ((exists h, holding a w' h)
   \/ (Sessions.locks w' = []
       /\ Sessions.store_of w' = Sessions.one_by_one calls done' s0)) ->
  invariant a s0 calls w' done'.
Proof.
  intros I Hss Hc Hno Hn' Hq Hk Ha Hnd Hr Hd Hd' P Hst. split; auto.
  - rewrite Hq. rewrite (map_replace_nth _ _ _ _ _ Hss Hk). apply I.
  - intros j sj cj Hsj Hcj. rewrite Hq in Hsj.
    destruct (Nat.eq_dec i j) as [<-|Hij].
    + rewrite (nth_error_replace_nth_eq _ _ _ _ Hss) in Hsj.
      injection Hsj as <-. rewrite Hc in Hcj. injection Hcj as <-. exact P.
    + rewrite (nth_error_replace_nth_neq _ _ _ _ Hij) in Hsj.
      apply (phase_other w w' done done'); auto.
      apply I; assumption.
Qed.

Lemma call_starting (i : nat) (c : prog Http.response * Z) :
  nth_error calls i = Some c -> starting a (fst c).
Proof.
  intros Hc. apply nth_error_In in Hc.
  rewrite Forall_forall in calls_start. apply calls_start. exact Hc.
Qed.

Lemma step_fresh (w : Sessions.world) (done : list nat) (i : nat)
  (ss : Sessions.session) (c : prog Http.response * Z) :
  invariant a s0 calls w done ->
  nth_error (Sessions.sessions w) i = Some ss ->
  nth_error calls i = Some c ->
  Sessions.program ss = fst c ->
  Sessions.changes ss = None ->
  ~ In i done ->
  not_holding w i ->
  invariant a s0 calls (Sessions.tick i w) done.
Proof.
  intros I Hss Hc Hp Hch Hnd Hn.
  pose proof (call_starting i c Hc) as St.
  unfold Sessions.tick. rewrite Hss, Hp.
  inversion St as [r Hr|k0 Hw Hk]; [exact I|].
  cbn. rewrite Hch.
  eapply (quiet_step w _ done i ss _ c I Hss Hc Hn); cbn; try reflexivity.
  apply (phase_begun _ _ _ _ _ _ _ _ k0); cbn; auto.
Qed.

Lemma step_begun (w : Sessions.world) (done : list nat) (i : nat)
  (ss : Sessions.session) (c : prog Http.response * Z)
  (k0 : PG.result unit -> prog Http.response) :
  invariant a s0 calls w done ->
  nth_error (Sessions.sessions w) i = Some ss ->
  nth_error calls i = Some c ->
  fst c = PG.Do BEGIN k0 ->
  Sessions.program ss = k0 (PG.Ok tt) ->
  waiting a (Sessions.program ss) ->
  Sessions.changes ss = Some [] ->
  ~ In i done ->
  not_holding w i ->
  invariant a s0 calls (Sessions.tick i w) done.
Proof.
  intros I Hss Hc Hfc Hp Hw Hch Hnd Hn.
  pose proof (call_clock w done i ss c I Hss Hc) as Hcl.
  unfold Sessions.tick. rewrite Hss.
  inversion Hw as [id k Hid Hrows Hnone Herr Hk].
  unfold Sessions.connection, view. rewrite Hch. cbn.
  unfold Sessions.key_rows, by_key, keyed in *.
  assert (Hk0 : k0 (PG.Ok tt) = PG.Do (select_agent_for_update id) k) by congruence.
  destruct (bind PG.int4_in id) as [[n|]|e] eqn:Eid.
  - subst n. rewrite (inv_agent _ _ _ _ _ I). cbn. rewrite orb_false_r.
    destruct (Sessions.held_by_other i (Sessions.locks w) a) eqn:Hb; [exact I|].
    assert (Sessions.locks w = []
            /\ Sessions.store_of w = Sessions.one_by_one calls done s0) as [Hl Hs].
    { destruct (inv_store _ _ _ _ _ I) as [[h [sh [ws [Hh [_ [_ Ho]]]]]]|H]; [|exact H].
      exfalso. pose proof (holder_holds w h i Ho Hn) as Hhi.
      destruct Ho as [Hne Hall]. destruct (Sessions.locks w) as [|e l]; [contradiction|].
      unfold Sessions.held_by_other in Hb. cbn in Hb.
      rewrite (Hall e) in Hb by (left; reflexivity). cbn in Hb.
      rewrite Z.eqb_refl in Hb.
      assert (Nat.eqb h i = false) as Hf by (apply Nat.eqb_neq; exact Hhi).
      rewrite Hf in Hb. discriminate. }
    destruct (has_agent_rows _ _ (inv_agent _ _ _ _ _ I)) as [row [rest Hr]].
    rewrite Hr, Hl.
    eapply (holder_step w _ done done i ss _ c I Hss Hc); cbn; try reflexivity; auto;
      try (exists (@nil nat); symmetry; apply app_nil_r).
    + intros j _ [Hne _]. apply Hne. exact Hl.
    + intros j Hj e [<-|[]]. cbn. auto.
    + apply I.
    + apply I.
    + apply I.
    + apply (phase_holding _ _ _ _ _ _ _ _ []); cbn; auto.
      * split; cbn; [discriminate|]. intros e [<-|[]]. reflexivity.
      * unfold Sessions.connection. cbn. rewrite Hfc. cbn. rewrite Hk0. cbn.
        unfold by_key. rewrite Eid. rewrite <- Hs, Hr, Hcl. reflexivity.
    + left. exists i. eexists. exists []. cbn.
      rewrite (nth_error_replace_nth_eq _ _ _ _ Hss). repeat split; cbn; auto.
      * discriminate.
      * intros e [<-|[]]. reflexivity.
  - cbn.
    eapply (quiet_step w _ done i ss _ c I Hss Hc Hn); cbn; try reflexivity.
    apply phase_leaving; cbn; auto.
    intros s. rewrite Hfc. cbn. rewrite Hk0. cbn. unfold by_key. rewrite Eid, Hcl.
    reflexivity.
  - cbn.
    eapply (quiet_step w _ done i ss _ c I Hss Hc Hn); cbn; try reflexivity.
    apply phase_leaving; cbn; auto.
    intros s. rewrite Hfc. cbn. rewrite Hk0. cbn. unfold by_key. rewrite Eid, Hcl.
    reflexivity.
Qed.

Lemma step_leaving (w : Sessions.world) (done : list nat) (i : nat)
  (ss : Sessions.session) (c : prog Http.response * Z) :
  invariant a s0 calls w done ->
  nth_error (Sessions.sessions w) i = Some ss ->
  nth_error calls i = Some c ->
  closing (Sessions.program ss) ->
  Sessions.changes ss = Some [] ->
  ~ In i done ->
  not_holding w i ->
  (forall s, PG.run exec (Sessions.program ss)
               {| shared := s; pending := Some []; now := snd c |}
             = PG.run exec (fst c) (connect s (snd c))) ->
  invariant a s0 calls (Sessions.tick i w) done.
Proof.
  intros I Hss Hc Hcl Hch Hnd Hn Hrun.
  unfold Sessions.tick. rewrite Hss.
  inversion Hcl as [k r Hk Hp|k r Hk Hp]; rewrite <- Hp in Hrun;
    unfold Sessions.connection, view; rewrite Hch; cbn;
    rewrite (filter_not_holding i _ Hn);
    (eapply (quiet_step w _ done i ss _ c I Hss Hc Hn); cbn; try reflexivity);
    (apply (phase_passed _ _ _ _ _ _ _ _ r); cbn; auto);
    intros s; unfold serve; rewrite <- Hrun; cbn; rewrite Hk; reflexivity.
Qed.

Lemma one_by_one_snoc (done : list nat) (i : nat) (c : prog Http.response * Z) :
  nth_error calls i = Some c ->
  Sessions.one_by_one calls (done ++ [i]) s0
  = snd (serve (fst c) (snd c) (Sessions.one_by_one calls done s0)).
Proof.
  intros Hc. unfold Sessions.one_by_one. rewrite fold_left_app. cbn. rewrite Hc.
  reflexivity.
Qed.

Lemma step_holding (w : Sessions.world) (done : list nat) (i : nat)
  (ss : Sessions.session) (c : prog Http.response * Z) (ws : list write) :
  invariant a s0 calls w done ->
  nth_error (Sessions.sessions w) i = Some ss ->
  nth_error calls i = Some c ->
  critical a (Sessions.program ss) ->
  Sessions.changes ss = Some ws ->
  ~ In i done ->
  only_holder a w i ->
  PG.run exec (Sessions.program ss) (Sessions.connection w ss)
  = PG.run exec (fst c) (connect (Sessions.one_by_one calls done s0) (snd c)) ->
  exists done', invariant a s0 calls (Sessions.tick i w) done'.
Proof.
  intros I Hss Hc Hcr Hch Hnd Ho Hrun.
  unfold Sessions.tick. rewrite Hss.
  assert (Hothers : forall j, j <> i -> ~ only_holder a w j).
  { intros j Hj Hoj. apply Hj. apply (holder_unique w j i Hoj Ho). }
  assert (Hrange : (i < List.length calls)%nat).
  { apply nth_error_Some. congruence. }
  inversion Hcr as [p Hcl Hp|R q k Hq Hk Hp].
  - exists (done ++ [i]).
    assert (Hserve : serve (fst c) (snd c) (Sessions.one_by_one calls done s0)
                     = match PG.run exec (Sessions.program ss) (Sessions.connection w ss)
                       with
                       | (PG.Ok x, c') => (Some x, shared c')
                       | (PG.Err _, c') => (None, shared c')
                       end).
    { unfold serve. rewrite Hrun. reflexivity. }
    pose proof (one_by_one_snoc done i c Hc) as Hsnoc. rewrite Hserve in Hsnoc.
    pose proof (f_equal fst Hserve) as Hans. clear Hserve.
    inversion Hcl as [k r Hk Hp'|k r Hk Hp']; rewrite <- Hp' in Hsnoc, Hans;
      cbn in Hsnoc, Hans; rewrite Hk in Hsnoc, Hans; cbn in Hsnoc, Hans; cbn;
      rewrite (filter_only_holder a i _ (proj2 Ho));
      (eapply (holder_step w _ done (done ++ [i]) i ss _ c I Hss Hc Hothers);
       cbn; try reflexivity; auto).
    all: try (intros j _ e []).
    all: try (apply NoDup_snoc; [apply I|exact Hnd]).
    all: try (exists [i]; reflexivity).
    all: try (intros x Hx; apply in_app_or in Hx; destruct Hx as [Hx|[<-|[]]];
              [apply (inv_range _ _ _ _ _ I); exact Hx|exact Hrange]).
    all: try (intros j Hj Hjd Hx; apply in_app_or in Hx; destruct Hx as [Hx|[Hx|[]]];
              [contradiction|apply Hj; symmetry; exact Hx]).
    all: try (apply (phase_done _ _ _ _ _ _ _ _ r done []); cbn;
              [exact Hk|reflexivity|intros e []|exact Hans]).
    all: try (apply I).
    all: unfold Sessions.connection, view; cbn; rewrite Hch;
      apply has_agent_view; apply I.
  - exists done. cbn.
    rewrite (not_blocked_by_self a i _ _ (proj2 Ho)).
    rewrite <- Hp in Hrun. cbn in Hrun.
    destruct (exec_inside a R q (Sessions.connection w ss) ws Hq Hch)
      as [ws' [Hpe [Hnow Hag]]].
    destruct (exec R q (Sessions.connection w ss)) as [r c'] eqn:E.
    cbn in Hpe, Hnow, Hag. rewrite Hpe.
    assert (Hlocks : forall e,
               In e (map (fun n => (n, i))
                       (Sessions.locked_rows R q (view (Sessions.connection w ss)))
                     ++ Sessions.locks w) -> e = (a, i)).
    { intros e He. apply in_app_or in He. destruct He as [He|He].
      - apply in_map_iff in He. destruct He as [n [<- Hn]].
        rewrite (locked_rows_inside a R q _ n Hq Hn). reflexivity.
      - apply (proj2 Ho). exact He. }
    assert (Hne : map (fun n => (n, i))
                    (Sessions.locked_rows R q (view (Sessions.connection w ss)))
                  ++ Sessions.locks w <> []).
    { intros H. apply app_eq_nil in H. apply (proj1 Ho). apply H. }
    assert (Hcrit : critical a (k r)) by apply Hk.
    eapply (holder_step w _ done done i ss _ c I Hss Hc Hothers);
      cbn; try reflexivity; auto;
      try (exists (@nil nat); symmetry; apply app_nil_r).
    + intros j Hj e He. rewrite (Hlocks e He). cbn. auto.
    + pose proof (inv_agent _ _ _ _ _ I) as Ha. unfold has_agent in *.
      rewrite Hag. exact Ha.
    + apply I.
    + apply I.
    + apply (phase_holding _ _ _ _ _ _ _ _ ws'); cbn; auto.
      * split; assumption.
      * unfold Sessions.connection. cbn. rewrite <- Hrun, <- Hpe, <- Hnow.
        destruct c'; reflexivity.
    + left. exists i. eexists. exists ws'. cbn.
      rewrite (nth_error_replace_nth_eq _ _ _ _ Hss). repeat split; cbn; auto.
Qed.

(** One step of any request keeps the invariant. *)
Lemma tick_invariant (w : Sessions.world) (done : list nat) (i : nat) :
  invariant a s0 calls w done ->
  exists done', invariant a s0 calls (Sessions.tick i w) done'.
Proof.
  intros I.
  destruct (nth_error (Sessions.sessions w) i) as [ss|] eqn:Hss.
  - destruct (call_of_session w done i ss I Hss) as [c Hc].
    destruct (inv_phase _ _ _ _ _ I i ss c Hss Hc)
      as [Hp Hch Hnd Hn|k0 Hfc Hp Hw Hch Hnd Hn|Hcl Hch Hnd Hn Hrun
         |ws Hcr Hch Hnd Ho Hrun|r Hp Hnd Hn Hsv|r pre post Hp Hd Hn Hans].
    + exists done. apply (step_fresh w done i ss c); assumption.
    + exists done. apply (step_begun w done i ss c k0); assumption.
    + exists done. apply (step_leaving w done i ss c); assumption.
    + apply (step_holding w done i ss c ws); assumption.
    + exists done. unfold Sessions.tick. rewrite Hss, Hp. exact I.
    + exists done. unfold Sessions.tick. rewrite Hss, Hp. exact I.
  - exists done. unfold Sessions.tick. rewrite Hss. exact I.
Qed.

Lemma schedule_invariant (order : list nat) (w : Sessions.world) (done : list nat) :
  invariant a s0 calls w done ->
  exists done', invariant a s0 calls (Sessions.schedule order w) done'.
Proof.
  revert w done. induction order as [|i order IH]; intros w done I; cbn.
  - exists done. exact I.
  - destruct (tick_invariant w done i I) as [done1 I1].
    apply (IH _ done1 I1).
Qed.

Lemma start_invariant :
  has_agent s0 a = true -> invariant a s0 calls (Sessions.start s0 calls) [].
Proof.
  intros Ha. split; cbn; auto.
  - rewrite map_map. reflexivity.
  - constructor.
  - intros i [].
  - intros i ss c Hss Hc.
    rewrite nth_error_map, Hc in Hss. cbn in Hss. injection Hss as <-.
    apply phase_fresh; cbn; auto.
    intros e [].
Qed.


Lemma critical_not_answered (r : Http.response) : ~ critical a (PG.Ret r).
Proof.
  intros H. inversion H as [p Hcl Hp|R q k Hq Hk Hp].
  inversion Hcl.
Qed.

Lemma finished_answered (w : Sessions.world) (i : nat) (ss : Sessions.session) :
  Sessions.finished w = true ->
  nth_error (Sessions.sessions w) i = Some ss ->
  exists r, Sessions.program ss = PG.Ret r.
Proof.
  intros F Hss. unfold Sessions.finished in F. rewrite forallb_forall in F.
  specialize (F ss (nth_error_In _ _ Hss)). unfold Sessions.answered in F.
  destruct (Sessions.program ss); try discriminate. eauto.
Qed.

(** Once every request is answered, a request that never held the lock
    leaves any store as it is, with the answer it gave. *)
Lemma answered_outside (w : Sessions.world) (done : list nat) (i : nat)
  (ss : Sessions.session) (c : prog Http.response * Z) :
  invariant a s0 calls w done ->
  Sessions.finished w = true ->
  nth_error (Sessions.sessions w) i = Some ss ->
  nth_error calls i = Some c ->
  ~ In i done ->
  forall s, serve (fst c) (snd c) s = (Sessions.answered ss, s).
Proof.
  intros I F Hss Hc Hnd s.
  destruct (finished_answered w i ss F Hss) as [r Hr].
  unfold Sessions.answered. rewrite Hr.
  destruct (inv_phase _ _ _ _ _ I i ss c Hss Hc)
    as [Hp Hch _ Hn|k0 Hfc Hp Hw Hch _ Hn|Hcl Hch _ Hn Hrun
       |ws Hcr Hch _ Ho Hrun|r' Hp _ Hn Hsv|r' pre post Hp Hd Hn Hans].
  - rewrite <- Hp, Hr. reflexivity.
  - rewrite Hr in Hw. inversion Hw.
  - rewrite Hr in Hcl. inversion Hcl.
  - rewrite Hr in Hcr. destruct (critical_not_answered r Hcr).
  - rewrite Hsv. congruence.
  - exfalso. apply Hnd. rewrite Hd. apply in_or_app. right. left. reflexivity.
Qed.

Lemma session_of_call (w : Sessions.world) (done : list nat) (i : nat)
  (c : prog Http.response * Z) :
  invariant a s0 calls w done ->
  nth_error calls i = Some c ->
  exists ss, nth_error (Sessions.sessions w) i = Some ss.
Proof.
  intros I Hc.
  destruct (nth_error (Sessions.sessions w) i) as [ss|] eqn:Hss; [eauto|].
  apply nth_error_None in Hss.
  assert (nth_error calls i <> None) as H by congruence.
  apply nth_error_Some in H.
  pose proof (f_equal (@List.length Z) (inv_clocks _ _ _ _ _ I)) as L.
  rewrite !length_map in L. lia.
Qed.

Lemma one_by_one_outside (w : Sessions.world) (done rest : list nat) :
  invariant a s0 calls w done ->
  Sessions.finished w = true ->
  (forall i, In i rest -> ~ In i done) ->
  forall s, Sessions.one_by_one calls rest s = s.
Proof.
  intros I F. unfold Sessions.one_by_one.
  induction rest as [|i rest IH]; intros Hr s; cbn; [reflexivity|].
  destruct (nth_error calls i) as [c|] eqn:Hc.
  - destruct (session_of_call w done i c I Hc) as [ss Hss].
    rewrite (answered_outside w done i ss c I F Hss Hc) by (apply Hr; left; reflexivity).
    apply IH. intros j Hj. apply Hr. right. exact Hj.
  - apply IH. intros j Hj. apply Hr. right. exact Hj.
Qed.

Lemma one_by_one_app (l1 l2 : list nat) (s : store) :
  Sessions.one_by_one calls (l1 ++ l2) s
  = Sessions.one_by_one calls l2 (Sessions.one_by_one calls l1 s).
Proof.
  unfold Sessions.one_by_one. apply fold_left_app.
Qed.

(** The store a finished schedule leaves is the store the requests leave when
    they are served one after the other, in some order, and every request
    has given the answer it gives at its place in that order. *)
Lemma finished_serial (w : Sessions.world) (done : list nat) :
  invariant a s0 calls w done ->
  Sessions.finished w = true ->
  exists perm,
    Permutation perm (seq 0 (List.length calls))
    /\ Sessions.store_of w = Sessions.one_by_one calls perm s0
    /\ forall k i c,
         nth_error perm k = Some i ->
         nth_error calls i = Some c ->
         exists ss,
           nth_error (Sessions.sessions w) i = Some ss
           /\ fst (serve (fst c) (snd c)
                     (Sessions.one_by_one calls (firstn k perm) s0))
              = Sessions.answered ss.
Proof.
  intros I F.
  set (rest := filter (fun i => negb (existsb (Nat.eqb i) done))
                 (seq 0 (List.length calls))).
  assert (Hrest : forall i, In i rest -> ~ In i done).
  { intros i Hi Hd. apply filter_In in Hi. destruct Hi as [_ Hi].
    apply negb_true_iff in Hi.
    assert (existsb (Nat.eqb i) done = true) as E.
    { apply existsb_exists. exists i. split; [exact Hd|apply Nat.eqb_refl]. }
    congruence. }
  assert (Hnd : NoDup (done ++ rest)).
  { apply NoDup_app; [apply I|apply NoDup_filter, seq_NoDup|].
    intros i Hd Hi. apply (Hrest i Hi Hd). }
  exists (done ++ rest). split; [|split].
  - apply NoDup_Permutation.
    + exact Hnd.
    + apply seq_NoDup.
    + intros i. rewrite in_app_iff, in_seq. split.
      * intros [Hd|Hi]; [pose proof (inv_range _ _ _ _ _ I i Hd); lia|].
        apply filter_In in Hi. destruct Hi as [Hi _]. apply in_seq in Hi. lia.
      * intros Hi. destruct (in_dec Nat.eq_dec i done) as [Hd|Hd]; [left; exact Hd|].
        right. apply filter_In. split; [apply in_seq; lia|].
        apply negb_true_iff. destruct (existsb (Nat.eqb i) done) eqn:E; [|reflexivity].
        apply existsb_exists in E. destruct E as [x [Hx Hix]].
        apply Nat.eqb_eq in Hix. subst x. contradiction.
  - rewrite one_by_one_app.
    rewrite (one_by_one_outside w done rest I F Hrest).
    destruct (inv_store _ _ _ _ _ I) as [[h [sh [ws [Hh [_ [Hcr _]]]]]]|[_ Hs]];
      [|exact Hs].
    exfalso. destruct (finished_answered w h sh F Hh) as [r Hr].
    rewrite Hr in Hcr. apply (critical_not_answered r Hcr).
  - intros k i c Hk Hc.
    destruct (session_of_call w done i c I Hc) as [ss Hss].
    exists ss. split; [exact Hss|].
    destruct (in_dec Nat.eq_dec i done) as [Hd|Hd].
    + destruct (finished_answered w i ss F Hss) as [r Hr].
      destruct (inv_phase _ _ _ _ _ I i ss c Hss Hc)
        as [_ _ Hn _|k0 _ _ _ _ Hn _|_ _ Hn _ _
           |ws _ _ Hn _ _|r' _ Hn _ _|r' pre post Hp Hdone _ Hans];
        try contradiction.
      assert (Hpos : k = List.length pre).
      { apply (proj1 (NoDup_nth_error (done ++ rest)) Hnd).
        - apply nth_error_Some. congruence.
        - rewrite Hk, Hdone, <- app_assoc. cbn.
          rewrite nth_error_app2 by lia. rewrite Nat.sub_diag. reflexivity. }
      subst k. rewrite Hdone, <- app_assoc.
      rewrite firstn_app, firstn_all, Nat.sub_diag. cbn. rewrite app_nil_r.
      unfold Sessions.answered. rewrite Hp. exact Hans.
    + rewrite (answered_outside w done i ss c I F Hss Hc Hd). reflexivity.
Qed.

(** Any interleaving of requests that follow the locking discipline on the
    row of agent [a] leaves the store, and gives the answers, of some serial
    order. *)
Lemma schedule_serial (order : list nat) :
  has_agent s0 a = true ->
  Sessions.finished (Sessions.schedule order (Sessions.start s0 calls)) = true ->
  exists perm,
    Permutation perm (seq 0 (List.length calls))
    /\ Sessions.store_of (Sessions.schedule order (Sessions.start s0 calls))
       = Sessions.one_by_one calls perm s0
    /\ forall k i c,
         nth_error perm k = Some i ->
         nth_error calls i = Some c ->
         exists ss,
           nth_error (Sessions.sessions
                        (Sessions.schedule order (Sessions.start s0 calls))) i = Some ss
           /\ fst (serve (fst c) (snd c)
                     (Sessions.one_by_one calls (firstn k perm) s0))
              = Sessions.answered ss.
Proof.
  intros Ha F.
  destruct (schedule_invariant order _ [] (start_invariant Ha)) as [done I].
  apply (finished_serial _ done I F).
Qed.

End Step.

Ltac under_lock Hk :=
  repeat (cbn; unfold PG.await, PG.await_ignoring; cbn;
          match goal with
          | |- closing _ =>
              first [eapply closing_commit; reflexivity
                    |eapply closing_rollback; reflexivity]
          | |- critical _ _ =>
              first [apply critical_inside;
                     [solve [constructor; try exact Hk]|intros [?|?]]
                    |apply critical_closing]
          end).

(** [POST /api/sales] answers at once or locks the row of its agent first. *)
Lemma sale_starting (a : Z) (req : Http.request) :
  on_agent a req -> starting a (Part003.post_api_sales req).
Proof.
  unfold on_agent, Part003.post_api_sales. intros Hk.
  destruct (negb (JS.isFinite _)); [apply starting_answer|].
  destruct (_ || _)%bool; [apply starting_answer|].
  cbn. apply starting_begin. apply waiting_select; [exact Hk| | |].
  - intros row rest. under_lock Hk.
  - under_lock Hk.
  - intros e. under_lock Hk.
Qed.

(** [POST /api/payouts] answers at once or locks the row of its agent first:
    the balance it compares the amount with is read under that lock. *)
Lemma payout_starting (a : Z) (req : Http.request) :
  on_agent a req -> starting a (Part003.post_api_payouts req).
Proof.
  unfold on_agent, Part003.post_api_payouts. intros Hk.
  destruct (negb (JS.isFinite _)); [apply starting_answer|].
  destruct (_ || _)%bool; [apply starting_answer|].
  cbn. apply starting_begin. apply waiting_select; [exact Hk| | |].
  - intros row rest. cbn. destruct (PrimFloat.ltb _ _); under_lock Hk.
  - under_lock Hk.
  - intros e. under_lock Hk.
Qed.

Lemma one_by_one_pick (calls : list Ledger.call) (perm : list nat) (s : store) :
  Sessions.one_by_one (map handler calls) perm s = Ledger.after s (pick calls perm).
Proof.
  unfold Sessions.one_by_one, Ledger.after, pick.
  revert s. induction perm as [|i perm IH]; intros s; cbn; [reflexivity|].
  rewrite nth_error_map. destruct (nth_error calls i) as [c|]; cbn.
  - rewrite IH. destruct c; reflexivity.
  - apply IH.
Qed.

Lemma pick_seq (pre l : list Ledger.call) :
  pick (pre ++ l) (seq (List.length pre) (List.length l)) = l.
Proof.
  unfold pick. revert pre. induction l as [|x l IH]; intros pre; cbn; [reflexivity|].
  rewrite nth_error_app2 by lia. rewrite Nat.sub_diag. cbn. f_equal.
  specialize (IH (pre ++ [x])%list). rewrite <- app_assoc, length_app in IH. cbn in IH.
  rewrite Nat.add_1_r in IH. exact IH.
Qed.

Lemma pick_permutation (calls : list Ledger.call) (perm : list nat) :
  Permutation perm (seq 0 (List.length calls)) -> Permutation (pick calls perm) calls.
Proof.
  intros H. pose proof (pick_seq [] calls) as E. cbn in E.
  rewrite <- E at 2. unfold pick. apply Permutation_flat_map. exact H.
Qed.

End Serialisation.

Section ManySales.

Import Schema.
Local Open Scope string_scope.
Local Open Scope Q_scope.

Lemma agents_by_id_bump (d : option Q) (n : Z) (l : list Agents.row) :
  filter (fun r => (Agents.id r =? n)%Z) (map (bump d n) l)
  = map (bump d n) (filter (fun r => (Agents.id r =? n)%Z) l).
Proof.
  induction l as [|r l IH]; cbn; [reflexivity|].
  assert (Agents.id (bump d n r) = Agents.id r) as E.
  { unfold bump. destruct (Agents.id r =? n)%Z; reflexivity. }
  rewrite E. destruct (Agents.id r =? n)%Z; cbn; rewrite IH; reflexivity.
Qed.

(** The same sale recorded [N] times in a row: [N] rows more, and the balance
    of the agent [N] times the commission higher. *)
Lemma sales_in_turn (req : Http.request) (t : Z) (n : Z) (cu : option Z) (sp cp cq : Q)
  (pc : option Q) (N : nat) :
  let aId := JS.Number (Http.body req "agentId") in
  let cId := if JS.nullish (Http.body req "customerId") then JS.Null
             else JS.Num (JS.Number (Http.body req "customerId")) in
  let price := JS.Number (JS.coalesce (JS.coalesce (Http.body req "salePrice")
                                                   (Http.body req "sale_price"))
                                      (Http.body req "amount")) in
  let pct := JS.or_zero (Part003.Number_of_column pc) in
  let amount := PrimFloat.div (PrimFloat.mul price pct) 100%float in
  JS.isFinite aId = true ->
  JS.isFinite price = true ->
  PrimFloat.leb price PrimFloat.zero = false ->
  PG.int4_in (JS.toString aId) = Some n ->
  bind PG.int4_in (PG.param (if JS.Number_isFinite cId then cId else JS.Null)) = PG.Ok cu ->
  PG.numeric_in (JS.toString price) = Some sp ->
  PG.numeric_in (JS.toString pct) = Some cp ->
  PG.numeric_in (JS.toString amount) = Some cq ->
  forall (s : store) (a : Agents.row) (rest : list Agents.row) (b : Q),
    agents_by_id s n = a :: rest ->
    Agents.commission_percent a = pc ->
    Agents.balance a = Some b ->
    match cu with Some k => has_customer s k | None => true end = true ->
    let s' := Ledger.after s (repeat (Ledger.RecordSale req t) N) in
    List.length (sales_of s' n) = (List.length (sales_of s n) + N)%nat
    /\ (forall r, In r (sales_of s' n) ->
                  In r (sales_of s n) \/ Sales.commission_amount r = cq)
    /\ exists a' rest' b',
         agents_by_id s' n = a' :: rest'
         /\ Agents.balance a' = Some b'
         /\ b' == b + inject_Z (Z.of_nat N) * cq.
Proof.
  intros aId cId price pct amount Ha Hf Hp Hn Hcu Hsp Hcp Hcq.
  induction N as [|N IH]; intros s a rest b Hrows Hpc Hb Hk s'.
  - subst s'. cbn. split; [lia|]. split; [auto|].
    exists a, rest, b. repeat split; auto. ring.
  - subst s'. cbn [repeat Ledger.after fold_left].
    fold (Ledger.after (Ledger.perform s (Ledger.RecordSale req t))
            (repeat (Ledger.RecordSale req t) N)).
    assert (E : Ledger.perform s (Ledger.RecordSale req t)
                = Ledger.credited s
                    {| Sales.id := sales_id_seq s + 1;
                       Sales.agent_id := n;
                       Sales.customer_id := cu;
                       Sales.sale_price := sp;
                       Sales.commission_percent := cp;
                       Sales.commission_amount := cq;
                       Sales.note := PG.param (JS.or (Http.body req "note") JS.Null);
                       Sales.created_at := t |}).
    { unfold Ledger.perform, Ledger.answer_of.
      rewrite (sale_recorded req t s n a rest cu sp cp cq); subst pc; auto. }
    rewrite E. clear E.
    set (row := {| Sales.id := sales_id_seq s + 1; Sales.agent_id := n;
                   Sales.customer_id := cu; Sales.sale_price := sp;
                   Sales.commission_percent := cp; Sales.commission_amount := cq;
                   Sales.note := PG.param (JS.or (Http.body req "note") JS.Null);
                   Sales.created_at := t |}).
    assert (Hid : (Agents.id a =? n)%Z = true).
    { assert (In a (agents_by_id s n)) as Hin by (rewrite Hrows; left; reflexivity).
      apply filter_In in Hin. apply Hin. }
    assert (Hrows1 : agents_by_id (Ledger.credited s row) n
                     = bump (Some cq) n a :: map (bump (Some cq) n) rest).
    { unfold agents_by_id in *. cbn. rewrite agents_by_id_bump, Hrows. reflexivity. }
    assert (Hsales1 : sales_of (Ledger.credited s row) n = (sales_of s n ++ [row])%list).
    { unfold sales_of. cbn. rewrite filter_app. cbn. rewrite Z.eqb_refl. reflexivity. }
    destruct (IH (Ledger.credited s row) (bump (Some cq) n a)
                 (map (bump (Some cq) n) rest) (b + cq) Hrows1)
      as [Hlen [Hin [a' [rest' [b' [Hr' [Hb' Hq]]]]]]].
    + unfold bump. rewrite Hid. exact Hpc.
    + unfold bump. rewrite Hid. cbn. rewrite Hb. reflexivity.
    + exact Hk.
    + split; [|split].
      * rewrite Hlen, Hsales1, length_app. cbn. lia.
      * intros r Hr. destruct (Hin r Hr) as [H|H]; [|right; exact H].
        rewrite Hsales1 in H. apply in_app_or in H.
        destruct H as [H|[<-|[]]]; [left; exact H|right; reflexivity].
      * exists a', rest', b'. repeat split; auto.
        rewrite Hq, Nat2Z.inj_succ. unfold Z.succ. rewrite inject_Z_plus.
        change (inject_Z 1) with 1. ring.
Qed.

End ManySales.


(** A sale, a payout of the whole balance and a second sale of [part_003],
    their statements taking turns: the payout waits for the lock the first
    sale holds, finds the 20 that sale has credited and is approved. *)
Example three_calls_take_turns :
  let w := Discipline.interleaved Fixtures.round_robin Fixtures.agent_A
             Fixtures.three_calls in
  map Sessions.answered (Sessions.sessions w)
  = [Some (Http.reply (Http.sale_json 1 10%float 20%float));
     Some (Http.reply (Http.id_json 1));
     Some (Http.reply (Http.sale_json 2 10%float 20%float))]
  /\ Sessions.store_of w = Ledger.after Fixtures.agent_A Fixtures.three_calls.
Proof.
  vm_compute. split; reflexivity.
Qed.



(* ================================================================== *)
(** * Further properties of the handlers *)
(* ================================================================== *)

Section Strings.

Local Open Scope string_scope.

Lemma trimStart_head (s : string) : Text.head_kept (JS.trimStart s).
Proof.
  induction s as [|c r IH]; cbn; [exact I|].
  destruct (JS.is_space c) eqn:E; [exact IH|exact E].
Qed.

Lemma trimStart_kept (s : string) : Text.head_kept s -> JS.trimStart s = s.
Proof.
  destruct s as [|c r]; cbn; [reflexivity|]. intros ->. reflexivity.
Qed.

Lemma trimEnd_head (s : string) : Text.head_kept s -> Text.head_kept (JS.trimEnd s).
Proof.
  destruct s as [|c r]; cbn; [auto|]. intros H.
  destruct (JS.trimEnd r); [rewrite H|]; exact H.
Qed.

Lemma trimEnd_idempotent (s : string) : JS.trimEnd (JS.trimEnd s) = JS.trimEnd s.
Proof.
  induction s as [|c r IH]; cbn; [reflexivity|].
  destruct (JS.trimEnd r) as [|d r'] eqn:E.
  - destruct (JS.is_space c) eqn:Hc; cbn; [reflexivity|]. rewrite Hc. reflexivity.
  - cbn. cbn in IH. destruct (JS.trimEnd r') as [|e r'']; rewrite IH; reflexivity.
Qed.

(** [s.trim().trim()] is [s.trim()]. *)
Lemma trim_idempotent (s : string) : JS.trim (JS.trim s) = JS.trim s.
Proof.
  unfold JS.trim.
  rewrite (trimStart_kept (JS.trimEnd (JS.trimStart s)))
    by (apply trimEnd_head, trimStart_head).
  apply trimEnd_idempotent.
Qed.

Lemma trimStart_blank (sp s : string) :
  Text.blank sp = true -> JS.trimStart (sp ++ s) = JS.trimStart s.
Proof.
  induction sp as [|c r IH]; cbn; [reflexivity|]. intros H.
  apply andb_true_iff in H. destruct H as [Hc Hr]. rewrite Hc. apply IH. exact Hr.
Qed.

Lemma trimStart_of_blank (sp : string) : Text.blank sp = true -> JS.trimStart sp = "".
Proof.
  induction sp as [|c r IH]; cbn; [reflexivity|]. intros H.
  apply andb_true_iff in H. destruct H as [Hc Hr]. rewrite Hc. apply IH. exact Hr.
Qed.

Lemma trimEnd_of_blank (sp : string) : Text.blank sp = true -> JS.trimEnd sp = "".
Proof.
  induction sp as [|c r IH]; cbn; [reflexivity|]. intros H.
  apply andb_true_iff in H. destruct H as [Hc Hr]. rewrite (IH Hr), Hc. reflexivity.
Qed.

Lemma trimEnd_blank (s sp : string) :
  Text.blank sp = true -> JS.trimEnd (s ++ sp) = JS.trimEnd s.
Proof.
  intros H. induction s as [|c r IH]; cbn.
  - apply trimEnd_of_blank. exact H.
  - rewrite IH. reflexivity.
Qed.

(** White space around a text that has none of its own is what [trim]
    removes. *)
Lemma trim_padded (sp1 k sp2 : string) :
  Text.blank sp1 = true -> Text.blank sp2 = true -> JS.trim k = k ->
  JS.trim (sp1 ++ k ++ sp2) = k.
Proof.
  intros H1 H2 Hk. unfold JS.trim. rewrite (trimStart_blank sp1 _ H1).
  assert (Hhead : Text.head_kept k).
  { rewrite <- Hk. unfold JS.trim. apply trimEnd_head, trimStart_head. }
  destruct k as [|c r].
  - cbn. rewrite (trimStart_of_blank sp2 H2). reflexivity.
  - assert (E : JS.trimStart (String c r ++ sp2) = String c r ++ sp2).
    { apply trimStart_kept. exact Hhead. }
    rewrite E, (trimEnd_blank _ _ H2).
    unfold JS.trim in Hk. rewrite (trimStart_kept _ Hhead) in Hk. exact Hk.
Qed.

End Strings.

Section Reports.

Import Schema.
Local Open Scope string_scope.
Local Open Scope list_scope.

Lemma insert_desc_sorted {A : Type} (key : A -> Z) (x : A) (l : list A) :
  StronglySorted (fun a b => (key b <= key a)%Z) l ->
  StronglySorted (fun a b => (key b <= key a)%Z) (insert_desc key x l).
Proof.
  induction l as [|y l IH]; intros H; cbn.
  - constructor; constructor.
  - inversion H as [|y' l' Hl Hy]; subst.
    destruct (key y <? key x)%Z eqn:E.
    + apply Z.ltb_lt in E. constructor; [exact H|].
      constructor; [lia|]. rewrite Forall_forall in *. intros z Hz.
      specialize (Hy z Hz). lia.
    + apply Z.ltb_ge in E. constructor; [apply IH; exact Hl|].
      rewrite Forall_forall in *. intros z Hz.
      apply in_insert_desc in Hz. destruct Hz as [->|Hz]; [exact E|apply Hy; exact Hz].
Qed.

(** [ORDER BY key DESC]: the rows come out with the greatest key first. *)
Lemma order_desc_sorted {A : Type} (key : A -> Z) (l : list A) :
  StronglySorted (fun a b => (key b <= key a)%Z) (order_desc key l).
Proof.
  unfold order_desc. induction (rev l) as [|x r IH]; cbn.
  - constructor.
  - apply insert_desc_sorted. exact IH.
Qed.

Lemma insert_desc_permutation {A : Type} (key : A -> Z) (x : A) (l : list A) :
  Permutation (insert_desc key x l) (x :: l).
Proof.
  induction l as [|y l IH]; cbn.
  - apply Permutation_refl.
  - destruct (key y <? key x)%Z; [apply Permutation_refl|].
    apply perm_trans with (y :: x :: l); [apply perm_skip; exact IH|apply perm_swap].
Qed.

Lemma order_desc_permutation {A : Type} (key : A -> Z) (l : list A) :
  Permutation (order_desc key l) l.
Proof.
  unfold order_desc. apply perm_trans with (rev l); [|apply Permutation_sym, Permutation_rev].
  induction (rev l) as [|x r IH]; cbn.
  - apply Permutation_refl.
  - apply perm_trans with (x :: fold_right (insert_desc key) [] r).
    + apply insert_desc_permutation.
    + apply perm_skip. exact IH.
Qed.

Lemma firstn_sorted {A : Type} (R : A -> A -> Prop) (n : nat) (l : list A) :
  StronglySorted R l -> StronglySorted R (firstn n l).
Proof.
  revert n. induction l as [|x l IH]; intros [|n] H; cbn; try constructor.
  - inversion H; subst. apply IH. assumption.
  - inversion H as [|y m Hm Hx]; subst. rewrite Forall_forall in *.
    intros z Hz. apply Hx. apply (in_firstn n). exact Hz.
Qed.

Lemma map_fst_sorted {A B : Type} (R : A -> A -> Prop) (f : A -> B) (l : list A) :
  StronglySorted R l ->
  StronglySorted (fun a b => R (fst a) (fst b)) (map (fun r => (r, f r)) l).
Proof.
  induction 1 as [|x l Hl IH Hx]; cbn; constructor; auto.
  rewrite Forall_forall in *. intros z Hz. apply in_map_iff in Hz.
  destruct Hz as [y [<- Hy]]. cbn. apply Hx. exact Hy.
Qed.

(** The report of an agent the id finds. *)
Lemma report_found (req : Http.request) (t : Z) (s : store)
  (n : Z) (a : Agents.row) (rest : list Agents.row) :
  JS.isFinite (JS.Number (Http.params req "id")) = true ->
  PG.int4_in (JS.toString (JS.Number (Http.params req "id"))) = Some n ->
  agents_by_id s n = a :: rest ->
  serve (Part003.get_api_agents_id_report req) t s
  = (Some (Part003.report_ok
             {| Part003.agent := a;
                Part003.salesAmountTotal := Qsum (map Sales.sale_price (sales_of s n));
                Part003.commissionTotal :=
                  Qsum (map Sales.commission_amount (sales_of s n));
                Part003.payoutsTotal := Qsum (map Payouts.amount (payouts_of s n));
                Part003.sales :=
                  map (fun r => (r, customer_name_of s (Sales.customer_id r)))
                      (firstn 200 (order_desc Sales.created_at (sales_of s n)));
                Part003.payouts :=
                  firstn 200 (order_desc Payouts.created_at (payouts_of s n)) |}),
     s).
Proof.
  intros H Hn Hrows. unfold serve, Part003.get_api_agents_id_report.
  rewrite H. cbn. unfold by_key. cbn. rewrite Hn. cbn.
  rewrite Hrows. cbn.
  do 4 (unfold by_key; cbn; rewrite ?Hn; cbn). reflexivity.
Qed.

(** X1.  [GET /api/agents/:id/report] of [part_003], case by case: an id that
    [Number] does not read to a finite number is answered 400; a finite one
    that is no 32-bit integer makes the first query fail and is answered 500;
    an integer that keys no agent is answered 404; otherwise the report of
    that agent is answered, with the two sums over all its rows and the
    newest 200 rows of each kind.  The store is left as it is in every case. *)
Theorem report_answers (req : Http.request) (t : Z) (s : store) :
  let agentId := JS.Number (Http.params req "id") in
  (JS.isFinite agentId = false ->
   serve (Part003.get_api_agents_id_report req) t s
   = (Some (Part003.report_fail (Http.fail 400 "invalid agent id")), s))
  /\ (JS.isFinite agentId = true ->
      PG.int4_in (JS.toString agentId) = None ->
      serve (Part003.get_api_agents_id_report req) t s
      = (Some (Part003.report_fail (Http.fail 500 "Server error")), s))
  /\ (forall n,
        JS.isFinite agentId = true ->
        PG.int4_in (JS.toString agentId) = Some n ->
        agents_by_id s n = [] ->
        serve (Part003.get_api_agents_id_report req) t s
        = (Some (Part003.report_fail (Http.fail 404 "agent not found")), s))
  /\ (forall n a rest,
        JS.isFinite agentId = true ->
        PG.int4_in (JS.toString agentId) = Some n ->
        agents_by_id s n = a :: rest ->
        serve (Part003.get_api_agents_id_report req) t s
        = (Some (Part003.report_ok
                   {| Part003.agent := a;
                      Part003.salesAmountTotal :=
                        Qsum (map Sales.sale_price (sales_of s n));
                      Part003.commissionTotal :=
                        Qsum (map Sales.commission_amount (sales_of s n));
                      Part003.payoutsTotal :=
                        Qsum (map Payouts.amount (payouts_of s n));
                      Part003.sales :=
                        map (fun r => (r, customer_name_of s (Sales.customer_id r)))
                            (firstn 200 (order_desc Sales.created_at (sales_of s n)));
                      Part003.payouts :=
                        firstn 200 (order_desc Payouts.created_at (payouts_of s n)) |}),
           s)).
Proof.
  intros agentId. unfold serve, Part003.get_api_agents_id_report. fold agentId.
  split; [|split; [|split]].
  - intros H. rewrite H. reflexivity.
  - intros H Hn. rewrite H. cbn. unfold by_key. cbn. rewrite Hn. reflexivity.
  - intros n H Hn Hrows. rewrite H. cbn. unfold by_key. cbn. rewrite Hn. cbn.
    rewrite Hrows. reflexivity.
  - intros n a rest H Hn Hrows. fold (Part003.get_api_agents_id_report req).
    apply (report_found req t s n a rest H Hn Hrows).
Qed.

(** X2.  The lists of a report: at most 200 sales and 200 payouts, all of the
    agent of the report, the newest first; when the agent has no more than
    200 rows of a kind they are all listed. *)
Theorem report_lists_the_newest_rows
  (req : Http.request) (t : Z) (s : store) (r : Part003.report) (s' : store) :
  serve (Part003.get_api_agents_id_report req) t s = (Some (Part003.report_ok r), s') ->
  let n := Agents.id (Part003.agent r) in
  (List.length (Part003.sales r) <= 200)%nat
  /\ (List.length (Part003.payouts r) <= 200)%nat
  /\ (forall row, In row (Part003.sales r) ->
                  In (fst row) (sales s) /\ Sales.agent_id (fst row) = n)
  /\ (forall row, In row (Part003.payouts r) ->
                  In row (payouts s) /\ Payouts.agent_id row = n)
  /\ StronglySorted (fun a b => (Sales.created_at (fst b) <= Sales.created_at (fst a))%Z)
                    (Part003.sales r)
  /\ StronglySorted (fun a b => (Payouts.created_at b <= Payouts.created_at a)%Z)
                    (Part003.payouts r)
  /\ ((List.length (sales_of s n) <= 200)%nat ->
      Permutation (map fst (Part003.sales r)) (sales_of s n))
  /\ ((List.length (payouts_of s n) <= 200)%nat ->
      Permutation (Part003.payouts r) (payouts_of s n)).
Proof.
  unfold serve, Part003.get_api_agents_id_report.
  set (agentId := JS.Number _).
  destruct (negb (JS.isFinite agentId)); [cbn; discriminate|].
  cbn. unfold by_key. cbn.
  destruct (PG.int4_in (JS.toString agentId)) as [k|] eqn:Hn; cbn; [|discriminate].
  destruct (agents_by_id s k) as [|a rest] eqn:Hrows; cbn; [discriminate|].
  do 4 (unfold by_key; cbn; rewrite ?Hn; cbn).
  intros E. injection E as Er Es. subst s' r. cbn.
  assert (Hin : In a (agents_by_id s k)) by (rewrite Hrows; left; reflexivity).
  apply filter_In in Hin. destruct Hin as [Hin Hid]. apply Z.eqb_eq in Hid. subst k.
  repeat split.
  - rewrite length_map. apply firstn_le_length.
  - apply firstn_le_length.
  - apply in_map_iff in H. destruct H as [x [<- Hx]]. cbn.
    apply in_firstn in Hx. rewrite in_order_desc in Hx. apply filter_In in Hx. tauto.
  - apply in_map_iff in H. destruct H as [x [<- Hx]]. cbn.
    apply in_firstn in Hx. rewrite in_order_desc in Hx. apply filter_In in Hx.
    destruct Hx as [_ Hx]. apply Z.eqb_eq in Hx. exact Hx.
  - apply in_firstn in H. rewrite in_order_desc in H. apply filter_In in H. tauto.
  - apply in_firstn in H. rewrite in_order_desc in H. apply filter_In in H.
    destruct H as [_ H]. apply Z.eqb_eq in H. exact H.
  - apply (map_fst_sorted (fun a b => (Sales.created_at b <= Sales.created_at a)%Z)).
    apply firstn_sorted. apply order_desc_sorted.
  - apply firstn_sorted. apply order_desc_sorted.
  - intros Hlen. rewrite map_map. cbn. rewrite map_id.
    rewrite firstn_all2; [apply order_desc_permutation|].
    rewrite (Permutation_length (order_desc_permutation Sales.created_at _)). exact Hlen.
  - intros Hlen.
    rewrite firstn_all2; [apply order_desc_permutation|].
    rewrite (Permutation_length (order_desc_permutation Payouts.created_at _)). exact Hlen.
Qed.

Lemma report_lists_the_newest_rows_witness :
  exists r,
    serve (Part003.get_api_agents_id_report (Samples.at_id "1")) 9 Samples.ledger
    = (Some (Part003.report_ok r), Samples.ledger)
    /\ (List.length (Part003.sales r) <= 200)%nat
    /\ StronglySorted
         (fun a b => (Sales.created_at (fst b) <= Sales.created_at (fst a))%Z)
         (Part003.sales r).
Proof.
  assert (E : exists r,
             serve (Part003.get_api_agents_id_report (Samples.at_id "1")) 9 Samples.ledger
             = (Some (Part003.report_ok r), Samples.ledger))
    by (eexists; vm_compute; reflexivity).
  destruct E as [r E]. exists r. split; [exact E|].
  destruct (report_lists_the_newest_rows _ _ _ _ _ E) as [H1 [_ [_ [_ [H5 _]]]]].
  split; assumption.
Defined.

End Reports.

Section Keys.

Import Schema.
Local Open Scope string_scope.
Local Open Scope list_scope.

Ltac params :=
  repeat (cbn;
          unfold exec_insert_sale, exec_insert_payout, exec_update_balance,
                 exec_insert_agent;
          cbn;
          match goal with
          | H : PG.numeric_in ?x = _ |- context [PG.numeric_in ?x] => rewrite H
          | H : PG.int4_in ?x = _ |- context [PG.int4_in ?x] => rewrite H
          | |- context [match PG.numeric_in ?x with _ => _ end] =>
              destruct (PG.numeric_in x) eqn:?
          | |- context [match PG.int4_in ?x with _ => _ end] =>
              destruct (PG.int4_in x) eqn:?
          | |- context [match bind PG.int4_in ?x with _ => _ end] =>
              destruct (bind PG.int4_in x) as [[?|]|?] eqn:?
          | |- context [match bind PG.numeric_in ?x with _ => _ end] =>
              destruct (bind PG.numeric_in x) as [[?|]|?] eqn:?
          | |- context [if ?b then _ else _] => destruct b eqn:?
          end).

Lemma moved_on_refl (s : store) : Integrity.moved_on s s.
Proof. repeat split; lia. Qed.

(** What [POST /api/agents] of [part_003] does to the store. *)
Lemma create_effect (req : Http.request) (t : Z) (s : store) :
  exists resp s',
    serve (Part003.post_api_agents req) t s = (Some resp, s')
    /\ ((Http.status resp <> 200%Z /\ s' = s)
        \/ (exists row,
              resp = Http.reply (Http.id_json (Agents.id row))
              /\ s' = Integrity.registered s row
              /\ Integrity.clean row = true
              /\ Agents.id row = (agents_id_seq s + 1)%Z
              /\ Agents.name row = JS.trim (JS.String_ (Http.body req "name"))
              /\ Agents.phone row = PG.param (JS.or (Http.body req "phone") JS.Null)
              /\ Agents.balance row = Some (0 # 1)
              /\ Agents.created_at row = t)).
Proof.
  unfold serve, Part003.post_api_agents. cbv zeta.
  destruct (negb (JS.truthy (Http.body req "name")) || _)%bool eqn:Hname.
  { cbn. do 2 eexists. split; [reflexivity|]. left. split; [discriminate|reflexivity]. }
  apply orb_false_iff in Hname. destruct Hname as [_ Hname].
  cbn. unfold exec_insert_agent.
  destruct (bind PG.int4_in _) as [pct|e] eqn:Hpct; cbn.
  2:{ do 2 eexists. split; [reflexivity|]. left. split; [discriminate|reflexivity]. }
  do 2 eexists. split; [reflexivity|]. right.
  exists {| Agents.id := agents_id_seq s + 1;
            Agents.name := JS.trim (JS.String_ (Http.body req "name"));
            Agents.phone := PG.param (JS.or (Http.body req "phone") JS.Null);
            Agents.commission_percent :=
              match pct with Some z => Some (inject_Z z) | None => Some (0 # 1) end;
            Agents.balance := Some (0 # 1);
            Agents.created_at := t |}.
  split; [reflexivity|]. split; [reflexivity|]. cbn.
  repeat split.
  unfold Integrity.clean. cbn. rewrite Hname, trim_idempotent, String.eqb_refl. cbn.
  destruct pct; reflexivity.
Qed.

(** What [POST /api/sales] of [part_003] does to the store. *)
Lemma sale_effect (req : Http.request) (t : Z) (s : store) :
  exists resp s',
    serve (Part003.post_api_sales req) t s = (Some resp, s')
    /\ ((Http.status resp <> 200%Z /\ Integrity.moved_on s s')
        \/ (exists row,
              s' = Ledger.credited s row
              /\ Sales.id row = (sales_id_seq s + 1)%Z
              /\ has_agent s (Sales.agent_id row) = true
              /\ match Sales.customer_id row with
                 | Some k => has_customer s k
                 | None => true
                 end = true)).
Proof.
  unfold serve, Part003.post_api_sales. cbv zeta.
  set (aId := JS.Number (Http.body req "agentId")).
  set (price := JS.Number _).
  set (cu := PG.param (if JS.Number_isFinite _ then _ else _)).
  set (nt := PG.param (JS.or _ _)).
  destruct (negb (JS.isFinite aId)) eqn:Ha.
  { cbn. do 2 eexists. split; [reflexivity|]. left.
    split; [discriminate|apply moved_on_refl]. }
  destruct (negb (JS.isFinite price) || _)%bool eqn:Hp.
  { cbn. do 2 eexists. split; [reflexivity|]. left.
    split; [discriminate|apply moved_on_refl]. }
  cbn. unfold by_key. cbn.
  destruct (PG.int4_in (JS.toString aId)) as [n|] eqn:Hn; cbn.
  2:{ do 2 eexists. split; [reflexivity|]. left.
      split; [discriminate|apply moved_on_refl]. }
  destruct (agents_by_id s n) as [|a rest] eqn:Hrows; cbn.
  { do 2 eexists. split; [reflexivity|]. left.
    split; [discriminate|apply moved_on_refl]. }
  unfold exec_insert_sale, exec_update_balance. cbn. rewrite Hn.
  params; (do 2 eexists; split; [reflexivity|]);
    try (left; split; [discriminate|repeat split; cbn; lia]; fail).
  all: right.
  all: match goal with |- context [insert_sales ?r] => exists r end.
  all: match goal with
       | H : (_ && _)%bool = true |- _ =>
           apply andb_true_iff in H; destruct H as [H1 H2]
       end.
  all: repeat split; try reflexivity; try exact H1; try exact H2.
Qed.

(** What [POST /api/payouts] of [part_003] does to the store. *)
Lemma payout_effect (req : Http.request) (t : Z) (s : store) :
  exists resp s',
    serve (Part003.post_api_payouts req) t s = (Some resp, s')
    /\ ((Http.status resp <> 200%Z /\ Integrity.moved_on s s')
        \/ (exists row,
              s' = Ledger.debited s row
              /\ Payouts.id row = (payouts_id_seq s + 1)%Z
              /\ has_agent s (Payouts.agent_id row) = true)).
Proof.
  unfold serve, Part003.post_api_payouts. cbv zeta.
  set (aId := JS.Number (Http.body req "agentId")).
  set (amt := JS.Number _).
  set (nt := PG.param (JS.or _ _)).
  destruct (negb (JS.isFinite aId)) eqn:Ha.
  { cbn. do 2 eexists. split; [reflexivity|]. left.
    split; [discriminate|apply moved_on_refl]. }
  destruct (negb (JS.isFinite amt) || _)%bool eqn:Hp.
  { cbn. do 2 eexists. split; [reflexivity|]. left.
    split; [discriminate|apply moved_on_refl]. }
  cbn. unfold by_key. cbn.
  destruct (PG.int4_in (JS.toString aId)) as [n|] eqn:Hn; cbn.
  2:{ do 2 eexists. split; [reflexivity|]. left.
      split; [discriminate|apply moved_on_refl]. }
  destruct (agents_by_id s n) as [|a rest] eqn:Hrows; cbn.
  { do 2 eexists. split; [reflexivity|]. left.
    split; [discriminate|apply moved_on_refl]. }
  destruct (PrimFloat.ltb _ amt) eqn:Hlt; cbn.
  { do 2 eexists. split; [reflexivity|]. left.
    split; [discriminate|apply moved_on_refl]. }
  params; (do 2 eexists; split; [reflexivity|]);
    try (left; split; [discriminate|repeat split; cbn; lia]; fail).
  all: right.
  all: match goal with |- context [insert_payouts ?r] => exists r end.
  all: cbn.
  all: repeat split; auto.
Qed.

Lemma keyed_moved (l : list Z) (last last' : Z) :
  Integrity.keyed l last = true -> (last <= last')%Z -> Integrity.keyed l last' = true.
Proof.
  unfold Integrity.keyed. intros H Hle. apply andb_true_iff in H. destruct H as [Hd Hf].
  rewrite Hd. cbn. rewrite forallb_forall in *. intros x Hx. specialize (Hf x Hx).
  apply Z.leb_le. apply Z.leb_le in Hf. lia.
Qed.

(** The next value of the sequence is a key the table does not hold. *)
Lemma keyed_next (l : list Z) (last : Z) :
  Integrity.keyed l last = true -> Integrity.keyed (l ++ [last + 1]%Z) (last + 1) = true.
Proof.
  unfold Integrity.keyed. intros H. apply andb_true_iff in H. destruct H as [Hd Hf].
  apply andb_true_iff. split.
  - induction l as [|x l IH]; cbn; [reflexivity|].
    cbn in Hd, Hf. apply andb_true_iff in Hd. destruct Hd as [Hx Hd].
    apply andb_true_iff in Hf. destruct Hf as [Hxl Hf].
    rewrite (IH Hd Hf), andb_true_r. rewrite existsb_app. cbn.
    apply negb_true_iff in Hx. rewrite Hx. cbn. rewrite orb_false_r.
    apply negb_true_iff. apply Z.eqb_neq. apply Z.leb_le in Hxl. lia.
  - rewrite forallb_app. cbn. rewrite Z.leb_refl, andb_true_r.
    rewrite forallb_forall in *. intros x Hx. specialize (Hf x Hx).
    apply Z.leb_le. apply Z.leb_le in Hf. lia.
Qed.

Lemma bump_id (d : option Q) (n : Z) (a : Agents.row) :
  Agents.id (bump d n a) = Agents.id a.
Proof. unfold bump. destruct (Agents.id a =? n)%Z; reflexivity. Qed.

Lemma bump_ids (d : option Q) (n : Z) (l : list Agents.row) :
  map Agents.id (map (bump d n) l) = map Agents.id l.
Proof.
  rewrite map_map. apply map_ext. intros a. apply bump_id.
Qed.

Lemma bump_clean (q : Q) (n : Z) (a : Agents.row) :
  Integrity.clean a = true -> Integrity.clean (bump (Some q) n a) = true.
Proof.
  unfold Integrity.clean, bump. destruct (Agents.id a =? n)%Z; [|auto]. cbn.
  destruct (Agents.balance a); cbn; auto.
Qed.

Lemma has_agent_bumped (d : option Q) (n k : Z) (l : list Agents.row) :
  existsb (fun a => (Agents.id a =? k)%Z) (map (bump d n) l)
  = existsb (fun a => (Agents.id a =? k)%Z) l.
Proof.
  induction l as [|a l IH]; cbn; [reflexivity|]. rewrite bump_id, IH. reflexivity.
Qed.

Ltac conjuncts H :=
  unfold Integrity.well_formed in H;
  repeat (let H' := fresh H in apply andb_true_iff in H; destruct H as [H H']).

Ltac parts :=
  unfold Integrity.well_formed;
  apply andb_true_iff; split;
  [apply andb_true_iff; split;
   [apply andb_true_iff; split; [apply andb_true_iff; split|]|]|].

Lemma well_formed_moved_on (s s' : store) :
  Integrity.well_formed s = true -> Integrity.moved_on s s' ->
  Integrity.well_formed s' = true.
Proof.
  intros H [[Ha [Hc [Hs Hp]]] [L1 [L2 L3]]]. conjuncts H. parts.
  - rewrite Ha. exact H.
  - rewrite Ha. apply (keyed_moved _ _ _ H3 L1).
  - rewrite Hs. apply (keyed_moved _ _ _ H2 L2).
  - rewrite Hp. apply (keyed_moved _ _ _ H1 L3).
  - unfold Integrity.referenced, has_agent, has_customer in *.
    rewrite Ha, Hc, Hs, Hp. exact H0.
Qed.

Lemma well_formed_registered (s : store) (row : Agents.row) :
  Integrity.well_formed s = true ->
  Integrity.clean row = true ->
  Agents.id row = (agents_id_seq s + 1)%Z ->
  Integrity.well_formed (Integrity.registered s row) = true.
Proof.
  intros H Hrow Hid. conjuncts H. parts; cbn.
  - rewrite forallb_app, H. cbn. rewrite Hrow. reflexivity.
  - rewrite map_app. cbn. rewrite Hid. apply keyed_next. exact H3.
  - exact H2.
  - exact H1.
  - unfold Integrity.referenced, has_agent in *. cbn.
    apply andb_true_iff in H0. destruct H0 as [Hs Hp].
    apply andb_true_iff. split; apply forallb_forall; intros r Hr.
    + rewrite forallb_forall in Hs. specialize (Hs r Hr).
      apply andb_true_iff in Hs. destruct Hs as [Hs1 Hs2].
      rewrite existsb_app, Hs1. cbn. exact Hs2.
    + rewrite forallb_forall in Hp. rewrite existsb_app, (Hp r Hr). reflexivity.
Qed.

Lemma well_formed_credited (s : store) (row : Sales.row) :
  Integrity.well_formed s = true ->
  Sales.id row = (sales_id_seq s + 1)%Z ->
  has_agent s (Sales.agent_id row) = true ->
  match Sales.customer_id row with Some k => has_customer s k | None => true end = true ->
  Integrity.well_formed (Ledger.credited s row) = true.
Proof.
  intros H Hid Hag Hcu. conjuncts H. parts; cbn.
  - apply forallb_forall. intros a Ha. apply in_map_iff in Ha.
    destruct Ha as [x [<- Hx]]. apply bump_clean.
    rewrite forallb_forall in H. apply H. exact Hx.
  - rewrite bump_ids. exact H3.
  - rewrite map_app. cbn. rewrite Hid. apply keyed_next. exact H2.
  - exact H1.
  - unfold Integrity.referenced, has_agent, has_customer in *. cbn.
    apply andb_true_iff in H0. destruct H0 as [Hs Hp].
    rewrite forallb_app. cbn. rewrite !has_agent_bumped, Hag, Hcu. cbn.
    apply andb_true_iff. split; [apply andb_true_iff; split; [|reflexivity]|];
      apply forallb_forall; intros r Hr; rewrite has_agent_bumped.
    + rewrite forallb_forall in Hs. apply Hs. exact Hr.
    + rewrite forallb_forall in Hp. apply Hp. exact Hr.
Qed.

Lemma well_formed_debited (s : store) (row : Payouts.row) :
  Integrity.well_formed s = true ->
  Payouts.id row = (payouts_id_seq s + 1)%Z ->
  has_agent s (Payouts.agent_id row) = true ->
  Integrity.well_formed (Ledger.debited s row) = true.
Proof.
  intros H Hid Hag. conjuncts H. parts; cbn.
  - apply forallb_forall. intros a Ha. apply in_map_iff in Ha.
    destruct Ha as [x [<- Hx]]. apply bump_clean.
    rewrite forallb_forall in H. apply H. exact Hx.
  - rewrite bump_ids. exact H3.
  - exact H2.
  - rewrite map_app. cbn. rewrite Hid. apply keyed_next. exact H1.
  - unfold Integrity.referenced, has_agent, has_customer in *. cbn.
    apply andb_true_iff in H0. destruct H0 as [Hs Hp].
    rewrite forallb_app. cbn. rewrite !has_agent_bumped, Hag. cbn.
    apply andb_true_iff. split; [|apply andb_true_iff; split; [|reflexivity]];
      apply forallb_forall; intros r Hr; rewrite has_agent_bumped.
    + rewrite forallb_forall in Hs. apply Hs. exact Hr.
    + rewrite forallb_forall in Hp. apply Hp. exact Hr.
Qed.

Lemma well_formed_perform (s : store) (c : Integrity.call) :
  Integrity.well_formed s = true -> Integrity.well_formed (Integrity.perform s c) = true.
Proof.
  intros H. destruct c as [req t|req t|req t]; unfold Integrity.perform.
  - destruct (create_effect req t s) as [resp [s' [E [[_ ->]|[row [_ [-> [Hc [Hid _]]]]]]]]];
      rewrite E; cbn; [exact H|].
    apply well_formed_registered; assumption.
  - destruct (sale_effect req t s) as [resp [s' [E [[_ M]|[row [-> [Hid [Ha Hc]]]]]]]];
      rewrite E; cbn.
    + apply (well_formed_moved_on s s' H M).
    + apply well_formed_credited; assumption.
  - destruct (payout_effect req t s) as [resp [s' [E [[_ M]|[row [-> [Hid Ha]]]]]]];
      rewrite E; cbn.
    + apply (well_formed_moved_on s s' H M).
    + apply well_formed_debited; assumption.
Qed.

(** X3.  Whatever calls are made, in whatever order, and whether they succeed or
    fail: the keys of agents, sales and payouts stay pairwise distinct and
    behind their sequences, every sale and payout keeps naming an agent of
    the table, and every agent keeps a name that is not empty and is
    trimmed, a rate and a balance that are not NULL. *)
Theorem calls_keep_the_tables_well_formed (s : store) (cs : list Integrity.call) :
  Integrity.well_formed s = true ->
  Integrity.well_formed (Integrity.after s cs) = true.
Proof.
  revert s. induction cs as [|c cs IH]; intros s H; cbn.
  - exact H.
  - apply IH. apply well_formed_perform. exact H.
Qed.

Lemma calls_keep_the_tables_well_formed_witness :
  Integrity.well_formed Fixtures.empty = true
  /\ Integrity.well_formed (Integrity.after Fixtures.empty Samples.calls) = true.
Proof.
  assert (H : Integrity.well_formed Fixtures.empty = true) by (vm_compute; reflexivity).
  split; [exact H|].
  apply (calls_keep_the_tables_well_formed Fixtures.empty Samples.calls H).
Defined.

Lemma beyond_the_sequence (s : store) :
  Integrity.well_formed s = true -> has_agent s (agents_id_seq s + 1) = false.
Proof.
  intros H. conjuncts H. unfold Integrity.keyed in H3.
  apply andb_true_iff in H3. destruct H3 as [_ Hf].
  unfold has_agent. destruct (existsb _ (agents s)) eqn:E; [|reflexivity].
  apply existsb_exists in E. destruct E as [a [Ha Hid]]. apply Z.eqb_eq in Hid.
  rewrite forallb_forall in Hf. specialize (Hf (Agents.id a) (in_map _ _ _ Ha)).
  apply Z.leb_le in Hf. lia.
Qed.

Lemma no_agent_no_rows (s : store) (k : Z) :
  Integrity.well_formed s = true -> has_agent s k = false ->
  agents_by_id s k = [] /\ sales_of s k = [] /\ payouts_of s k = [].
Proof.
  intros H Hk. conjuncts H. unfold Integrity.referenced in H0.
  apply andb_true_iff in H0. destruct H0 as [Hs Hp].
  rewrite forallb_forall in Hs, Hp.
  split; [|split].
  - unfold agents_by_id. destruct (filter _ (agents s)) as [|a l] eqn:E; [reflexivity|].
    assert (In a (filter (fun a => (Agents.id a =? k)%Z) (agents s))) as Hin
        by (rewrite E; left; reflexivity).
    apply filter_In in Hin. destruct Hin as [Hin Hid].
    unfold has_agent in Hk.
    assert (existsb (fun a => (Agents.id a =? k)%Z) (agents s) = true) as C
        by (apply existsb_exists; eauto).
    congruence.
  - unfold sales_of. destruct (filter _ (sales s)) as [|r l] eqn:E; [reflexivity|].
    assert (In r (filter (fun r => (Sales.agent_id r =? k)%Z) (sales s))) as Hin
        by (rewrite E; left; reflexivity).
    apply filter_In in Hin. destruct Hin as [Hin Hid]. apply Z.eqb_eq in Hid.
    specialize (Hs r Hin). apply andb_true_iff in Hs. destruct Hs as [Hs _].
    rewrite Hid in Hs. congruence.
  - unfold payouts_of. destruct (filter _ (payouts s)) as [|r l] eqn:E; [reflexivity|].
    assert (In r (filter (fun r => (Payouts.agent_id r =? k)%Z) (payouts s))) as Hin
        by (rewrite E; left; reflexivity).
    apply filter_In in Hin. destruct Hin as [Hin Hid]. apply Z.eqb_eq in Hid.
    specialize (Hp r Hin). rewrite Hid in Hp. congruence.
Qed.

(** X4.  An agent just created is the agent its id finds: the report on the id
    that [POST /api/agents] answered shows the name as it was sent, trimmed,
    a balance of 0, no sale and no payout, and sums of 0. *)
Theorem created_agent_is_reported
  (req : Http.request) (t : Z) (s : store) (id : Z) (s' : store)
  (req' : Http.request) (t' : Z) :
  Integrity.well_formed s = true ->
  serve (Part003.post_api_agents req) t s = (Some (Http.reply (Http.id_json id)), s') ->
  JS.isFinite (JS.Number (Http.params req' "id")) = true ->
  PG.int4_in (JS.toString (JS.Number (Http.params req' "id"))) = Some id ->
  exists r,
    serve (Part003.get_api_agents_id_report req') t' s' = (Some (Part003.report_ok r), s')
    /\ Agents.id (Part003.agent r) = id
    /\ Agents.name (Part003.agent r) = JS.trim (JS.String_ (Http.body req "name"))
    /\ Agents.phone (Part003.agent r) = PG.param (JS.or (Http.body req "phone") JS.Null)
    /\ Agents.balance (Part003.agent r) = Some (0 # 1)
    /\ Agents.created_at (Part003.agent r) = t
    /\ Part003.sales r = []
    /\ Part003.payouts r = []
    /\ Part003.salesAmountTotal r = 0 # 1
    /\ Part003.commissionTotal r = 0 # 1
    /\ Part003.payoutsTotal r = 0 # 1.
Proof.
  intros H E Hfin Hid.
  destruct (create_effect req t s)
    as [resp [s1 [E1 [[Hno _]|[row [Hresp [Hs1 [Hc [Hrow [Hname [Hphone [Hbal Hat]]]]]]]]]]]];
    rewrite E1 in E; injection E as Er Es.
  { exfalso. apply Hno. rewrite Er. reflexivity. }
  rewrite Hresp in Er. injection Er as Er.
  assert (Hnew : has_agent s id = false).
  { rewrite <- Er, Hrow. apply beyond_the_sequence. exact H. }
  destruct (no_agent_no_rows s id H Hnew) as [Hag [Hsa Hpa]].
  assert (Hrows : agents_by_id s' id = [row]).
  { rewrite <- Es, Hs1. unfold agents_by_id, Integrity.registered. cbn.
    rewrite filter_app. unfold agents_by_id in Hag. rewrite Hag. cbn.
    rewrite Er, Z.eqb_refl. reflexivity. }
  assert (Hsales : sales_of s' id = []).
  { rewrite <- Es, Hs1. exact Hsa. }
  assert (Hpayouts : payouts_of s' id = []).
  { rewrite <- Es, Hs1. exact Hpa. }
  pose proof (report_found req' t' s' id row [] Hfin Hid Hrows) as R.
  rewrite Hsales, Hpayouts in R. cbn in R.
  eexists. split; [exact R|]. cbn. repeat split; auto.
Qed.

Lemma created_agent_is_reported_witness :
  let s' := snd (serve (Part003.post_api_agents Samples.new_agent) 1 Fixtures.empty) in
  exists r,
    serve (Part003.get_api_agents_id_report (Samples.at_id "1")) 2 s'
    = (Some (Part003.report_ok r), s')
    /\ Agents.name (Part003.agent r) = "Boom"
    /\ Agents.balance (Part003.agent r) = Some (0 # 1)
    /\ Part003.sales r = [].
Proof.
  intros s'.
  assert (H1 : Integrity.well_formed Fixtures.empty = true) by (vm_compute; reflexivity).
  assert (H2 : serve (Part003.post_api_agents Samples.new_agent) 1 Fixtures.empty
               = (Some (Http.reply (Http.id_json 1)), s')) by (vm_compute; reflexivity).
  assert (H3 : JS.isFinite (JS.Number (Http.params (Samples.at_id "1") "id")) = true)
    by (vm_compute; reflexivity).
  assert (H4 : PG.int4_in (JS.toString (JS.Number (Http.params (Samples.at_id "1") "id")))
               = Some 1%Z) by (vm_compute; reflexivity).
  destruct (created_agent_is_reported Samples.new_agent 1 Fixtures.empty 1 s'
              (Samples.at_id "1") 2 H1 H2 H3 H4)
    as [r [E [_ [Hname [_ [Hbal [_ [Hsales _]]]]]]]].
  exists r. split; [exact E|]. split; [|split; assumption].
  rewrite Hname. vm_compute. reflexivity.
Defined.

End Keys.

Section Credentials.

Local Open Scope string_scope.

Lemma not_blank_key (k : string) : k <> "" -> JS.trim k = k -> String.eqb (JS.trim k) "" = false.
Proof.
  intros Hk Ht. rewrite Ht. apply String.eqb_neq. exact Hk.
Qed.

(** X5.  [part_003] and [part_001] accept the key with or without its name in
    front, as the comment of the source says: ["API_KEY=" ++ k] is read as
    [k], and a text that does not begin with ["API_KEY="] is the key as it
    is.  An unset variable is the empty key. *)
Theorem key_with_or_without_its_name (k : string) :
  Part003.API_KEY (Some ("API_KEY=" ++ k)) = k
  /\ Part001.API_KEY (Some ("API_KEY=" ++ k)) = k
  /\ (JS.startsWith k "API_KEY=" = false ->
      Part003.API_KEY (Some k) = k /\ Part001.API_KEY (Some k) = k)
  /\ Part003.API_KEY None = ""
  /\ Part001.API_KEY None = "".
Proof.
  split; [destruct k; reflexivity|]. split; [destruct k; reflexivity|].
  split; [|split; reflexivity].
  intros H. split.
  - unfold Part003.API_KEY, Part003.RAW_API_KEY. rewrite H. reflexivity.
  - unfold Part001.API_KEY, Part001.RAW_API_KEY. rewrite H. reflexivity.
Qed.

Lemma bearer_token (x : string) : JS.replace_first ("Bearer " ++ x) "Bearer " = x.
Proof. destruct x; reflexivity. Qed.

Lemma bearer_prefix (x : string) : JS.startsWith ("Bearer " ++ x) "Bearer " = true.
Proof. destruct x; reflexivity. Qed.

(** X6.  The right credential is let through by [part_003] and [part_001]: the
    key in [x-api-key] when no Bearer token is sent, or the key after
    "Bearer ", with any white space around it, whatever [x-api-key] holds. *)
Theorem the_key_is_let_through (env : env_var) (req : Http.request) :
  Part003.API_KEY env <> "" ->
  (header req "x-api-key" = Some (Part003.API_KEY env) ->
   (forall h, header req "authorization" = Some h -> JS.startsWith h "Bearer " = false) ->
   Part003.auth env req = next /\ Part001.auth env req = next)
  /\ (forall sp1 sp2,
        Text.blank sp1 = true -> Text.blank sp2 = true ->
        JS.trim (Part003.API_KEY env) = Part003.API_KEY env ->
        header req "authorization"
        = Some ("Bearer " ++ sp1 ++ Part003.API_KEY env ++ sp2) ->
        Part003.auth env req = next /\ Part001.auth env req = next).
Proof.
  intros Hkey. apply String.eqb_neq in Hkey. split.
  - intros Hx Hb.
    assert (E : Part003.auth env req = next).
    { unfold Part003.auth. rewrite Hx, Hkey.
      destruct (header req "authorization") as [h|] eqn:Hh.
      - rewrite (Hb h eq_refl), andb_false_r. rewrite Hkey, String.eqb_refl. reflexivity.
      - rewrite Hkey, String.eqb_refl. reflexivity. }
    split; [exact E|]. exact E.
  - intros sp1 sp2 H1 H2 Ht Hh.
    assert (E : Part003.auth env req = next).
    { rewrite (auth_on_bearer env req _ Hh (bearer_prefix _)).
      rewrite bearer_token, (trim_padded sp1 _ sp2 H1 H2 Ht), Hkey, String.eqb_refl.
      reflexivity. }
    split; [exact E|]. exact E.
Qed.

Lemma the_key_is_let_through_witness :
  Part003.auth (Some "API_KEY=secret")
    (Fixtures.with_headers [("x-api-key", JS.Str "wrong");
                            ("authorization", JS.Str "Bearer   secret ")])
  = next.
Proof.
  assert (H : Part003.API_KEY (Some "API_KEY=secret") <> "")
    by (vm_compute; intros E; discriminate E).
  apply (proj2 (the_key_is_let_through (Some "API_KEY=secret")
                  (Fixtures.with_headers [("x-api-key", JS.Str "wrong");
                                          ("authorization", JS.Str "Bearer   secret ")]) H)
           "  " " "); reflexivity.
Defined.

(** X7.  [part_003] trims the Bearer token but not the key: a key with white
    space at either end is never matched by a Bearer token. *)
Theorem padded_key_never_matches_a_bearer_token
  (env : env_var) (req : Http.request) (h : string) :
  JS.trim (Part003.API_KEY env) <> Part003.API_KEY env ->
  header req "authorization" = Some h ->
  JS.startsWith h "Bearer " = true ->
  Part003.auth env req = answer (Http.fail 401 "Unauthorized")
  /\ Part001.auth env req = answer (Http.fail 401 "Unauthorized").
Proof.
  intros Hpad Hh Hp.
  assert (E : Part003.auth env req = answer (Http.fail 401 "Unauthorized")).
  { rewrite (auth_on_bearer env req h Hh Hp).
    destruct (String.eqb (JS.trim (JS.replace_first h "Bearer ")) (Part003.API_KEY env))
      eqn:Heq.
    - exfalso. apply String.eqb_eq in Heq. apply Hpad.
      rewrite <- Heq. apply trim_idempotent.
    - cbn. rewrite !orb_true_r. reflexivity. }
  split; [exact E|exact E].
Qed.

Lemma padded_key_never_matches_a_bearer_token_witness :
  Part003.auth (Some "secret ")
    (Fixtures.with_headers [("authorization", JS.Str "Bearer secret ")])
  = answer (Http.fail 401 "Unauthorized").
Proof.
  apply (proj1 (padded_key_never_matches_a_bearer_token (Some "secret ")
                  (Fixtures.with_headers [("authorization", JS.Str "Bearer secret ")])
                  "Bearer secret "
                  ltac:(vm_compute; intros E; discriminate E) eq_refl eq_refl)).
Defined.

Lemma after_letters_app (p s r : string) :
  Index2Auth.after_letters p s = Some "" ->
  Index2Auth.after_letters p (s ++ r) = Some r.
Proof.
  revert s. induction p as [|a p IH]; intros s H.
  - cbn in H. injection H as ->. reflexivity.
  - destruct s as [|c s]; [discriminate|]. cbn in *.
    destruct (Ascii.eqb (Index2Auth.capital c) (Index2Auth.capital a)); [|discriminate].
    apply IH. exact H.
Qed.

Lemma trimStart_idempotent (s : string) : JS.trimStart (JS.trimStart s) = JS.trimStart s.
Proof. apply trimStart_kept, trimStart_head. Qed.

Lemma strip_last_quote_added (k : string) :
  Index2Auth.strip_last_quote (k ++ String Index2Auth.quote "") = k.
Proof.
  induction k as [|c r IH]; [reflexivity|].
  destruct r as [|d r']; [reflexivity|].
  change (String c (Index2Auth.strip_last_quote
                      (String d r' ++ String Index2Auth.quote "")) = String c (String d r')).
  rewrite IH. reflexivity.
Qed.

Lemma quoted_is_trimmed (k : string) :
  JS.trim (String Index2Auth.quote (k ++ String Index2Auth.quote ""))
  = String Index2Auth.quote (k ++ String Index2Auth.quote "").
Proof.
  unfold JS.trim. rewrite trimStart_kept by reflexivity.
  cbn [JS.trimEnd].
  assert (E : JS.trimEnd (k ++ String Index2Auth.quote "")
              = k ++ String Index2Auth.quote "").
  { induction k as [|c r IH]; [reflexivity|].
    cbn [append JS.trimEnd]. rewrite IH.
    destruct r; reflexivity. }
  rewrite E. destruct k; reflexivity.
Qed.

(** X8.  The key of the second [index.js] is read however the variable was
    pasted: after the name [API_KEY] in any case, white space around [=] and
    around the value, the value is the key, taken between double quotes when
    they are there and as it is when it has no white space or quote at its
    ends. *)
Theorem key_is_read_however_it_was_pasted (name sp1 sp2 sp3 k : string) :
  Index2Auth.after_letters "API_KEY" name = Some "" ->
  Text.blank sp1 = true -> Text.blank sp2 = true -> Text.blank sp3 = true ->
  Index2Auth.API_KEY
    (Some (name ++ sp1 ++ "=" ++ sp2
           ++ String Index2Auth.quote (k ++ String Index2Auth.quote "") ++ sp3)) = k
  /\ (JS.trim k = k -> Index2Auth.strip_quotes k = k ->
      Index2Auth.API_KEY (Some (name ++ sp1 ++ "=" ++ sp2 ++ k ++ sp3)) = k).
Proof.
  intros Hname H1 H2 H3.
  assert (Hstrip : forall v, JS.trim v = v ->
             JS.trim (Index2Auth.strip_name (name ++ sp1 ++ "=" ++ sp2 ++ v ++ sp3)) = v).
  { intros v Hv. unfold Index2Auth.strip_name.
    rewrite (after_letters_app _ _ _ Hname).
    rewrite (trimStart_blank sp1 _ H1). cbn [append JS.trimStart].
    change (JS.is_space "=") with false. cbn iota.
    unfold JS.trim. rewrite trimStart_idempotent.
    apply (trim_padded sp2 v sp3 H2 H3 Hv). }
  split.
  - unfold Index2Auth.API_KEY, Index2Auth.API_KEY_RAW.
    rewrite (Hstrip _ (quoted_is_trimmed k)).
    unfold Index2Auth.strip_quotes. rewrite Ascii.eqb_refl.
    apply strip_last_quote_added.
  - intros Hk Hq. unfold Index2Auth.API_KEY, Index2Auth.API_KEY_RAW.
    rewrite (Hstrip k Hk). exact Hq.
Qed.

Lemma key_is_read_however_it_was_pasted_witness :
  Index2Auth.API_KEY (Some ("Api_Key" ++ " " ++ "=" ++ "  " ++ "secret" ++ " ")) = "secret".
Proof.
  apply (proj2 (key_is_read_however_it_was_pasted "Api_Key" " " "  " " " "secret"
                  eq_refl eq_refl eq_refl eq_refl)); reflexivity.
Defined.

Lemma length_app (a b : string) :
  String.length (a ++ b) = (String.length a + String.length b)%nat.
Proof. induction a as [|c a IH]; [reflexivity|]. cbn. rewrite IH. reflexivity. Qed.

Lemma append_empty (a : string) : a ++ "" = a.
Proof. induction a as [|c a IH]; [reflexivity|]. cbn. rewrite IH. reflexivity. Qed.

Lemma padded_nonempty (sp1 k sp2 : string) :
  k <> "" -> String.eqb (sp1 ++ k ++ sp2) "" = false.
Proof.
  intros Hk. apply String.eqb_neq. destruct sp1; [|discriminate].
  destruct k; [contradiction|discriminate].
Qed.

(** The verdict of [auth] in the second [index.js] on a request with a
    Bearer header. *)
Lemma auth_on_bearer_index2 (env : env_var) (req : Http.request) (h : string) :
  header req "authorization" = Some h ->
  JS.startsWith h "Bearer " = true ->
  Index2Auth.auth env req
  = if (String.eqb (JS.trim (JS.replace_first h "Bearer ")) ""
        || negb (String.eqb (JS.trim (JS.replace_first h "Bearer "))
                            (Index2Auth.API_KEY env)))%bool
    then answer (Http.fail 401 "Unauthorized")
    else next.
Proof.
  intros Hh Hp. unfold Index2Auth.auth.
  rewrite Hh, Hp, (prefix_nonempty h Hp). cbn [negb andb].
  assert (E : forall tok : option string,
            match tok with Some _ | None => Some (JS.trim (JS.replace_first h "Bearer ")) end
            = Some (JS.trim (JS.replace_first h "Bearer "))).
  { intros [t|]; reflexivity. }
  destruct (header req "x-api-key") as [k|]; [destruct (String.eqb k "")|];
    cbn zeta;
    (destruct (String.eqb (JS.trim (JS.replace_first h "Bearer ")) "") eqn:Hb;
     [rewrite Hb; reflexivity|]);
    rewrite trim_idempotent, Hb; reflexivity.
Qed.

(** The verdict of [auth] in the third [index.js] on a request with a
    Bearer header. *)
Lemma auth_on_bearer_index3 (env : env_var) (req : Http.request) (h : string) :
  header req "authorization" = Some h ->
  JS.startsWith h "Bearer " = true ->
  Index3.auth env req
  = if (String.eqb (JS.trim (JS.replace_first h "Bearer ")) ""
        || Index1.strict_neq (Some (JS.trim (JS.replace_first h "Bearer ")))
                             (Index3.API_KEY env))%bool
    then answer (Http.fail 401 "Unauthorized")
    else next.
Proof.
  intros Hh Hp. unfold Index3.auth.
  rewrite Hh, Hp, (prefix_nonempty h Hp). cbn [negb andb].
  destruct (header req "x-api-key") as [k|]; [destruct (String.eqb k "")|]; reflexivity.
Qed.

(** X9.  With [API_KEY] unset the first [index.js] lets through exactly the
    requests that carry no [x-api-key] header at all, while the second and
    the third answer 401 to every request. *)
Theorem without_a_key_only_the_first_server_is_open (req : Http.request) :
  (Index1.auth None req = next <-> header req "x-api-key" = None)
  /\ Index2Auth.auth None req = answer (Http.fail 401 "Unauthorized")
  /\ Index3.auth None req = answer (Http.fail 401 "Unauthorized").
Proof.
  split; [|split].
  - unfold Index1.auth, Index1.API_KEY, Index1.strict_neq.
    destruct (header req "x-api-key") as [k|]; split; intros H;
      try reflexivity; discriminate.
  - unfold Index2Auth.auth.
    change (Index2Auth.API_KEY None) with "".
    set (t1 := match header req "x-api-key" with
               | Some h => if String.eqb h "" then None else Some h
               | None => None
               end).
    set (t2 := match header req "authorization" with
               | Some h => if negb (String.eqb h "") && JS.startsWith h "Bearer "
                           then Some (JS.trim (JS.replace_first h "Bearer ")) else t1
               | None => t1
               end).
    cbn zeta. destruct t2 as [t|]; [|reflexivity].
    destruct (String.eqb t "") eqn:Ht.
    + rewrite Ht. reflexivity.
    + destruct (String.eqb (JS.trim t) "") eqn:Hb; [reflexivity|].
      cbn [orb negb]. reflexivity.
  - unfold Index3.auth, Index3.API_KEY, Index1.strict_neq.
    set (t1 := match header req "x-api-key" with
               | Some h => if String.eqb h "" then None else Some h
               | None => None
               end).
    set (t2 := match header req "authorization" with
               | Some h => if negb (String.eqb h "") && JS.startsWith h "Bearer "
                           then Some (JS.trim (JS.replace_first h "Bearer ")) else t1
               | None => t1
               end).
    cbn zeta. destruct t2 as [t|]; [|reflexivity].
    rewrite orb_true_r. reflexivity.
Qed.

(** X10.  The second [index.js] trims the credential before it compares: a key
    sent in [x-api-key] with white space around it, and no Bearer token, is
    let through exactly when it is the configured key.  The third
    [index.js] compares the header as it came, so the same request is
    answered 401 there as soon as there is white space on either side. *)
Theorem second_server_trims_the_credential
  (env : env_var) (req : Http.request) (sp1 k sp2 : string) :
  k <> "" -> JS.trim k = k ->
  Text.blank sp1 = true -> Text.blank sp2 = true ->
  header req "x-api-key" = Some (sp1 ++ k ++ sp2) ->
  (forall h, header req "authorization" = Some h -> JS.startsWith h "Bearer " = false) ->
  (Index2Auth.auth env req = next <-> Index2Auth.API_KEY env = k)
  /\ (Index3.auth (Some k) req = next <-> (sp1 = "" /\ sp2 = "")).
Proof.
  intros Hk Ht H1 H2 Hx Hb.
  pose proof (padded_nonempty sp1 k sp2 Hk) as Hne.
  assert (Hk0 : String.eqb k "" = false) by (apply String.eqb_neq; exact Hk).
  assert (E : match header req "authorization" with
              | Some h => if negb (String.eqb h "") && JS.startsWith h "Bearer "
                          then Some (JS.trim (JS.replace_first h "Bearer "))
                          else Some (sp1 ++ k ++ sp2)
              | None => Some (sp1 ++ k ++ sp2)
              end = Some (sp1 ++ k ++ sp2)).
  { destruct (header req "authorization") as [h|]; [|reflexivity].
    rewrite (Hb h eq_refl), andb_false_r. reflexivity. }
  split.
  - unfold Index2Auth.auth. rewrite Hx, Hne.
    cbn zeta. rewrite E, Hne, (trim_padded sp1 k sp2 H1 H2 Ht), Hk0. cbn [orb].
    destruct (String.eqb k (Index2Auth.API_KEY env)) eqn:Heq.
    + apply String.eqb_eq in Heq. split; [intros _; symmetry; exact Heq|reflexivity].
    + apply String.eqb_neq in Heq. split; [discriminate|].
      intros E'. exfalso. apply Heq. symmetry. exact E'.
  - unfold Index3.auth. rewrite Hx, Hne.
    cbn zeta. rewrite E, Hne. cbn [orb].
    unfold Index3.API_KEY, Index1.strict_neq.
    destruct (String.eqb (sp1 ++ k ++ sp2) k) eqn:Heq; cbn [negb].
    + apply String.eqb_eq in Heq. split; [|reflexivity]. intros _.
      apply (f_equal String.length) in Heq.
      rewrite !length_app in Heq.
      split.
      * destruct sp1; [reflexivity|cbn in Heq; lia].
      * destruct sp2; [reflexivity|cbn in Heq; lia].
    + apply String.eqb_neq in Heq. split; [discriminate|].
      intros (E1 & E2). exfalso. apply Heq.
      rewrite E1, E2. cbn. apply append_empty.
Qed.

Lemma second_server_trims_the_credential_witness :
  (Index2Auth.auth (Some "API_KEY = secret")
     (Fixtures.with_headers [("x-api-key", JS.Str " secret ")]) = next
   <-> Index2Auth.API_KEY (Some "API_KEY = secret") = "secret")
  /\ (Index3.auth (Some "secret")
        (Fixtures.with_headers [("x-api-key", JS.Str " secret ")]) = next
      <-> (" " = "" /\ " " = "")).
Proof.
  apply (second_server_trims_the_credential (Some "API_KEY = secret")
           (Fixtures.with_headers [("x-api-key", JS.Str " secret ")]) " " "secret" " ").
  - discriminate.
  - reflexivity.
  - reflexivity.
  - reflexivity.
  - reflexivity.
  - intros h H. discriminate H.
Defined.

(** X11.  In the second and the third [index.js] too, a request that carries an
    [Authorization] header beginning with "Bearer " is judged on the Bearer
    token alone: two such requests with the same [Authorization] header get
    the same verdict whatever their [x-api-key] headers, and a Bearer token
    that is not the key is answered 401 even beside the right [x-api-key]. *)
Theorem bearer_token_overrides_api_key_in_index_js
  (env : env_var) (req req' : Http.request) (h : string) :
  JS.startsWith h "Bearer " = true ->
  header req "authorization" = Some h ->
  header req' "authorization" = Some h ->
  Index2Auth.auth env req = Index2Auth.auth env req'
  /\ Index3.auth env req = Index3.auth env req'
  /\ (JS.trim (JS.replace_first h "Bearer ") <> Index2Auth.API_KEY env ->
      Index2Auth.auth env req = answer (Http.fail 401 "Unauthorized"))
  /\ (Some (JS.trim (JS.replace_first h "Bearer ")) <> Index3.API_KEY env ->
      Index3.auth env req = answer (Http.fail 401 "Unauthorized")).
Proof.
  intros Hp Hh Hh'.
  rewrite !(auth_on_bearer_index2 env _ h) by assumption.
  rewrite !(auth_on_bearer_index3 env _ h) by assumption.
  split; [reflexivity|split; [reflexivity|split]].
  - intros Hne. apply String.eqb_neq in Hne. rewrite Hne, orb_true_r. reflexivity.
  - intros Hne. unfold Index3.API_KEY, Index1.strict_neq in *.
    destruct env as [key|]; [|rewrite orb_true_r; reflexivity].
    assert (E : String.eqb (JS.trim (JS.replace_first h "Bearer ")) key = false).
    { apply String.eqb_neq. intros E. apply Hne. rewrite E. reflexivity. }
    rewrite E, orb_true_r. reflexivity.
Qed.

Lemma bearer_token_overrides_api_key_in_index_js_witness :
  Index2Auth.auth (Some "secret")
    (Fixtures.with_headers [("x-api-key", JS.Str "secret");
                            ("authorization", JS.Str "Bearer guess")])
  = answer (Http.fail 401 "Unauthorized").
Proof.
  apply (proj1 (proj2 (proj2
    (bearer_token_overrides_api_key_in_index_js (Some "secret")
       (Fixtures.with_headers [("x-api-key", JS.Str "secret");
                               ("authorization", JS.Str "Bearer guess")])
       (Fixtures.with_headers [("authorization", JS.Str "Bearer guess")])
       "Bearer guess" eq_refl eq_refl eq_refl)))).
  discriminate.
Defined.

End Credentials.

(* ------------------------------------------------------------------ *)
(** ** The handlers of the second [index.js] *)
(* ------------------------------------------------------------------ *)

Section Derived.

Import Index2.
Local Open Scope string_scope.
Local Open Scope list_scope.
Local Open Scope Z_scope.

(** [ORDER BY a.created_at ASC, a.id ASC], as a relation. *)
Lemma before_spec (a b : Agents.row) :
  before a b = true
  <-> (Agents.created_at a < Agents.created_at b
       \/ (Agents.created_at a = Agents.created_at b /\ Agents.id a <= Agents.id b)).
Proof.
  unfold before. rewrite orb_true_iff, andb_true_iff, Z.ltb_lt, Z.eqb_eq, Z.leb_le.
  reflexivity.
Qed.

Lemma before_total (a b : Agents.row) : before a b = false -> before b a = true.
Proof.
  intros H. apply before_spec.
  destruct (before a b) eqn:E; [discriminate|].
  assert (N : ~ (Agents.created_at a < Agents.created_at b
                 \/ (Agents.created_at a = Agents.created_at b
                     /\ Agents.id a <= Agents.id b))).
  { intros K. apply before_spec in K. congruence. }
  lia.
Qed.

Lemma before_trans (a b c : Agents.row) :
  before a b = true -> before b c = true -> before a c = true.
Proof. rewrite !before_spec. lia. Qed.

Lemma insert_asc_sorted (x : Agents.row) (l : list Agents.row) :
  StronglySorted (fun a b => before a b = true) l ->
  StronglySorted (fun a b => before a b = true) (insert_asc x l).
Proof.
  induction l as [|y l IH]; intros H; cbn.
  - constructor; constructor.
  - inversion H as [|y' l' Hl Hy]; subst.
    destruct (before x y) eqn:E.
    + constructor; [exact H|].
      constructor; [exact E|]. rewrite Forall_forall in *. intros z Hz.
      apply (before_trans x y z E). apply Hy. exact Hz.
    + constructor; [apply IH; exact Hl|].
      rewrite Forall_forall in *. intros z Hz.
      apply in_insert_asc in Hz. destruct Hz as [->|Hz].
      * apply before_total. exact E.
      * apply Hy. exact Hz.
Qed.

Lemma order_asc_sorted (l : list Agents.row) :
  StronglySorted (fun a b => before a b = true) (order_asc l).
Proof.
  unfold order_asc. induction l as [|x r IH]; cbn.
  - constructor.
  - apply insert_asc_sorted. exact IH.
Qed.

Lemma insert_asc_permutation (x : Agents.row) (l : list Agents.row) :
  Permutation (insert_asc x l) (x :: l).
Proof.
  induction l as [|y l IH]; cbn.
  - apply Permutation_refl.
  - destruct (before x y); [apply Permutation_refl|].
    apply perm_trans with (y :: x :: l); [apply perm_skip; exact IH|apply perm_swap].
Qed.

Lemma order_asc_permutation (l : list Agents.row) : Permutation (order_asc l) l.
Proof.
  unfold order_asc. induction l as [|x r IH]; cbn.
  - apply Permutation_refl.
  - apply perm_trans with (x :: fold_right insert_asc [] r).
    + apply insert_asc_permutation.
    + apply perm_skip. exact IH.
Qed.

(** X12.  [GET /api/agents] of the second [index.js] always answers with the
    list, whatever the request holds, and writes nothing: one row of totals
    for each agent, the agents taken by creation time and then by id, each
    with what it earned over all its sales, what it was paid over all its
    payouts, and the difference as its balance. *)
Theorem agents_are_listed_once_oldest_first (req : Http.request) (t : Z) (s : store) :
  exists l,
    serve (get_api_agents req) t s = (Some (rows_ok (map (totals_of s) l)), s)
    /\ Permutation l (agents s)
    /\ StronglySorted
         (fun a b => Agents.created_at a < Agents.created_at b
                     \/ (Agents.created_at a = Agents.created_at b
                         /\ Agents.id a <= Agents.id b)) l
    /\ forall a, In a l ->
         (earned (totals_of s a)
          == Schema.Qsum (map Sales.commission_amount
                            (filter (fun r => is_agent (Agents.id a) (Sales.agent_id r))
                                    (sales s))))%Q
         /\ (paid (totals_of s a)
             == Schema.Qsum (map Payouts.amount
                               (filter (fun r => is_agent (Agents.id a) (Payouts.agent_id r))
                                       (payouts s))))%Q
         /\ (balance (totals_of s a)
             == earned (totals_of s a) - paid (totals_of s a))%Q.
Proof.
  exists (order_asc (agents s)). split; [|split; [|split]].
  - unfold serve, get_api_agents, agentTotals. cbn. destruct s; reflexivity.
  - apply order_asc_permutation.
  - pose proof (order_asc_sorted (agents s)) as H.
    induction H as [|x l Hl IH Hx]; constructor; [exact IH|].
    rewrite Forall_forall in *. intros z Hz. apply before_spec. apply Hx. exact Hz.
  - intros a _. cbn. repeat split; reflexivity.
Qed.

(** An [INT] between 0 and 100 read from its column and sent back as a
    parameter is the same [INT]. *)
Lemma stored_percent_round_trip (p : Z) :
  0 <= p <= 100 ->
  PG.int4_in (JS.toString (PG.number_of_int4 p)) = Some p.
Proof.
  intros H.
  assert (E : forallb (fun q => match PG.int4_in (JS.toString (PG.number_of_int4 q)) with
                                | Some r => (r =? q)%Z
                                | None => false
                                end) (map Z.of_nat (seq 0 101)) = true)
    by (vm_compute; reflexivity).
  rewrite forallb_forall in E.
  specialize (E p).
  assert (Hin : In p (map Z.of_nat (seq 0 101))).
  { apply in_map_iff. exists (Z.to_nat p). split; [lia|]. apply in_seq. lia. }
  specialize (E Hin).
  destruct (PG.int4_in (JS.toString (PG.number_of_int4 p))) as [r|]; [|discriminate].
  apply Z.eqb_eq in E. subst r. reflexivity.
Qed.

Lemma key_finds_one_row (l : list Agents.row) (a b : Agents.row) :
  NoDup (map Agents.id l) -> In a l -> In b l -> Agents.id a = Agents.id b -> a = b.
Proof.
  induction l as [|x l IH]; intros Hnd Ha Hb E; [contradiction|].
  cbn in Hnd. inversion Hnd as [|y m Hx Hl]; subst.
  destruct Ha as [->|Ha], Hb as [->|Hb].
  - reflexivity.
  - exfalso. apply Hx. rewrite E. apply in_map. exact Hb.
  - exfalso. apply Hx. rewrite <- E. apply in_map. exact Ha.
  - apply IH; assumption.
Qed.

(** What [PUT /api/agents/:id] does: it leaves the store as it is, or it
    finds the agent and rewrites the rows of that key with the three values
    it settled on. *)
Lemma update_outcome (req : Http.request) (t : Z) (s : store) :
  let id := JS.Number (Http.params req "id") in
  exists resp s',
    serve (put_api_agents_id req) t s = (Some resp, s')
    /\ (s' = s
        \/ exists n row rest nm ph pct,
             Http.status resp = 200
             /\ PG.int4_in (JS.toString id) = Some n
             /\ filter (fun a => Agents.id a =? n) (agents s) = row :: rest
             /\ PG.param (match Http.body req "name" with
                          | JS.Undefined => JS.Str (Agents.name row)
                          | v => v
                          end) = Some nm
             /\ PG.param (match Http.body req "phone" with
                          | JS.Undefined => JS.Str (Agents.phone row)
                          | v => v
                          end) = Some ph
             /\ Schema.bind PG.int4_in
                  (PG.param (match Http.body req "commissionPercent" with
                             | JS.Undefined => int_column (Agents.commission_percent row)
                             | v => JS.Num (JS.Number v)
                             end)) = PG.Ok pct
             /\ s' = {| agents :=
                          map (fun a =>
                                 if Agents.id a =? n then
                                   {| Agents.id := Agents.id a; Agents.name := nm;
                                      Agents.phone := ph; Agents.commission_percent := pct;
                                      Agents.created_at := Agents.created_at a |}
                                 else a) (agents s);
                        customers := customers s; sales := sales s; payouts := payouts s;
                        agents_id_seq := agents_id_seq s; sales_id_seq := sales_id_seq s;
                        payouts_id_seq := payouts_id_seq s |}).
Proof.
  intros id. subst id. unfold serve, put_api_agents_id. cbv zeta.
  destruct (negb (JS.truthy (JS.Num (JS.Number (Http.params req "id"))))).
  { cbn. do 2 eexists. split; [reflexivity|]. left. destruct s; reflexivity. }
  match goal with
  | |- context [if ?b then PG.Ret (Http.fail 400 "commissionPercent must be 0-100") else _] =>
      destruct b
  end.
  { cbn. do 2 eexists. split; [reflexivity|]. left. destruct s; reflexivity. }
  cbn. unfold by_key. cbn.
  destruct (PG.int4_in (JS.toString (JS.Number (Http.params req "id")))) as [n|] eqn:Hn; cbn.
  2: { do 2 eexists. split; [reflexivity|]. left. destruct s; reflexivity. }
  destruct (filter (fun a => Agents.id a =? n) (agents s)) as [|row rest] eqn:Hrows; cbn.
  { do 2 eexists. split; [reflexivity|]. left. destruct s; reflexivity. }
  assert (Hag : has_agent s n = true).
  { unfold has_agent. apply existsb_exists. exists row.
    assert (In row (filter (fun x => Agents.id x =? n) (agents s))) as Hin
      by (rewrite Hrows; left; reflexivity).
    apply filter_In in Hin. exact Hin. }
  assert (Epct : match
                   match Http.body req "commissionPercent" with
                   | JS.Undefined => JS.Null
                   | _ => JS.Num (JS.Number (Http.body req "commissionPercent"))
                   end
                 with
                 | JS.Null => int_column (Agents.commission_percent row)
                 | _ =>
                     match Http.body req "commissionPercent" with
                     | JS.Undefined => JS.Null
                     | _ => JS.Num (JS.Number (Http.body req "commissionPercent"))
                     end
                 end
                 = match Http.body req "commissionPercent" with
                   | JS.Undefined => int_column (Agents.commission_percent row)
                   | v => JS.Num (JS.Number v)
                   end).
  { destruct (Http.body req "commissionPercent"); reflexivity. }
  rewrite Epct. clear Epct.
  remember (PG.param match Http.body req "name" with
                     | JS.Undefined => JS.Str (Agents.name row)
                     | _ => Http.body req "name"
                     end) as pn eqn:Epn.
  remember (PG.param match Http.body req "phone" with
                     | JS.Undefined => JS.Str (Agents.phone row)
                     | _ => Http.body req "phone"
                     end) as pp eqn:Epp.
  remember (PG.param match Http.body req "commissionPercent" with
                     | JS.Undefined => int_column (Agents.commission_percent row)
                     | v => JS.Num (JS.Number v)
                     end) as pc eqn:Epc.
  unfold exec_update_agent. cbn. rewrite Hn. cbn.
  destruct (Schema.bind PG.int4_in pc) as [pct|e] eqn:Hpct; cbn.
  2: { do 2 eexists. split; [reflexivity|]. left. destruct s; reflexivity. }
  rewrite Hag.
  destruct pn as [nm|], pp as [ph|]; cbn;
    try (do 2 eexists; split; [reflexivity|]; left; destruct s; reflexivity).
  do 2 eexists. split; [reflexivity|]. right.
  exists n, row, rest, nm, ph, pct.
  split; [reflexivity|]. split; [reflexivity|]. split; [exact Hrows|].
  split; [rewrite Epn; destruct (Http.body req "name"); reflexivity|].
  split; [rewrite Epp; destruct (Http.body req "phone"); reflexivity|].
  split; [|reflexivity].
  rewrite <- Hpct, Epc. destruct (Http.body req "commissionPercent"); reflexivity.
Qed.

Lemma found_row (s : store) (n : Z) (row : Agents.row) (rest : list Agents.row) :
  filter (fun a => Agents.id a =? n) (agents s) = row :: rest ->
  In row (agents s) /\ Agents.id row = n.
Proof.
  intros H.
  assert (Hin : In row (filter (fun a => Agents.id a =? n) (agents s)))
    by (rewrite H; left; reflexivity).
  apply filter_In in Hin. destruct Hin as [Hin Hid]. apply Z.eqb_eq in Hid. tauto.
Qed.

Lemma kept_percent (row : Agents.row) (pct : option Z) :
  (forall p, Agents.commission_percent row = Some p -> 0 <= p <= 100) ->
  Schema.bind PG.int4_in (PG.param (int_column (Agents.commission_percent row))) = PG.Ok pct ->
  pct = Agents.commission_percent row.
Proof.
  intros Hr H. destruct (Agents.commission_percent row) as [p|]; cbn in H.
  - rewrite (stored_percent_round_trip p (Hr p eq_refl)) in H. congruence.
  - congruence.
Qed.

(** X13.  [PUT /api/agents/:id] changes only what it was sent.  Whatever the
    request, it always answers, no agent appears or disappears, no id and no
    creation time changes, and an agent whose id is not the one in the path
    keeps its row.  With [id] the primary key of [agents]: a field missing
    from the body keeps its value in every row - the name, the phone, and
    the rate when the stored rates are between 0 and 100 - and a request
    with none of the three fields leaves the store as it was. *)
Theorem update_changes_only_what_is_sent (req : Http.request) (t : Z) (s : store) :
  NoDup (map Agents.id (agents s)) ->
  exists resp s',
    serve (put_api_agents_id req) t s = (Some resp, s')
    /\ map Agents.id (agents s') = map Agents.id (agents s)
    /\ map Agents.created_at (agents s') = map Agents.created_at (agents s)
    /\ (forall a, In a (agents s) ->
          PG.int4_in (JS.toString (JS.Number (Http.params req "id"))) <> Some (Agents.id a) ->
          In a (agents s'))
    /\ (Http.body req "name" = JS.Undefined ->
        map Agents.name (agents s') = map Agents.name (agents s))
    /\ (Http.body req "phone" = JS.Undefined ->
        map Agents.phone (agents s') = map Agents.phone (agents s))
    /\ ((forall a p, In a (agents s) -> Agents.commission_percent a = Some p -> 0 <= p <= 100) ->
        Http.body req "commissionPercent" = JS.Undefined ->
        map Agents.commission_percent (agents s') = map Agents.commission_percent (agents s)
        /\ (Http.body req "name" = JS.Undefined -> Http.body req "phone" = JS.Undefined ->
            s' = s)).
Proof.
  intros Hkey.
  destruct (update_outcome req t s)
    as (resp & s' & E
        & [-> | (n & row & rest & nm & ph & pct & _ & Hn & Hrows & Hnm & Hph & Hpct & ->)]).
  { exists resp, s. split; [exact E|]. repeat split; try reflexivity. intros a Ha _. exact Ha. }
  destruct (found_row s n row rest Hrows) as [Hrow Hid].
  assert (Hsame : forall a, In a (agents s) -> Agents.id a = n -> a = row).
  { intros a Ha Han. apply (key_finds_one_row (agents s)); try assumption. congruence. }
  eexists _, _. split; [exact E|]. cbn [agents].
  split; [|split; [|split; [|split; [|split]]]].
  - rewrite map_map. apply map_ext. intros a. destruct (Agents.id a =? n); reflexivity.
  - rewrite map_map. apply map_ext. intros a. destruct (Agents.id a =? n); reflexivity.
  - intros a Ha Hne. apply in_map_iff. exists a. split; [|exact Ha].
    destruct (Agents.id a =? n) eqn:Ean; [|reflexivity].
    apply Z.eqb_eq in Ean. exfalso. apply Hne. rewrite Hn, Ean. reflexivity.
  - intros Hu. rewrite Hu in Hnm. cbn in Hnm. injection Hnm as <-.
    rewrite map_map. apply map_ext_in. intros a Ha.
    destruct (Agents.id a =? n) eqn:Ean; [|reflexivity].
    apply Z.eqb_eq in Ean. rewrite (Hsame a Ha Ean). reflexivity.
  - intros Hu. rewrite Hu in Hph. cbn in Hph. injection Hph as <-.
    rewrite map_map. apply map_ext_in. intros a Ha.
    destruct (Agents.id a =? n) eqn:Ean; [|reflexivity].
    apply Z.eqb_eq in Ean. rewrite (Hsame a Ha Ean). reflexivity.
  - intros Hrange Hu. rewrite Hu in Hpct.
    apply kept_percent in Hpct; [|intros p; apply (Hrange row p Hrow)]. subst pct.
    split.
    + rewrite map_map. apply map_ext_in. intros a Ha.
      destruct (Agents.id a =? n) eqn:Ean; [|reflexivity].
      apply Z.eqb_eq in Ean. rewrite (Hsame a Ha Ean). reflexivity.
    + intros Hun Hup. rewrite Hun in Hnm. rewrite Hup in Hph. cbn in Hnm, Hph.
      injection Hnm as <-. injection Hph as <-.
      assert (Eag : map (fun a => if Agents.id a =? n
                                  then {| Agents.id := Agents.id a;
                                          Agents.name := Agents.name row;
                                          Agents.phone := Agents.phone row;
                                          Agents.commission_percent :=
                                            Agents.commission_percent row;
                                          Agents.created_at := Agents.created_at a |}
                                  else a) (agents s) = agents s).
      { rewrite <- (map_id (agents s)) at 2. apply map_ext_in. intros a Ha.
        destruct (Agents.id a =? n) eqn:Ean; [|reflexivity].
        apply Z.eqb_eq in Ean. rewrite (Hsame a Ha Ean). destruct row; reflexivity. }
      rewrite Eag. destruct s; reflexivity.
Qed.

Lemma update_changes_only_what_is_sent_witness :
  exists resp s',
    serve (put_api_agents_id
             {| Http.headers := Http.obj [];
                Http.params := Http.obj [("id", JS.Str "1")];
                Http.body := Http.obj [("commissionPercent", JS.Num 12%float)] |})
          5 Samples.book = (Some resp, s')
    /\ map Agents.name (agents s') = map Agents.name (agents Samples.book)
    /\ map Agents.commission_percent (agents s') = [Some 12; Some 30].
Proof.
  destruct (update_changes_only_what_is_sent
              {| Http.headers := Http.obj [];
                 Http.params := Http.obj [("id", JS.Str "1")];
                 Http.body := Http.obj [("commissionPercent", JS.Num 12%float)] |}
              5 Samples.book)
    as (resp & s' & E & _ & _ & _ & Hname & _).
  - vm_compute. repeat constructor; cbn; intuition discriminate.
  - exists resp, s'. split; [exact E|]. split; [apply Hname; reflexivity|].
    vm_compute in E. injection E as _ <-. reflexivity.
Defined.

Lemma agent_of_key (n : Z) (k : option Z) : is_agent n k = true <-> k = Some n.
Proof.
  destruct k as [m|]; cbn; [|split; discriminate].
  rewrite Z.eqb_eq. split; [intros ->; reflexivity|intros E; injection E as ->; reflexivity].
Qed.

(** X14.  The history of an agent in the second [index.js]: the agent is a stored
    one and the store is left as it is; at most 500 sales and 500 payouts
    are listed, all of that agent, the newest first, and all of them when
    the agent has no more than 500 of a kind; the totals are taken over the
    whole ledger of the agent, listed or not, and the balance is what was
    earned less what was paid. *)
Theorem history_lists_the_newest_rows
  (req : Http.request) (t : Z) (s : store) (h : history) (s' : store) :
  serve (get_api_agents_id_history req) t s = (Some (history_ok h), s') ->
  let n := Agents.id (agent h) in
  s' = s
  /\ In (agent h) (agents s)
  /\ (List.length (history_sales h) <= 500)%nat
  /\ (List.length (history_payouts h) <= 500)%nat
  /\ (forall row, In row (history_sales h) ->
                  In (fst row) (sales s) /\ Sales.agent_id (fst row) = Some n)
  /\ (forall row, In row (history_payouts h) ->
                  In row (payouts s) /\ Payouts.agent_id row = Some n)
  /\ StronglySorted (fun a b => Sales.created_at (fst b) <= Sales.created_at (fst a))
                    (history_sales h)
  /\ StronglySorted (fun a b => Payouts.created_at b <= Payouts.created_at a)
                    (history_payouts h)
  /\ ((List.length (sales_of s n) <= 500)%nat ->
      Permutation (map fst (history_sales h)) (sales_of s n))
  /\ ((List.length (payouts_of s n) <= 500)%nat ->
      Permutation (history_payouts h) (payouts_of s n))
  /\ exists tot,
       history_totals h = Some tot
       /\ id tot = n
       /\ (earned tot == Schema.Qsum (map Sales.commission_amount (sales_of s n)))%Q
       /\ (paid tot == Schema.Qsum (map Payouts.amount (payouts_of s n)))%Q
       /\ (balance tot == earned tot - paid tot)%Q.
Proof.
  unfold serve, get_api_agents_id_history, agentTotals.
  set (agentId := JS.Number _).
  destruct (JS.truthy (JS.Num agentId)) eqn:Htruthy; cbn [negb]; [|cbn; discriminate].
  cbn. unfold by_key. cbn.
  destruct (PG.int4_in (JS.toString agentId)) as [k|] eqn:Hn; cbn; [|discriminate].
  destruct (filter (fun a => Agents.id a =? k) (agents s)) as [|a rest] eqn:Hrows;
    cbn; [discriminate|].
  do 2 (unfold by_key; cbn; rewrite ?Hn; cbn).
  do 2 (unfold by_key; cbn; rewrite ?Hn; cbn).
  rewrite Hrows.
  intros E. injection E as Er Es. subst s' h. cbn.
  destruct (found_row s k a rest Hrows) as [Hin Hid]. subst k.
  split; [destruct s; reflexivity|].
  split; [exact Hin|].
  split; [rewrite length_map; apply firstn_le_length|].
  split; [apply firstn_le_length|].
  split.
  { intros row H. apply in_map_iff in H. destruct H as [x [<- Hx]]. cbn.
    apply in_firstn in Hx. rewrite in_order_desc in Hx. apply filter_In in Hx.
    split; [tauto|]. apply agent_of_key. tauto. }
  split.
  { intros row H. apply in_firstn in H. rewrite in_order_desc in H. apply filter_In in H.
    split; [tauto|]. apply agent_of_key. tauto. }
  split.
  { apply (map_fst_sorted (fun a b => Sales.created_at b <= Sales.created_at a)).
    apply firstn_sorted. apply order_desc_sorted. }
  split; [apply firstn_sorted; apply order_desc_sorted|].
  split.
  { intros Hlen. rewrite map_map. cbn. rewrite map_id.
    rewrite firstn_all2; [apply order_desc_permutation|].
    rewrite (Permutation_length (order_desc_permutation Sales.created_at _)). exact Hlen. }
  split.
  { intros Hlen.
    rewrite firstn_all2; [apply order_desc_permutation|].
    rewrite (Permutation_length (order_desc_permutation Payouts.created_at _)). exact Hlen. }
  change (insert_asc a (order_asc rest)) with (order_asc (a :: rest)).
  destruct (order_asc (a :: rest)) as [|x l] eqn:Hord.
  { exfalso. assert (Hx : In a (order_asc (a :: rest)))
      by (apply in_order_asc; left; reflexivity).
    rewrite Hord in Hx. exact Hx. }
  assert (Hx : In x (a :: rest)).
  { apply in_order_asc. rewrite Hord. left. reflexivity. }
  rewrite <- Hrows in Hx. apply filter_In in Hx. destruct Hx as [_ Hx].
  apply Z.eqb_eq in Hx.
  exists (totals_of s x). cbn. rewrite Hx.
  repeat split; reflexivity.
Qed.

Lemma history_lists_the_newest_rows_witness :
  exists h,
    serve (get_api_agents_id_history (Samples.at_id "1")) 9 Samples.book
    = (Some (history_ok h), Samples.book)
    /\ (List.length (history_sales h) <= 500)%nat
    /\ exists tot, history_totals h = Some tot /\ (balance tot == earned tot - paid tot)%Q.
Proof.
  assert (E : exists h,
             serve (get_api_agents_id_history (Samples.at_id "1")) 9 Samples.book
             = (Some (history_ok h), Samples.book))
    by (eexists; vm_compute; reflexivity).
  destruct E as [h E]. exists h. split; [exact E|].
  destruct (history_lists_the_newest_rows _ _ _ _ _ E)
    as (_ & _ & H1 & _ & _ & _ & _ & _ & _ & _ & tot & Ht & _ & _ & _ & Hb).
  split; [exact H1|]. exists tot. split; assumption.
Defined.

Ltac refused :=
  do 2 eexists; (split; [reflexivity|]); cbn; split;
  [ intros Hst; first [ exfalso; apply Hst; reflexivity | repeat split ]
  | intros [Hst|Hst]; first [ discriminate Hst | reflexivity ] ].

(** A statement that fails has written no row. *)
Lemma failed_insert_agent (nm ph pct : option string) (c : conn) (e : PG.error) (c' : conn) :
  exec_insert_agent nm ph pct c = (PG.Err e, c') ->
  agents (db c') = agents (db c) /\ customers (db c') = customers (db c)
  /\ sales (db c') = sales (db c) /\ payouts (db c') = payouts (db c).
Proof.
  unfold exec_insert_agent.
  destruct (Schema.bind PG.int4_in pct) as [p|e0]; [|intros E; injection E as _ <-; tauto].
  destruct nm, ph; try (intros E; injection E as _ <-; cbn; tauto).
  destruct (has_agent (db c) (agents_id_seq (db c) + 1));
    intros E; try discriminate E; injection E as _ <-; cbn; tauto.
Qed.

Lemma failed_insert_payout (a am note : option string) (c : conn) (e : PG.error) (c' : conn) :
  exec_insert_payout a am note c = (PG.Err e, c') ->
  agents (db c') = agents (db c) /\ customers (db c') = customers (db c)
  /\ sales (db c') = sales (db c) /\ payouts (db c') = payouts (db c).
Proof.
  unfold exec_insert_payout.
  destruct (Schema.bind PG.int4_in a) as [x|e0];
    destruct (Schema.bind PG.numeric_in am) as [[y|]|e1]; cbn;
    try (intros E; injection E as _ <-; cbn; tauto).
  destruct (match x with Some k => has_agent (db c) k | None => true end);
    intros E; try discriminate E; injection E as _ <-; cbn; tauto.
Qed.

Lemma failed_insert_sale (cu a sp cp ca : option string) (c : conn) (e : PG.error)
  (c' : conn) :
  exec_insert_sale cu a sp cp ca c = (PG.Err e, c') ->
  agents (db c') = agents (db c) /\ customers (db c') = customers (db c)
  /\ sales (db c') = sales (db c) /\ payouts (db c') = payouts (db c).
Proof.
  unfold exec_insert_sale.
  destruct (Schema.bind PG.int4_in cu) as [x1|e1];
    destruct (Schema.bind PG.int4_in a) as [x2|e2];
    destruct (Schema.bind PG.numeric_in sp) as [[x3|]|e3];
    destruct (Schema.bind PG.int4_in cp) as [[x4|]|e4];
    destruct (Schema.bind PG.numeric_in ca) as [[x5|]|e5]; cbn;
    try (intros E; injection E as _ <-; cbn; tauto).
  destruct (match x2 with Some k => has_agent (db c) k | None => true end
            && match x1 with Some k => has_customer (db c) k | None => true end);
    intros E; try discriminate E; injection E as _ <-; cbn; tauto.
Qed.

Ltac unchanged :=
  cbn; do 2 eexists; (split; [reflexivity|]); cbn; split;
  [ intros _; repeat split
  | intros _; match goal with |- ?x = ?y => destruct y; reflexivity end ].

(** X15.  The four writing handlers of the second [index.js] always answer, and
    only an answer 200 comes with a change of the rows: after any other
    answer the four tables hold what they held, and after a 400 or a 404
    the store is the one before the call, sequences included. *)
Theorem refused_calls_write_nothing (req : Http.request) (t : Z) (s : store) :
  Forall (fun handler : Http.request -> prog Http.response =>
            exists resp s',
              serve (handler req) t s = (Some resp, s')
              /\ (Http.status resp <> 200 ->
                  agents s' = agents s /\ customers s' = customers s
                  /\ sales s' = sales s /\ payouts s' = payouts s)
              /\ (Http.status resp = 400 \/ Http.status resp = 404 -> s' = s))
         [post_api_agents; put_api_agents_id; post_api_agents_id_payouts; post_api_sales].
Proof.
  repeat apply Forall_cons; [| | | |apply Forall_nil].
  - unfold serve, post_api_agents. cbv zeta.
    destruct (negb (JS.truthy (Http.body req "name"))); [unchanged|].
    destruct (negb (JS.truthy (Http.body req "phone"))); [unchanged|].
    match goal with
    | |- context [if ?b then PG.Ret (Http.fail 400 _) else _] => destruct b; [unchanged|]
    end.
    cbn.
    destruct (exec_insert_agent _ _ _ _) as [[id|e] c'] eqn:E; cbn.
    + refused.
    + do 2 eexists. split; [reflexivity|]. cbn. split.
      * intros _. apply (failed_insert_agent _ _ _ _ _ _ E).
      * intros [H|H]; discriminate H.
  - destruct (update_outcome req t s)
      as (resp & s' & E & [-> | (n & row & rest & nm & ph & pct & Hst & _)]).
    + exists resp, s. split; [exact E|]. repeat split.
    + exists resp, s'. split; [exact E|]. rewrite Hst. split.
      * intros H. exfalso. apply H. reflexivity.
      * intros [H|H]; discriminate H.
  - unfold serve, post_api_agents_id_payouts, agentTotals. cbv zeta.
    destruct (JS.truthy (JS.Num (JS.Number (Http.params req "id")))) eqn:Hid;
      cbn [negb]; [|unchanged].
    match goal with
    | |- context [if ?b then PG.Ret (Http.fail 400 "amount must be > 0") else _] =>
        destruct b; [unchanged|]
    end.
    cbn. unfold by_key. cbn.
    destruct (PG.int4_in (JS.toString (JS.Number (Http.params req "id")))) as [n|];
      [|unchanged].
    cbn.
    destruct (order_asc (filter (fun a => Agents.id a =? n) (agents s)))
      as [|a rest]; [unchanged|].
    cbn.
    match goal with
    | |- context [if ?b then PG.Ret (Http.fail 400 "amount exceeds balance") else _] =>
        destruct b; [unchanged|]
    end.
    cbn.
    destruct (exec_insert_payout _ _ _ _) as [[id|e] c'] eqn:E; cbn.
    + refused.
    + do 2 eexists. split; [reflexivity|]. cbn. split.
      * intros _. apply (failed_insert_payout _ _ _ _ _ _ E).
      * intros [H|H]; discriminate H.
  - unfold serve, post_api_sales. cbv zeta.
    destruct (negb (JS.truthy (JS.Num (JS.Number (Http.body req "customerId")))));
      [unchanged|].
    destruct (negb (JS.truthy (JS.Num (JS.Number (Http.body req "agentId")))));
      [unchanged|].
    match goal with
    | |- context [if ?b then PG.Ret (Http.fail 400 "salePrice must be > 0") else _] =>
        destruct b; [unchanged|]
    end.
    cbn. unfold by_key. cbn.
    destruct (PG.int4_in (JS.toString (JS.Number (Http.body req "agentId")))) as [n|];
      [|unchanged].
    cbn.
    destruct (filter (fun a => Agents.id a =? n) (agents s)) as [|a rest]; [unchanged|].
    cbn.
    destruct (exec_insert_sale _ _ _ _ _ _) as [[id|e] c'] eqn:E; cbn.
    + refused.
    + do 2 eexists. split; [reflexivity|]. cbn. split.
      * intros _. apply (failed_insert_sale _ _ _ _ _ _ _ _ E).
      * intros [H|H]; discriminate H.
Qed.

End Derived.

(* ------------------------------------------------------------------ *)
(** ** The list of customers and the pool *)
(* ------------------------------------------------------------------ *)

Section Statements.

Local Open Scope list_scope.
Local Open Scope string_scope.

(** X16.  Whatever the query string of [GET /api/customers] holds, the statement
    sent is one of a fixed few: in [part_003] the template filled with one of
    three columns and one of two directions, in the second [index.js] with
    one of four orderings, each with or without the one filter clause.  The
    text searched for never becomes part of the statement: it travels as the
    only parameter, trimmed and between two percent signs, and it is there
    exactly when the filter clause with its placeholder is. *)
Theorem customer_list_statement_is_fixed (query : Http.object) :
  (exists w col dir,
      fst (Listing.Part003.get_api_customers query) = Listing.Part003.sql w col dir
      /\ In col ["c.issued_at"; "c.customer_name"; "c.expire_at"]
      /\ In dir ["ASC"; "DESC"]
      /\ ((w = "" /\ snd (Listing.Part003.get_api_customers query) = [])
          \/ (w = Listing.Part003.filter_clause
              /\ exists q, q <> "" /\ JS.trim q = q
                           /\ snd (Listing.Part003.get_api_customers query)
                              = ["%" ++ q ++ "%"]%string)))
  /\ (exists w orderBy,
         fst (Listing.Index2.get_api_customers query) = Listing.Index2.sql w orderBy
         /\ In orderBy ["c.expire_at ASC NULLS LAST"; "c.expire_at DESC NULLS LAST";
                        "c.issued_at DESC"; "c.issued_at ASC"]
         /\ ((w = "" /\ snd (Listing.Index2.get_api_customers query) = [])
             \/ (w = Listing.Index2.filter_clause
                 /\ exists q, q <> "" /\ JS.trim q = q
                              /\ snd (Listing.Index2.get_api_customers query)
                                 = ["%" ++ q ++ "%"]%string))).
Proof.
  split.
  - unfold Listing.Part003.get_api_customers. cbv zeta.
    set (q := JS.trim (JS.String_ (JS.or (query "q") (JS.Str "")))).
    set (sort := JS.String_ (JS.or (query "sort") (JS.Str "expireAt"))).
    set (order := Listing.toLowerCase _).
    assert (Hq : JS.trim q = q) by apply trim_idempotent.
    destruct (String.eqb q "") eqn:Eq; cbn [negb fst snd];
      [exists "" | exists Listing.Part003.filter_clause];
      (destruct (String.eqb sort "issuedAt");
       [exists "c.issued_at"
       |destruct (String.eqb sort "customerName");
        [exists "c.customer_name"|exists "c.expire_at"]]);
      (destruct (String.eqb order "desc"); [exists "DESC"|exists "ASC"]);
      (split; [reflexivity|]); (split; [cbn; tauto|]); (split; [cbn; tauto|]);
      try (left; split; reflexivity);
      right; (split; [reflexivity|]); exists q;
      (split; [apply String.eqb_neq; exact Eq|]); (split; [exact Hq|reflexivity]).
  - unfold Listing.Index2.get_api_customers. cbv zeta.
    set (q := JS.trim (JS.String_ (JS.or (query "search") (JS.Str "")))).
    set (sort := JS.String_ (JS.or (query "sort") (JS.Str "expire_asc"))).
    assert (Hq : JS.trim q = q) by apply trim_idempotent.
    destruct (String.eqb q "") eqn:Eq; cbn [negb fst snd];
      [exists "" | exists Listing.Index2.filter_clause];
      destruct (String.eqb sort "issued_asc"), (String.eqb sort "issued_desc"),
               (String.eqb sort "expire_desc");
      eexists; (split; [reflexivity|]); (split; [cbn; tauto|]);
      try (left; split; reflexivity);
      right; (split; [reflexivity|]); exists q;
      (split; [apply String.eqb_neq; exact Eq|]); (split; [exact Hq|reflexivity]).
Qed.

Lemma prefix_split (p s : string) :
  String.prefix p s = true <-> exists post, s = p ++ post.
Proof.
  revert s. induction p as [|a p IH]; intros s.
  - split; [intros _; exists s; reflexivity|intros _; destruct s; reflexivity].
  - destruct s as [|b s]; cbn; [split; [discriminate|intros [post H]; discriminate H]|].
    destruct (ascii_dec a b) as [->|Hne].
    + rewrite IH. split; intros [post H]; exists post.
      * rewrite H. reflexivity.
      * injection H as H. exact H.
    + split; [discriminate|]. intros [post H]. injection H as H _. congruence.
Qed.

(** [s.includes(p)] says whether [p] occurs somewhere in [s]. *)
Lemma includes_spec (s p : string) :
  p <> "" -> (Db.includes s p = true <-> exists pre post, s = pre ++ p ++ post).
Proof.
  intros Hp. unfold Db.includes. induction s as [|c s IH].
  - cbn. destruct p as [|a p]; [contradiction|]. split; [discriminate|].
    intros (pre & post & H). destruct pre; discriminate H.
  - cbn [String.index]. destruct (String.prefix p (String c s)) eqn:Epre.
    + split; [intros _|reflexivity]. apply prefix_split in Epre. destruct Epre as [post H].
      exists "", post. exact H.
    + destruct (String.index 0 p s) as [i|].
      * split; [intros _|reflexivity].
        destruct (proj1 IH eq_refl) as (pre & post & H).
        exists (String c pre), post. rewrite H. reflexivity.
      * split; [discriminate|]. intros (pre & post & H).
        destruct pre as [|d pre].
        -- assert (E : String.prefix p (String c s) = true)
             by (apply prefix_split; exists post; exact H).
           congruence.
        -- injection H as _ H.
           assert (E : false = true); [|discriminate E].
           apply IH. exists pre, post. exact H.
Qed.

(** X17.  The second [db.js] refuses to load without a [DATABASE_URL], unset or
    empty.  With one, the pool is given that URL, and TLS is switched off
    exactly when the text [localhost] or [127.0.0.1] occurs somewhere in the
    URL, wherever that is; in every other case TLS is on without
    verification of the certificate.  The first [db.js] passes the variable
    on as it is and sets no [ssl] option. *)
Theorem tls_is_decided_by_a_substring (env : option string) :
  (Db.pool2 env = inl "DATABASE_URL is not set" <-> (env = None \/ env = Some ""))
  /\ (forall url, env = Some url -> url <> "" ->
        exists o,
          Db.pool2 env = inr o
          /\ Db.connectionString o = Some url
          /\ (Db.ssl o = Db.ssl_false
              <-> exists pre post, url = pre ++ "localhost" ++ post
                                   \/ url = pre ++ "127.0.0.1" ++ post)
          /\ (Db.ssl o = Db.ssl_false \/ Db.ssl o = Db.ssl_unverified))
  /\ Db.pool1 env = {| Db.connectionString := env; Db.ssl := Db.ssl_default |}.
Proof.
  split; [|split; [|reflexivity]].
  - unfold Db.pool2. destruct env as [url|];
      [|split; [intros _; left; reflexivity|reflexivity]].
    destruct (String.eqb url "") eqn:E.
    + apply String.eqb_eq in E. subst url. split; [intros _; right; reflexivity|reflexivity].
    + apply String.eqb_neq in E. split; [discriminate|].
      intros [H|H]; [discriminate H|]. injection H as H. contradiction.
  - intros url -> Hurl. unfold Db.pool2. apply String.eqb_neq in Hurl. rewrite Hurl.
    eexists. split; [reflexivity|]. split; [reflexivity|]. cbn [Db.ssl].
    unfold Db.needsSSL.
    assert (H1 : "localhost" <> "") by discriminate.
    assert (H2 : "127.0.0.1" <> "") by discriminate.
    pose proof (includes_spec url "localhost" H1) as L.
    pose proof (includes_spec url "127.0.0.1" H2) as R.
    destruct (Db.includes url "localhost"), (Db.includes url "127.0.0.1"); cbn [negb andb].
    + split; [|left; reflexivity]. split; [intros _|reflexivity].
      destruct (proj1 L eq_refl) as (pre & post & H). exists pre, post. left. exact H.
    + split; [|left; reflexivity]. split; [intros _|reflexivity].
      destruct (proj1 L eq_refl) as (pre & post & H). exists pre, post. left. exact H.
    + split; [|left; reflexivity]. split; [intros _|reflexivity].
      destruct (proj1 R eq_refl) as (pre & post & H). exists pre, post. right. exact H.
    + split; [|right; reflexivity]. split; [discriminate|].
      intros (pre & post & [H|H]).
      * assert (E : false = true); [|discriminate E].
        apply L. exists pre, post. exact H.
      * assert (E : false = true); [|discriminate E].
        apply R. exists pre, post. exact H.
Qed.

End Statements.

(* ------------------------------------------------------------------ *)
(** ** Start-up *)
(* ------------------------------------------------------------------ *)

Section Startup.

Local Open Scope string_scope.
Local Open Scope list_scope.
Local Open Scope Z_scope.

Lemma In_ensure (l : list string) (n x : string) :
  In x (Init.ensure l n) <-> In x l \/ x = n.
Proof.
  unfold Init.ensure. destruct (existsb (String.eqb n) l) eqn:E.
  - split; [tauto|]. intros [H| ->]; [exact H|].
    apply existsb_exists in E. destruct E as [y [Hy E]].
    apply String.eqb_eq in E. subst y. exact Hy.
  - rewrite in_app_iff. cbn. intuition congruence.
Qed.

Lemma ensure_present (l : list string) (n : string) : In n l -> Init.ensure l n = l.
Proof.
  intros H. unfold Init.ensure.
  assert (E : existsb (String.eqb n) l = true).
  { apply existsb_exists. exists n. split; [exact H|apply String.eqb_refl]. }
  rewrite E. reflexivity.
Qed.

Lemma seed_parameters :
  PG.param (JS.Num 30%float) = Some "30" /\ PG.int4_in "30" = Some 30.
Proof. split; vm_compute; reflexivity. Qed.

(** What [initDb] leaves behind: the tables are there; the seed row is
    inserted when no agent bears the name, unless the next value of the
    sequence is a key of [agents] already, in which case the [INSERT] is
    refused and the value is spent. *)
Lemma initDb_outcome (d : Init.database) (t : Z) :
  PG.run Init.exec Init.initDb (Init.connect d t)
  = match filter (fun a => String.eqb (Index2.Agents.name a) Init.seed)
                 (Index2.agents (Init.rows d)) with
    | [] =>
        if Index2.has_agent (Init.rows d) (Index2.agents_id_seq (Init.rows d) + 1)
        then
          (PG.Err PG.unique_violation,
           Init.connect
             {| Init.tables :=
                  Init.ensure (Init.ensure (Init.ensure (Init.ensure (Init.tables d)
                                                                     "customers")
                                                        "agents") "sales") "payouts";
                Init.rows :=
                  {| Index2.agents := Index2.agents (Init.rows d);
                     Index2.customers := Index2.customers (Init.rows d);
                     Index2.sales := Index2.sales (Init.rows d);
                     Index2.payouts := Index2.payouts (Init.rows d);
                     Index2.agents_id_seq := Index2.agents_id_seq (Init.rows d) + 1;
                     Index2.sales_id_seq := Index2.sales_id_seq (Init.rows d);
                     Index2.payouts_id_seq := Index2.payouts_id_seq (Init.rows d) |} |} t)
        else
          (PG.Ok tt,
           Init.connect
             {| Init.tables :=
                  Init.ensure (Init.ensure (Init.ensure (Init.ensure (Init.tables d)
                                                                     "customers")
                                                        "agents") "sales") "payouts";
                Init.rows :=
                  {| Index2.agents :=
                       Index2.agents (Init.rows d)
                       ++ [{| Index2.Agents.id := Index2.agents_id_seq (Init.rows d) + 1;
                              Index2.Agents.name := Init.seed;
                              Index2.Agents.phone := "0888885588";
                              Index2.Agents.commission_percent := Some 30;
                              Index2.Agents.created_at := t |}];
                     Index2.customers := Index2.customers (Init.rows d);
                     Index2.sales := Index2.sales (Init.rows d);
                     Index2.payouts := Index2.payouts (Init.rows d);
                     Index2.agents_id_seq := Index2.agents_id_seq (Init.rows d) + 1;
                     Index2.sales_id_seq := Index2.sales_id_seq (Init.rows d);
                     Index2.payouts_id_seq := Index2.payouts_id_seq (Init.rows d) |} |} t)
    | _ :: _ =>
        (PG.Ok tt,
         Init.connect
           {| Init.tables :=
                Init.ensure (Init.ensure (Init.ensure (Init.ensure (Init.tables d)
                                                                   "customers")
                                                      "agents") "sales") "payouts";
              Init.rows := Init.rows d |} t)
    end.
Proof.
  destruct seed_parameters as [Hp Hi].
  unfold Init.initDb. rewrite Hp.
  cbn -[Init.ensure Init.seed].
  destruct (filter (fun a => String.eqb (Index2.Agents.name a) Init.seed)
                   (Index2.agents (Init.rows d))) as [|a l];
    cbn -[Init.ensure Init.seed].
  - change (Z.of_nat (List.length (firstn 1 (@nil Z))) =? 0) with true.
    cbn -[Init.ensure Init.seed PG.int4_in].
    unfold Index2.exec_insert_agent. cbn -[Init.ensure Init.seed PG.int4_in Index2.has_agent].
    rewrite Hi. cbn -[Init.ensure Init.seed Index2.has_agent].
    destruct (Index2.has_agent (Init.rows d) (Index2.agents_id_seq (Init.rows d) + 1));
      reflexivity.
  - reflexivity.
Qed.



End Startup.

(* ------------------------------------------------------------------ *)
(** ** Keys and references in the second [index.js] *)
(* ------------------------------------------------------------------ *)

Section DerivedKeys.

Import Index2.
Local Open Scope string_scope.
Local Open Scope list_scope.
Local Open Scope Z_scope.

Ltac facts H :=
  unfold Index2Integrity.well_formed in H;
  apply andb_true_iff in H; destruct H as [H Kref];
  apply andb_true_iff in H; destruct H as [H Kpa];
  apply andb_true_iff in H; destruct H as [Kag Ksa].

Ltac pieces :=
  unfold Index2Integrity.well_formed;
  apply andb_true_iff; split;
  [apply andb_true_iff; split; [apply andb_true_iff; split|]|].

(** A statement that leaves every row and lets the sequences advance. *)
Lemma well_formed_advanced (s s' : store) :
  Index2Integrity.well_formed s = true ->
  agents s' = agents s -> customers s' = customers s ->
  sales s' = sales s -> payouts s' = payouts s ->
  agents_id_seq s <= agents_id_seq s' ->
  sales_id_seq s <= sales_id_seq s' ->
  payouts_id_seq s <= payouts_id_seq s' ->
  Index2Integrity.well_formed s' = true.
Proof.
  intros H Ha Hc Hs Hp L1 L2 L3. facts H. pieces.
  - rewrite Ha. apply (keyed_moved _ _ _ Kag L1).
  - rewrite Hs. apply (keyed_moved _ _ _ Ksa L2).
  - rewrite Hp. apply (keyed_moved _ _ _ Kpa L3).
  - unfold Index2Integrity.referenced, has_agent, has_customer in *.
    rewrite Ha, Hc, Hs, Hp. exact Kref.
Qed.

Lemma exec_insert_agent_keeps (nm ph pct : option string) (c : conn) :
  Index2Integrity.well_formed (db c) = true ->
  Index2Integrity.well_formed (db (snd (exec_insert_agent nm ph pct c))) = true.
Proof.
  intros H. unfold exec_insert_agent.
  destruct (Schema.bind PG.int4_in pct) as [p|e]; [|exact H].
  destruct nm as [nm|], ph as [ph|]; cbn;
    try (apply (well_formed_advanced (db c)); cbn; try reflexivity; try lia; exact H).
  destruct (has_agent (db c) (agents_id_seq (db c) + 1)); cbn;
    [apply (well_formed_advanced (db c)); cbn; try reflexivity; try lia; exact H|].
  facts H. pieces; cbn.
  - rewrite map_app. cbn. apply keyed_next. exact Kag.
  - exact Ksa.
  - exact Kpa.
  - unfold Index2Integrity.referenced, has_agent in *. cbn.
    apply andb_true_iff in Kref. destruct Kref as [Hs Hp].
    apply andb_true_iff. split; apply forallb_forall; intros r Hr.
    + rewrite forallb_forall in Hs. specialize (Hs r Hr).
      apply andb_true_iff in Hs. destruct Hs as [Hs1 Hs2].
      apply andb_true_iff. split; [|exact Hs2].
      destruct (Sales.agent_id r); [|reflexivity].
      rewrite existsb_app, Hs1. reflexivity.
    + rewrite forallb_forall in Hp. specialize (Hp r Hr).
      destruct (Payouts.agent_id r); [|reflexivity].
      rewrite existsb_app, Hp. reflexivity.
Qed.

Lemma exec_update_agent_keeps (nm ph pct id : option string) (c : conn) :
  Index2Integrity.well_formed (db c) = true ->
  Index2Integrity.well_formed (db (snd (exec_update_agent nm ph pct id c))) = true.
Proof.
  intros H. unfold exec_update_agent.
  destruct (Schema.bind PG.int4_in pct) as [p|e];
    destruct (Schema.bind PG.int4_in id) as [[n|]|e']; try exact H.
  destruct (has_agent (db c) n); [|exact H].
  destruct nm as [nm|], ph as [ph|]; try exact H. cbn.
  assert (Eid : forall l : list Agents.row,
            map Agents.id
                (map (fun a => if Agents.id a =? n
                               then {| Agents.id := Agents.id a; Agents.name := nm;
                                       Agents.phone := ph; Agents.commission_percent := p;
                                       Agents.created_at := Agents.created_at a |}
                               else a) l)
            = map Agents.id l).
  { intros l. rewrite map_map. apply map_ext. intros a.
    destruct (Agents.id a =? n); reflexivity. }
  assert (Eex : forall k (l : list Agents.row),
            existsb (fun a => Agents.id a =? k)
                    (map (fun a => if Agents.id a =? n
                                   then {| Agents.id := Agents.id a; Agents.name := nm;
                                           Agents.phone := ph; Agents.commission_percent := p;
                                           Agents.created_at := Agents.created_at a |}
                                   else a) l)
            = existsb (fun a => Agents.id a =? k) l).
  { intros k l. induction l as [|a l IH]; cbn; [reflexivity|]. rewrite IH.
    destruct (Agents.id a =? n); reflexivity. }
  facts H. pieces; cbn.
  - rewrite Eid. exact Kag.
  - exact Ksa.
  - exact Kpa.
  - unfold Index2Integrity.referenced, has_agent, has_customer in *. cbn.
    apply andb_true_iff in Kref. destruct Kref as [Hs Hp].
    apply andb_true_iff. split; apply forallb_forall; intros r Hr.
    + rewrite forallb_forall in Hs. specialize (Hs r Hr).
      destruct (Sales.agent_id r); [rewrite Eex|]; exact Hs.
    + rewrite forallb_forall in Hp. specialize (Hp r Hr).
      destruct (Payouts.agent_id r); [rewrite Eex|]; exact Hp.
Qed.

Lemma exec_insert_payout_keeps (a am note : option string) (c : conn) :
  Index2Integrity.well_formed (db c) = true ->
  Index2Integrity.well_formed (db (snd (exec_insert_payout a am note c))) = true.
Proof.
  intros H. unfold exec_insert_payout.
  destruct (Schema.bind PG.int4_in a) as [x|e];
    destruct (Schema.bind PG.numeric_in am) as [[y|]|e']; cbn; try exact H;
    try (apply (well_formed_advanced (db c)); cbn; try reflexivity; try lia; exact H).
  destruct (match x with Some k => has_agent (db c) k | None => true end) eqn:Hx; cbn;
    [|apply (well_formed_advanced (db c)); cbn; try reflexivity; try lia; exact H].
  facts H. pieces; cbn.
  - exact Kag.
  - exact Ksa.
  - rewrite map_app. cbn. apply keyed_next. exact Kpa.
  - unfold Index2Integrity.referenced, has_agent, has_customer in *. cbn.
    apply andb_true_iff in Kref. destruct Kref as [Hs Hp].
    rewrite Hs, forallb_app, Hp. cbn. rewrite Hx. reflexivity.
Qed.

Lemma exec_insert_sale_keeps (cu a sp cp ca : option string) (c : conn) :
  Index2Integrity.well_formed (db c) = true ->
  Index2Integrity.well_formed (db (snd (exec_insert_sale cu a sp cp ca c))) = true.
Proof.
  intros H. unfold exec_insert_sale.
  destruct (Schema.bind PG.int4_in cu) as [x1|e1];
    destruct (Schema.bind PG.int4_in a) as [x2|e2];
    destruct (Schema.bind PG.numeric_in sp) as [[x3|]|e3];
    destruct (Schema.bind PG.int4_in cp) as [[x4|]|e4];
    destruct (Schema.bind PG.numeric_in ca) as [[x5|]|e5]; cbn; try exact H;
    try (apply (well_formed_advanced (db c)); cbn; try reflexivity; try lia; exact H).
  destruct (match x2 with Some k => has_agent (db c) k | None => true end) eqn:Ha;
    destruct (match x1 with Some k => has_customer (db c) k | None => true end) eqn:Hc;
    cbn;
    try (apply (well_formed_advanced (db c)); cbn; try reflexivity; try lia; exact H).
  facts H. pieces; cbn.
  - exact Kag.
  - rewrite map_app. cbn. apply keyed_next. exact Ksa.
  - exact Kpa.
  - unfold Index2Integrity.referenced, has_agent, has_customer in *. cbn.
    apply andb_true_iff in Kref. destruct Kref as [Hs Hp].
    rewrite forallb_app, Hs, Hp. cbn. rewrite Ha, Hc. reflexivity.
Qed.

(** No statement of the handlers breaks a key or a reference. *)
Lemma exec_keeps (R : Type) (q : stmt R) (c : conn) :
  Index2Integrity.well_formed (db c) = true ->
  Index2Integrity.well_formed (db (snd (exec R q c))) = true.
Proof.
  intros H.
  destruct q as [i|nm ph pct|i|nm ph pct i|a am note|cu a sp cp ca|a|a]; cbn [exec].
  - destruct i as [i|]; [|exact H]. unfold by_key.
    destruct (Schema.bind PG.int4_in i) as [[n|]|e]; exact H.
  - apply exec_insert_agent_keeps. exact H.
  - unfold by_key. destruct (Schema.bind PG.int4_in i) as [[n|]|e]; exact H.
  - apply exec_update_agent_keeps. exact H.
  - apply exec_insert_payout_keeps. exact H.
  - apply exec_insert_sale_keeps. exact H.
  - unfold by_key. destruct (Schema.bind PG.int4_in a) as [[n|]|e]; exact H.
  - unfold by_key. destruct (Schema.bind PG.int4_in a) as [[n|]|e]; exact H.
Qed.

(** So no handler does, whatever it does with the outcomes. *)
Lemma run_keeps {A : Type} (p : prog A) (c : conn) :
  Index2Integrity.well_formed (db c) = true ->
  Index2Integrity.well_formed (db (snd (PG.run exec p c))) = true.
Proof.
  revert c. induction p as [a|e|R q k IH]; intros c H; cbn; try exact H.
  pose proof (exec_keeps R q c H) as H'.
  destruct (exec R q c) as [r c']. apply IH. exact H'.
Qed.

Lemma serve_keeps {A : Type} (p : prog A) (t : Z) (s : store) :
  Index2Integrity.well_formed s = true ->
  Index2Integrity.well_formed (snd (serve p t s)) = true.
Proof.
  intros H. unfold serve.
  pose proof (run_keeps p (connect s t) H) as H'.
  destruct (PG.run exec p (connect s t)) as [[a|e] c]; exact H'.
Qed.

(** X19.  Whatever calls are made on the second [index.js], in whatever order,
    and whether they succeed or fail: the keys of agents, sales and payouts
    stay pairwise distinct and behind their sequences, and every sale and
    payout that names an agent or a customer names one of the table. *)
Theorem derived_calls_keep_keys_and_references
  (s : store) (cs : list Index2Integrity.call) :
  Index2Integrity.well_formed s = true ->
  Index2Integrity.well_formed (Index2Integrity.after s cs) = true.
Proof.
  revert s. induction cs as [|c cs IH]; intros s H; cbn.
  - exact H.
  - apply IH. destruct c as [req t|req t|req t|req t]; cbn; apply serve_keeps; exact H.
Qed.

Lemma derived_calls_keep_keys_and_references_witness :
  Index2Integrity.well_formed Samples.book = true
  /\ Index2Integrity.well_formed (Index2Integrity.after Samples.book Samples.book_calls)
     = true.
Proof.
  assert (H : Index2Integrity.well_formed Samples.book = true) by (vm_compute; reflexivity).
  split; [exact H|].
  apply (derived_calls_keep_keys_and_references Samples.book Samples.book_calls H).
Defined.

Lemma listing (req : Http.request) (t : Z) (s : store) :
  serve (get_api_agents req) t s
  = (Some (rows_ok (map (totals_of s) (order_asc (agents s)))), s).
Proof. unfold serve, get_api_agents, agentTotals. cbn. destruct s; reflexivity. Qed.

Lemma none_kept {A : Type} (f : A -> bool) (l : list A) :
  (forall x, In x l -> f x = false) -> filter f l = [].
Proof.
  induction l as [|x l IH]; intros H; cbn; [reflexivity|].
  rewrite (H x (or_introl eq_refl)). apply IH. intros y Hy. apply H. right. exact Hy.
Qed.

(** The next value of the sequence keys no agent, and no sale or payout
    names it. *)
Lemma next_key_is_free (s : store) :
  Index2Integrity.well_formed s = true ->
  has_agent s (agents_id_seq s + 1) = false
  /\ sales_of s (agents_id_seq s + 1) = []
  /\ payouts_of s (agents_id_seq s + 1) = [].
Proof.
  intros H. facts H.
  assert (Hfree : has_agent s (agents_id_seq s + 1) = false).
  { unfold Integrity.keyed in Kag. apply andb_true_iff in Kag. destruct Kag as [_ Hf].
    unfold has_agent. destruct (existsb _ (agents s)) eqn:E; [|reflexivity].
    apply existsb_exists in E. destruct E as [a [Ha Hid]]. apply Z.eqb_eq in Hid.
    rewrite forallb_forall in Hf. specialize (Hf (Agents.id a) (in_map _ _ _ Ha)).
    apply Z.leb_le in Hf. lia. }
  unfold Index2Integrity.referenced in Kref.
  apply andb_true_iff in Kref. destruct Kref as [Hs Hp].
  rewrite forallb_forall in Hs, Hp.
  split; [exact Hfree|]. split; apply none_kept; intros r Hr.
  - specialize (Hs r Hr). apply andb_true_iff in Hs. destruct Hs as [Hs _].
    unfold is_agent. destruct (Sales.agent_id r) as [k|]; [|reflexivity].
    destruct (k =? agents_id_seq s + 1) eqn:E; [|reflexivity].
    apply Z.eqb_eq in E. subst k. congruence.
  - specialize (Hp r Hr).
    unfold is_agent. destruct (Payouts.agent_id r) as [k|]; [|reflexivity].
    destruct (k =? agents_id_seq s + 1) eqn:E; [|reflexivity].
    apply Z.eqb_eq in E. subst k. congruence.
Qed.



End DerivedKeys.
